(** * FrePainter data_utils: length-bucketed distributed sampler and collation

    A shallow embedding of [data_utils.py].  Python integers are [Z], Python
    lists are [list], and every operation that can raise does so through the
    [result] monad below. *)

From Equations Require Import Equations.
From stdpp Require Import prelude list_numbers strings sorting.

Local Open Scope Z_scope.

(** ** Exceptions and the error monad *)

Inductive exn : Set :=
  | ZeroDivisionError
  | IndexError
  | AssertionError
  | ValueError
  | RuntimeError.

Inductive result (A : Type) : Type :=
  | Ok (a : A)
  | Raise (e : exn).
#[global] Arguments Ok {A} a.
#[global] Arguments Raise {A} e.

#[global] Instance result_ret : MRet result := λ A, @Ok A.
#[global] Instance result_bind : MBind result := λ A B f m,
  match m with Ok a => f a | Raise e => Raise e end.
#[global] Instance result_fmap : FMap result := λ A B f m,
  match m with Ok a => Ok (f a) | Raise e => Raise e end.

Definition is_Ok {A} (m : result A) : Prop := ∃ a, m = Ok a.
Definition raises {A} (m : result A) : Prop := ∃ e, m = Raise e.

(** ** The Python primitives the module relies on *)

Module Py.

(** [len(l)] *)
Definition len {A} (l : list A) : Z := Z.of_nat (length l).

(** [a // b] and [a % b]: floor division, remainder with the sign of [b]. *)
Definition floordiv (a b : Z) : result Z :=
  if bool_decide (b = 0) then Raise ZeroDivisionError else Ok (a `div` b).
Definition mod_ (a b : Z) : result Z :=
  if bool_decide (b = 0) then Raise ZeroDivisionError else Ok (a `mod` b).

(** [l[i]], negative [i] counts from the end. *)
Definition getitem {A} (l : list A) (i : Z) : result A :=
  let j := if bool_decide (i < 0) then i + len l else i in
  if bool_decide (0 ≤ j) then
    match l !! Z.to_nat j with
    | Some x => Ok x
    | None => Raise IndexError
    end
  else Raise IndexError.

(** [l.pop(i)]: the list without position [i]. *)
Definition pop {A} (l : list A) (i : Z) : result (list A) :=
  let j := if bool_decide (i < 0) then i + len l else i in
  if bool_decide (0 ≤ j < len l) then Ok (delete (Z.to_nat j) l)
  else Raise IndexError.

(** [range(n)] and [range(start, stop, -1)]. *)
Definition range (n : Z) : list Z := seqZ 0 n.
Definition range_down (start stop : Z) : list Z :=
  (λ k, start - k) <$> seqZ 0 (start - stop).

(** [l * k] *)
Definition repeat {A} (l : list A) (k : Z) : list A :=
  mjoin (replicate (Z.to_nat k) l).

(** Clamping of a slice bound for a positive step. *)
Definition clamp {A} (l : list A) (i : Z) : Z :=
  if bool_decide (i < 0) then Z.max 0 (i + len l) else Z.min i (len l).

(** [l[:b]] and [l[a:b]] *)
Definition slice_to {A} (l : list A) (b : Z) : list A :=
  take (Z.to_nat (clamp l b)) l.
Definition slice {A} (l : list A) (a b : Z) : list A :=
  take (Z.to_nat (clamp l b - clamp l a)) (drop (Z.to_nat (clamp l a)) l).

(** [l[start::step]]: CPython computes the first position and the number
    of positions, then walks the list by [step]. *)
Definition stride {A} (l : list A) (start step : Z) : result (list A) :=
  if bool_decide (step = 0) then Raise ValueError
  else if bool_decide (0 < step) then
    let s := clamp l start in
    let count := if bool_decide (s < len l) then (len l - s - 1) `div` step + 1 else 0 in
    Ok (omap (λ k, l !! Z.to_nat (s + k * step)) (seqZ 0 count))
  else
    let s := if bool_decide (start < 0) then Z.max (-1) (start + len l)
             else Z.min start (len l - 1) in
    let count := if bool_decide (-1 < s) then s `div` (- step) + 1 else 0 in
    Ok (omap (λ k, l !! Z.to_nat (s + k * step)) (seqZ 0 count)).

(** [l[i].append(x)] and the like: an in-place change of entry [i]. *)
Definition alter_at {A} (f : A → A) (l : list A) (i : Z) : result (list A) :=
  let j := if bool_decide (i < 0) then i + len l else i in
  if bool_decide (0 ≤ j < len l) then Ok (alter f (Z.to_nat j) l)
  else Raise IndexError.

(** [sum(l)] *)
Definition sum (l : list Z) : Z := foldr Z.add 0 l.

End Py.

(** A [for] loop whose body may raise: the state is threaded left to right
    and the first exception aborts the loop. *)
Fixpoint for_each {A S} (body : S → A → result S) (xs : list A) (s : S) : result S :=
  match xs with
  | [] => Ok s
  | x :: xs' => s' ← body s x; for_each body xs' s'
  end.

(** ** DistributedBucketSampler._bisect *)

Equations? _bisect (boundaries : list Z) (x lo hi : Z) : result Z
  by wf (Z.to_nat (hi - lo)) lt :=
_bisect boundaries x lo hi with decide (hi > lo) := {
  | left Hgt =>
      let mid := (hi + lo) `div` 2 in
      match Py.getitem boundaries mid with
      | Raise e => Raise e
      | Ok b_mid =>
          if bool_decide (b_mid < x) then
            match Py.getitem boundaries (mid + 1) with
            | Raise e => Raise e
            | Ok b_next =>
                if bool_decide (x ≤ b_next) then Ok mid
                else
                  (* [elif x <= self.boundaries[mid]] re-reads the entry *)
                  if bool_decide (x ≤ b_mid) then _bisect boundaries x lo mid
                  else _bisect boundaries x (mid + 1) hi
            end
          else
            if bool_decide (x ≤ b_mid) then _bisect boundaries x lo mid
            else _bisect boundaries x (mid + 1) hi
      end
  | right _ => Ok (-1) }.
Proof.
  all: subst mid; try (apply Z2Nat.inj_lt); try lia.
  all: pose proof (Z.div_mod (hi + lo) 2); pose proof (Z.mod_pos_bound (hi + lo) 2); lia.
Qed.

(** [self._bisect(x)] with the defaults [lo=0], [hi=None]. *)
Definition bisect (boundaries : list Z) (x : Z) : result Z :=
  _bisect boundaries x 0 (Py.len boundaries - 1).

(** ** DistributedBucketSampler._create_buckets *)

(** [[[] for _ in range(len(self.boundaries) - 1)]] *)
Definition empty_buckets (boundaries : list Z) : list (list Z) :=
  (λ _, []) <$> Py.range (Py.len boundaries - 1).

(** First loop: every item index goes to the bucket [_bisect] names, unless
    that is [-1]. *)
Definition assign_item (boundaries lengths : list Z)
    (buckets : list (list Z)) (i : Z) : result (list (list Z)) :=
  length ← Py.getitem lengths i;
  idx_bucket ← bisect boundaries length;
  if bool_decide (idx_bucket ≠ -1) then Py.alter_at (λ b, b ++ [i]) buckets idx_bucket
  else Ok buckets.

Definition assign_items (boundaries lengths : list Z) : result (list (list Z)) :=
  for_each (assign_item boundaries lengths)
    (Py.range (Py.len lengths)) (empty_buckets boundaries).

(** Second loop: [for i in range(len(buckets) - 1, 0, -1)], popping an empty
    bucket and the boundary after it. *)
Definition pop_if_empty (st : list (list Z) * list Z) (i : Z)
    : result (list (list Z) * list Z) :=
  let '(buckets, boundaries) := st in
  b ← Py.getitem buckets i;
  if bool_decide (Py.len b = 0) then
    buckets' ← Py.pop buckets i;
    boundaries' ← Py.pop boundaries (i + 1);
    Ok (buckets', boundaries')
  else Ok (buckets, boundaries).

Definition drop_empty (buckets : list (list Z)) (boundaries : list Z)
    : result (list (list Z) * list Z) :=
  for_each pop_if_empty (Py.range_down (Py.len buckets - 1) 0) (buckets, boundaries).

(** Third loop: the padded size of one bucket. *)
Definition sample_target (len_bucket total_batch_size : Z) : result Z :=
  m ← Py.mod_ len_bucket total_batch_size;
  rem ← Py.mod_ (total_batch_size - m) total_batch_size;
  Ok (len_bucket + rem).

Definition sample_targets (num_replicas batch_size : Z) (buckets : list (list Z))
    : result (list Z) :=
  mapM (λ bucket, sample_target (Py.len bucket) (num_replicas * batch_size)) buckets.

(** The method returns [(buckets, num_samples_per_bucket)] and leaves the
    shrunk list in [self.boundaries]; the triple below carries all three. *)
Definition _create_buckets (lengths boundaries : list Z) (num_replicas batch_size : Z)
    : result (list Z * list (list Z) * list Z) :=
  buckets ← assign_items boundaries lengths;
  '(buckets, boundaries) ← drop_empty buckets boundaries;
  num_samples_per_bucket ← sample_targets num_replicas batch_size buckets;
  Ok (boundaries, buckets, num_samples_per_bucket).

(** ** The sampler object *)

(** [num_replicas], [rank], [epoch], [seed] and [shuffle] are the fields the
    base class [DistributedSampler] leaves on the object; [batches] is [None]
    until [__iter__] stores its result there. *)
Module Sampler.

Record t : Type := mk {
  num_replicas : Z;
  rank : Z;
  epoch : Z;
  seed : Z;
  shuffle : bool;
  lengths : list Z;
  batch_size : Z;
  boundaries : list Z;
  buckets : list (list Z);
  num_samples_per_bucket : list Z;
  total_size : Z;
  num_samples : Z;
  batches : option (list (list Z))
}.

Definition with_epoch (e : Z) (s : t) : t :=
  mk (num_replicas s) (rank s) e (seed s) (shuffle s) (lengths s)
    (batch_size s) (boundaries s) (buckets s) (num_samples_per_bucket s)
    (total_size s) (num_samples s) (batches s).

Definition with_batches (bs : list (list Z)) (s : t) : t :=
  mk (num_replicas s) (rank s) (epoch s) (seed s) (shuffle s) (lengths s)
    (batch_size s) (boundaries s) (buckets s) (num_samples_per_bucket s)
    (total_size s) (num_samples s) (Some bs).

End Sampler.

(** [DistributedSampler.__init__], the constructor of the base class, is
    torch's.  Called with a [num_replicas] and a [rank] it refuses a rank
    outside [[0, num_replicas)] with a ValueError; otherwise it starts the
    object at epoch 0 with seed 0, and what it computes from [len(dataset)]
    the subclass overwrites.  The two are integers here: for [None] torch
    asks the process group, which is not part of this module. *)
Definition DistributedSampler_init (num_replicas rank : Z) : result unit :=
  if bool_decide (num_replicas ≤ rank ∨ rank < 0) then Raise ValueError else Ok ().

(** [DistributedBucketSampler.__init__]; [dataset_lengths] is
    [dataset.lengths]. *)
Definition __init__ (dataset_lengths : list Z) (batch_size : Z) (boundaries : list Z)
    (num_replicas rank : Z) (shuffle : bool) : result Sampler.t :=
  DistributedSampler_init num_replicas rank;;
  '(boundaries', buckets, num_samples_per_bucket) ←
    _create_buckets dataset_lengths boundaries num_replicas batch_size;
  let total_size := Py.sum num_samples_per_bucket in
  num_samples ← Py.floordiv total_size num_replicas;
  Ok (Sampler.mk num_replicas rank 0 0 shuffle dataset_lengths batch_size boundaries'
        buckets num_samples_per_bucket total_size num_samples None).

(** [DistributedSampler.set_epoch] *)
Definition set_epoch (s : Sampler.t) (e : Z) : Sampler.t := Sampler.with_epoch e s.

(** [DistributedBucketSampler.__len__] *)
Definition __len__ (s : Sampler.t) : result Z :=
  Py.floordiv (Sampler.num_samples s) (Sampler.batch_size s).

(** ** torch's random generator

    [torch.Generator] and [torch.randperm] belong to the library, not to this
    module: they are an interface here.  [randperm n g] is the list
    [torch.randperm(n, generator=g).tolist()] together with the advanced
    generator; all that is known of it is that it permutes [range(n)]. *)
Class TorchRandom : Type := {
  Generator : Type;
  new_generator : Generator;
  manual_seed : Generator → Z → Generator;
  randperm : nat → Generator → list Z * Generator;
  randperm_perm : ∀ n g, (randperm n g).1 ≡ₚ Py.range (Z.of_nat n)
}.

(** ** DistributedBucketSampler.__iter__ *)

Section iter.
Context `{TorchRandom}.

(** The per-bucket index lists: a permutation per bucket drawn from [g] in
    bucket order, or [range(len(bucket))]. *)
Definition draw_indices (shuffle : bool) (buckets : list (list Z)) (g : Generator)
    : list (list Z) * Generator :=
  if shuffle then
    foldl (λ '(indices, g) bucket,
             let '(p, g') := randperm (length bucket) g in (indices ++ [p], g'))
          ([], g) buckets
  else ((λ bucket, Py.range (Py.len bucket)) <$> buckets, g).

(** "add extra samples to make it evenly divisible" *)
Definition extend_ids (ids_bucket : list Z) (rem len_bucket : Z) : result (list Z) :=
  q ← Py.floordiv rem len_bucket;
  r ← Py.mod_ rem len_bucket;
  Ok (ids_bucket ++ Py.repeat ids_bucket q ++ Py.slice_to ids_bucket r).

(** "subsample": [ids_bucket[self.rank::self.num_replicas]] *)
Definition subsample (ids_bucket : list Z) (rank num_replicas : Z) : result (list Z) :=
  Py.stride ids_bucket rank num_replicas.

(** "batching" *)
Definition batching (bucket ids_bucket : list Z) (batch_size : Z)
    : result (list (list Z)) :=
  n ← Py.floordiv (Py.len ids_bucket) batch_size;
  mapM (λ j, mapM (Py.getitem bucket)
               (Py.slice ids_bucket (j * batch_size) ((j + 1) * batch_size)))
       (Py.range n).

(** One turn of [for i in range(len(self.buckets))]. *)
Definition bucket_step (s : Sampler.t) (indices : list (list Z))
    (batches : list (list Z)) (i : Z) : result (list (list Z)) :=
  bucket ← Py.getitem (Sampler.buckets s) i;
  let len_bucket := Py.len bucket in
  ids_bucket ← Py.getitem indices i;
  num_samples_bucket ← Py.getitem (Sampler.num_samples_per_bucket s) i;
  let rem := num_samples_bucket - len_bucket in
  ids_bucket ← extend_ids ids_bucket rem len_bucket;
  ids_bucket ← subsample ids_bucket (Sampler.rank s) (Sampler.num_replicas s);
  new ← batching bucket ids_bucket (Sampler.batch_size s);
  Ok (batches ++ new).

(** The batch list up to and including the final shuffle. *)
Definition make_batches (s : Sampler.t) : result (list (list Z)) :=
  let g := manual_seed new_generator (Sampler.epoch s) in
  let '(indices, g) := draw_indices (Sampler.shuffle s) (Sampler.buckets s) g in
  batches ← for_each (bucket_step s indices) (Py.range (Py.len (Sampler.buckets s))) [];
  if Sampler.shuffle s then
    let '(batch_ids, _) := randperm (length batches) g in
    mapM (Py.getitem batches) batch_ids
  else Ok batches.

(** [__iter__] stores the batch list in [self.batches] before the
    assertion, so the object changes even when the assertion fails.  The
    returned iterator is the batch list itself. *)
Definition __iter__ (s : Sampler.t) : Sampler.t * result (list (list Z)) :=
  match make_batches s with
  | Raise e => (s, Raise e)
  | Ok batches =>
      let s' := Sampler.with_batches batches s in
      if bool_decide (Py.len batches * Sampler.batch_size s' = Sampler.num_samples s')
      then (s', Ok batches)
      else (s', Raise AssertionError)
  end.

End iter.

(** A generator to run examples with: the state counts the draws, and a
    draw rotates [range(n)] by the seed plus that count. *)
Definition rotate_perm (n : nat) (k : Z) : list Z :=
  rotate (Z.to_nat (k `mod` Z.max 1 (Z.of_nat n))) (Py.range (Z.of_nat n)).

#[global, refine] Instance rotating_random : TorchRandom := {
  Generator := Z;
  new_generator := 0;
  manual_seed := λ _ seed, seed;
  randperm := λ n g, (rotate_perm n g, g + 1)
}.
Proof.
  intros n g. simpl. unfold rotate_perm, rotate.
  rewrite Permutation_app_comm, take_drop. done.
Defined.

(** A second generator to run examples with.  Its state keeps the seed and
    the number of draws apart, and a new generator starts elsewhere than a
    new [rotating_random] one; once seeded alike the two draw alike. *)
Definition counting_random : TorchRandom.
Proof.
  refine {|
    Generator := Z * Z;
    new_generator := (42, 7);
    manual_seed := λ _ seed, (seed, 0);
    randperm := λ n g, (rotate_perm n (g.1 + g.2), (g.1, g.2 + 1))
  |}.
  intros n g. simpl. unfold rotate_perm, rotate.
  rewrite Permutation_app_comm, take_drop. done.
Defined.

(** ** The dataset loaders

    A manifest line [path|length] is kept as its two fields, the way
    [line.rstrip().split('|')] hands them to the constructor. *)

Record ManifestLine : Type := mkLine {
  line_path : string;
  line_length : Z
}.

Record HParams : Type := mkHParams {
  hp_max_length : Z;
  hp_min_length : Z;
  hp_hop_length : Z
}.

(** Python's [random] is the interpreter's: after [random.seed(a)],
    [random.shuffle(x)] moves the entries of [x] by a permutation of the
    positions that depends on [a] and [len(x)] only.  [shuffle_order a n]
    lists, for each new position, the old one. *)
Class PyRandom : Type := {
  shuffle_order : Z → nat → list nat;
  shuffle_order_perm : ∀ a n, shuffle_order a n ≡ₚ seq 0 n
}.

(** [random.seed(a); random.shuffle(x)] *)
Definition seeded_shuffle `{PyRandom} {A} (a : Z) (x : list A) : list A :=
  omap (λ k, x !! k) (shuffle_order a (length x)).

(** [length if length <= hps.max_length else hps.max_length] *)
Definition clamp_length (hps : HParams) (length : Z) : Z :=
  if bool_decide (length ≤ hp_max_length hps) then length else hp_max_length hps.

Module MelLoader.

Record t : Type := mk {
  return_name : bool;
  max_length : Z;
  min_len : Z;
  hop_length : Z;
  npys : list string;
  lengths : list Z
}.

Definition __init__ `{PyRandom} (lines : list ManifestLine) (hps : HParams)
    (return_name : bool) : t :=
  let npys := line_path <$> lines in
  let lengths := line_length <$> lines in
  let lengths := clamp_length hps <$> lengths in
  let npys := seeded_shuffle 1234 npys in
  mk return_name (hp_max_length hps) (hp_min_length hps) (hp_hop_length hps)
     npys lengths.

Definition __len__ (self : t) : Z := Py.len (npys self).

End MelLoader.

(** [mask_value], a float the constructor only stores, is left out. *)
Module AudioMelMixedMaskRandomLoader.

Record t : Type := mk {
  return_name : bool;
  max_length : Z;
  min_len : Z;
  hop_length : Z;
  npzs : list string;
  lengths : list Z
}.

Definition __init__ `{PyRandom} (lines : list ManifestLine) (hps : HParams)
    (return_name : bool) : t :=
  let npzs := line_path <$> lines in
  let lengths := line_length <$> lines in
  let lengths := clamp_length hps <$> lengths in
  let npzs := seeded_shuffle 1234 npzs in
  mk return_name (hp_max_length hps) (hp_min_length hps) (hp_hop_length hps)
     npzs lengths.

Definition __len__ (self : t) : Z := Py.len (npzs self).

End AudioMelMixedMaskRandomLoader.

(** The length the manifest records for a path, clamped as the loaders
    clamp it: the first line with that path decides. *)
Definition recorded_length (lines : list ManifestLine) (hps : HParams) (p : string)
    : option Z :=
  (λ r, clamp_length hps (line_length r.2))
    <$> list_find (λ ln, line_path ln = p) lines.

(** ** CPython's [random]: the Mersenne Twister behind [random.seed] and
    [random.shuffle] *)

Module Mersenne.

Definition N : nat := 624.
Definition M : nat := 397.
Definition MATRIX_A : Z := 0x9908b0df.
Definition UPPER_MASK : Z := 0x80000000.
Definition LOWER_MASK : Z := 0x7fffffff.

(** Arithmetic on [uint32_t] wraps. *)
Definition u32 (x : Z) : Z := Z.land x 0xffffffff.

Record state : Type := mk { mt : list Z; index : nat }.

(** [init_genrand(self, s)] *)
Definition init_genrand (s : Z) : state :=
  let fill (mt : list Z) (mti : nat) :=
    let prev := mt !!! (mti - 1)%nat in
    <[mti := u32 (1812433253 * Z.lxor prev (Z.shiftr prev 30) + Z.of_nat mti)]> mt in
  mk (foldl fill (u32 s :: replicate (N - 1) 0) (seq 1 (N - 1))) N.

(** [init_by_array(self, init_key, key_length)] *)
Definition init_by_array (init_key : list Z) : state :=
  let key_length := length init_key in
  let wrap (mt : list Z) (i : nat) :=
    if decide (N ≤ i)%nat then (<[0%nat := mt !!! (N - 1)%nat]> mt, 1%nat) else (mt, i) in
  let first '(mt, i, j) :=
    let prev := mt !!! (i - 1)%nat in
    let mt := <[i := u32 (Z.lxor (mt !!! i) (u32 (Z.lxor prev (Z.shiftr prev 30) * 1664525))
                          + init_key !!! j + Z.of_nat j)]> mt in
    let '(mt, i) := wrap mt (S i) in
    (mt, i, if decide (key_length ≤ S j)%nat then 0%nat else S j) in
  let second '(mt, i) :=
    let prev := mt !!! (i - 1)%nat in
    let mt := <[i := u32 (Z.lxor (mt !!! i) (u32 (Z.lxor prev (Z.shiftr prev 30) * 1566083941))
                          - Z.of_nat i)]> mt in
    wrap mt (S i) in
  let '(mt, i, _) :=
    Nat.iter (N `max` key_length) first (mt (init_genrand 19650218), 1%nat, 0%nat) in
  let '(mt, _) := Nat.iter (N - 1) second (mt, i) in
  mk (<[0%nat := 0x80000000]> mt) N.

(** The regeneration of all [N] words inside [genrand_uint32]. *)
Definition twist (a b c : Z) : Z :=
  let y := Z.lor (Z.land a UPPER_MASK) (Z.land b LOWER_MASK) in
  Z.lxor (Z.lxor c (Z.shiftr y 1)) (if Z.testbit y 0 then MATRIX_A else 0).

Definition regenerate (mt : list Z) : list Z :=
  let mt := foldl (λ mt kk, <[kk := twist (mt !!! kk) (mt !!! S kk) (mt !!! (kk + M)%nat)]> mt)
              mt (seq 0 (N - M)) in
  let mt := foldl (λ mt kk, <[kk := twist (mt !!! kk) (mt !!! S kk) (mt !!! (kk + M - N)%nat)]> mt)
              mt (seq (N - M) (M - 1)) in
  <[(N - 1)%nat := twist (mt !!! (N - 1)%nat) (mt !!! 0%nat) (mt !!! (M - 1)%nat)]> mt.

(** [genrand_uint32(self)] *)
Definition genrand_uint32 (st : state) : Z * state :=
  let st := if decide (N ≤ index st)%nat then mk (regenerate (mt st)) 0 else st in
  let y := mt st !!! index st in
  let y := Z.lxor y (Z.shiftr y 11) in
  let y := Z.lxor y (Z.land (Z.shiftl y 7) 0x9d2c5680) in
  let y := Z.lxor y (Z.land (Z.shiftl y 15) 0xefc60000) in
  let y := Z.lxor y (Z.shiftr y 18) in
  (y, mk (mt st) (S (index st))).

(** [random.seed(a)] for an int [a]: the key is [abs(a)] in 32-bit words,
    least significant first. *)
Fixpoint key_words (fuel : nat) (a : Z) : list Z :=
  match fuel with
  | O => []
  | S fuel' => if decide (a < 0x100000000) then [a]
               else u32 a :: key_words fuel' (Z.shiftr a 32)
  end.

Definition seed (a : Z) : state :=
  init_by_array (key_words (S (Z.to_nat (Z.log2 (Z.abs a)))) (Z.abs a)).

(** [getrandbits(k)] for [0 < k <= 32], which is what [_randbelow] asks for
    a list shorter than [2**32]. *)
Definition getrandbits (k : Z) (st : state) : Z * state :=
  let '(y, st) := genrand_uint32 st in (Z.shiftr y (32 - k), st).

(** [_randbelow_with_getrandbits(n)]: draw [n.bit_length()] bits until the
    draw is below [n].  The loop is cut after [fuel] draws. *)
Fixpoint randbelow_loop (fuel : nat) (n k : Z) (st : state) : option (Z * state) :=
  match fuel with
  | O => None
  | S fuel' =>
      let '(r, st) := getrandbits k st in
      if decide (r < n) then Some (r, st) else randbelow_loop fuel' n k st
  end.

Definition randbelow (n : Z) (st : state) : option (Z * state) :=
  randbelow_loop 64 n (Z.log2 n + 1) st.

(** [random.shuffle(x)]:
    [for i in reversed(range(1, len(x))): j = randbelow(i + 1);
     x[i], x[j] = x[j], x[i]] *)
Definition swap {A} (x : list A) (i j : nat) : list A :=
  match x !! i, x !! j with
  | Some xi, Some xj => <[j := xi]> (<[i := xj]> x)
  | _, _ => x
  end.

Definition shuffle_step {A} (acc : option (list A * state)) (i : nat)
    : option (list A * state) :=
  '(x, st) ← acc;
  '(j, st) ← randbelow (Z.of_nat i + 1) st;
  Some (swap x i (Z.to_nat j), st).

Definition shuffle {A} (x : list A) (st : state) : option (list A * state) :=
  foldl shuffle_step (Some (x, st)) (reverse (seq 1 (length x - 1))).

End Mersenne.

(** The interpreter's generator as an instance.  Should the rejection loop
    of [_randbelow] be cut, the order is left as it is. *)
#[global, refine] Instance cpython_random : PyRandom := {
  shuffle_order := λ a n,
    match Mersenne.shuffle (seq 0 n) (Mersenne.seed a) with
    | Some (x, _) => x
    | None => seq 0 n
    end
}.
Proof.
  intros a n. unfold Mersenne.shuffle.
  assert (∀ (idxs : list nat) (acc : option (list nat * Mersenne.state)),
            match acc with Some (y, _) => y ≡ₚ seq 0 n | None => True end →
            match foldl Mersenne.shuffle_step acc idxs with
            | Some (y, _) => y ≡ₚ seq 0 n
            | None => True
            end) as Hfold.
  { induction idxs as [|i idxs IH]; intros acc Hacc; [done|].
    simpl. apply IH. destruct acc as [[y st]|]; [|done]. simpl.
    destruct (Mersenne.randbelow _ st) as [[j st']|]; [|done]. simpl.
    rewrite <- Hacc. unfold Mersenne.swap.
    destruct (y !! i) eqn:Hi; [|done].
    destruct (y !! Z.to_nat j) eqn:Hj; [|done].
    by eapply Permutation_insert_swap. }
  specialize (Hfold (reverse (seq 1 (length (seq 0 n) - 1))) (Some (seq 0 n, Mersenne.seed a))).
  destruct (foldl _ _ _) as [[x st]|]; [|done]. by apply Hfold.
Defined.

(** ** MelCollate

    The entries of a float tensor are only copied and zeroed here, so their
    type is left open; a tensor is its shape and its entries. *)

Record Tensor2 (F : Type) : Type := mkTensor2 {
  size0 : nat;
  size1 : nat;
  at2 : nat → nat → F
}.
#[global] Arguments mkTensor2 {F} _ _ _.
#[global] Arguments size0 {F} _.
#[global] Arguments size1 {F} _.
#[global] Arguments at2 {F} _ _ _.

Record Tensor3 (F : Type) : Type := mkTensor3 {
  shape3 : nat * nat * nat;
  at3 : nat → nat → nat → F
}.
#[global] Arguments mkTensor3 {F} _ _.
#[global] Arguments shape3 {F} _.
#[global] Arguments at3 {F} _ _ _ _.

(** [torch.sort(t, dim=0, descending=True)] is the library's; only the
    index list it returns is used.  Ties may come in any order. *)
Class TorchSort : Type := {
  argsort_descending : list Z → list Z;
  argsort_perm : ∀ l, argsort_descending l ≡ₚ Py.range (Py.len l);
  argsort_sorted : ∀ l,
    Sorted Z.ge (omap (λ k, l !! Z.to_nat k) (argsort_descending l))
}.

Section collate.
Context {F : Type} (zero : F) `{TorchSort}.

(** [torch.FloatTensor(n, f, m)] followed by [zero_()] *)
Definition zeros3 (n f m : nat) : Tensor3 F :=
  mkTensor3 (n, f, m) (λ _ _ _, zero).

(** [t[i, :, :mel.size(1)] = mel]: the slice is as wide as the tensor
    allows, and [mel] must have its shape, or size 1 where it differs. *)
Definition assign_row (t : Tensor3 F) (i : Z) (mel : Tensor2 F) : result (Tensor3 F) :=
  let '(n, f, m) := shape3 t in
  let r := if bool_decide (i < 0) then i + Z.of_nat n else i in
  if bool_decide (0 ≤ r < Z.of_nat n) then
    let w := (size1 mel `min` m)%nat in
    if bool_decide ((size0 mel = f ∨ size0 mel = 1%nat)
                    ∧ (size1 mel = w ∨ size1 mel = 1%nat)) then
      Ok (mkTensor3 (shape3 t) (λ a b c,
            if bool_decide (a = Z.to_nat r ∧ (b < f)%nat ∧ (c < w)%nat) then
              at2 mel (if bool_decide (size0 mel = f) then b else 0%nat)
                      (if bool_decide (size1 mel = w) then c else 0%nat)
            else at3 t a b c))
    else Raise RuntimeError
  else Raise IndexError.

(** [l[i] = x] *)
Definition setitem {A} (l : list A) (i : Z) (x : A) : result (list A) :=
  Py.alter_at (λ _, x) l i.

(** One turn of [for i in range(len(ids_sorted_decreasing))].  An entry of
    [mel_lengths] is [None] while it is still the uninitialised memory
    [torch.LongTensor(n)] hands out. *)
Definition collate_step (batch : list (Tensor2 F * unit)) (ids_sorted_decreasing : list Z)
    (st : Tensor3 F * list (option Z)) (i : Z) : result (Tensor3 F * list (option Z)) :=
  let '(mel_padded, mel_lengths) := st in
  id ← Py.getitem ids_sorted_decreasing i;
  row ← Py.getitem batch id;
  let mel := row.1 in
  mel_padded ← assign_row mel_padded i mel;
  mel_lengths ← setitem mel_lengths i (Some (Z.of_nat (size1 mel)));
  Ok (mel_padded, mel_lengths).

End collate.

Module MelCollate.

(** [MelCollate.__call__]; [max_len] is [self.max_len], [zero] the float 0. *)
Definition __call__ {F} (zero : F) `{TorchSort} (max_len : nat)
    (batch : list (Tensor2 F * unit)) : result (Tensor3 F * list (option Z)) :=
  let ids_sorted_decreasing :=
    argsort_descending ((λ x, Z.of_nat (size1 x.1)) <$> batch) in
  let mel_lengths := replicate (length batch) None in
  first ← Py.getitem batch 0;
  let mel_padded := zeros3 zero (length batch) (size0 first.1) max_len in
  for_each (collate_step batch ids_sorted_decreasing)
    (Py.range (Py.len ids_sorted_decreasing)) (mel_padded, mel_lengths).

End MelCollate.

(** A sort to run examples with: stdpp's merge sort on (length, position)
    pairs, larger lengths first. *)
Definition longer_first (a b : Z * Z) : Prop := b.1 ≤ a.1.

#[global] Instance longer_first_dec a b : Decision (longer_first a b).
Proof. unfold longer_first. apply _. Defined.

#[global] Instance longer_first_total : Total longer_first.
Proof. intros a b. unfold longer_first. lia. Qed.

Definition merge_argsort (l : list Z) : list Z :=
  snd <$> merge_sort longer_first (zip l (Py.range (Py.len l))).

#[global, refine] Instance merge_sort_descending : TorchSort := {
  argsort_descending := merge_argsort
}.
Proof.
  - intros l. unfold merge_argsort.
    rewrite merge_sort_Permutation, snd_zip; [done|].
    unfold Py.range, Py.len. rewrite length_seqZ. lia.
  - intros l. unfold merge_argsort.
    pose proof (Sorted_merge_sort longer_first (zip l (Py.range (Py.len l)))) as Hs.
    assert (Hin : Forall (λ p, l !! Z.to_nat p.2 = Some p.1)
                    (merge_sort longer_first (zip l (Py.range (Py.len l))))).
    { rewrite merge_sort_Permutation. apply Forall_forall. intros [v k] Hvk.
      apply list_elem_of_lookup_1 in Hvk as [i Hi].
      apply lookup_zip_with_Some in Hi as (x & y & [= -> ->] & Hx & Hy).
      apply lookup_seqZ in Hy as [-> _]. simpl.
      by replace (Z.to_nat (0 + Z.of_nat i)) with i by lia. }
    induction Hs as [|p ps Hps IH Hhd]; [constructor|].
    apply Forall_cons in Hin as [Hp Hin]. simpl. rewrite Hp. simpl.
    constructor; [by apply IH|].
    destruct Hhd as [|q qs Hq]; [constructor|].
    apply Forall_cons in Hin as [Hq' _]. simpl. rewrite Hq'. simpl.
    constructor. unfold longer_first in Hq. lia.
Defined.

(** ** Vocabulary of the statements *)

(** A boundary list [b0 < b1 < ... < bK]. *)
Definition strictly_increasing (boundaries : list Z) : Prop :=
  StronglySorted Z.lt boundaries.

(** The bucket the first loop of [_create_buckets] chooses for item [i]. *)
Definition item_bucket (boundaries lengths : list Z) (i : Z) : result Z :=
  length ← Py.getitem lengths i; bisect boundaries length.

#[global] Instance exn_eq_dec : EqDecision exn.
Proof. solve_decision. Defined.
#[global] Instance result_eq_dec `{EqDecision A} : EqDecision (result A).
Proof. solve_decision. Defined.

(** The items among the first [m] that belong to bucket [k]. *)
Definition bucket_members (boundaries lengths : list Z) (m k : Z) : list Z :=
  filter (λ i, item_bucket boundaries lengths i = Ok k) (Py.range m).

(** What the second loop of [_create_buckets] keeps: bucket 0 whatever it
    holds, the later buckets that are not empty, and with each kept bucket
    the boundary that closes it. *)
Definition kept_buckets (buckets : list (list Z)) : list (list Z) :=
  match buckets with
  | [] => []
  | b0 :: rest => b0 :: filter (λ b, b ≠ []) rest
  end.

Definition kept_closers (rest : list (list Z)) (closers : list Z) : list Z :=
  snd <$> filter (λ p, p.1 ≠ []) (zip rest closers).

Definition kept_boundaries (buckets : list (list Z)) (boundaries : list Z) : list Z :=
  match buckets, boundaries with
  | _ :: rest, c0 :: c1 :: closers => c0 :: c1 :: kept_closers rest closers
  | _, _ => boundaries
  end.

(** The buckets as the first loop of [_create_buckets] leaves them. *)
Definition found_buckets (lengths boundaries : list Z) : list (list Z) :=
  bucket_members boundaries lengths (Py.len lengths)
    <$> Py.range (Py.len boundaries - 1).

(** [n] rounded up to a multiple of [d], the way the third loop writes it. *)
Definition round_up (d n : Z) : Z := n + (d - n `mod` d) `mod` d.

(** The fields [__iter__] reads are as [__init__] leaves them for a proper
    configuration with no empty bucket. *)
Record ready (s : Sampler.t) : Prop := {
  ready_replicas : 0 < Sampler.num_replicas s;
  ready_batch_size : 0 < Sampler.batch_size s;
  ready_rank : 0 ≤ Sampler.rank s < Sampler.num_replicas s;
  ready_nonempty : Forall (λ bucket, bucket ≠ []) (Sampler.buckets s);
  ready_targets :
    Forall2 (λ bucket target,
               sample_target (Py.len bucket)
                 (Sampler.num_replicas s * Sampler.batch_size s) = Ok target)
      (Sampler.buckets s) (Sampler.num_samples_per_bucket s)
}.

Definition batches_of (s : Sampler.t) (targets : list Z) : Z :=
  Py.sum ((λ t, t `div` (Sampler.num_replicas s * Sampler.batch_size s)) <$> targets).

Definition full_batches (s : Sampler.t) (batches : list (list Z)) : Prop :=
  Forall (λ batch, Py.len batch = Sampler.batch_size s
                   ∧ Forall (λ item, item ∈ mjoin (Sampler.buckets s)) batch) batches.

(** Two invocations that are independent share nothing but the sampler
    state: each runs with a torch of its own, [run1] and [run2], whose new
    generators may start in different states.  What the two runs have in
    common is torch's promise of reproducibility, stated for a
    correspondence [same_state] of their generator states: seeding with the
    same seed puts the generators in corresponding states, whatever their
    states were, and on corresponding states [randperm] draws the same
    permutation and leaves corresponding states. *)
Definition seeds_alike (run1 run2 : TorchRandom)
    (same_state : @Generator run1 → @Generator run2 → Prop) : Prop :=
  ∀ g1 g2 seed, same_state (@manual_seed run1 g1 seed) (@manual_seed run2 g2 seed).

Definition draws_alike (run1 run2 : TorchRandom)
    (same_state : @Generator run1 → @Generator run2 → Prop) : Prop :=
  ∀ n g1 g2, same_state g1 g2 →
    (@randperm run1 n g1).1 = (@randperm run2 n g2).1
    ∧ same_state (@randperm run1 n g1).2 (@randperm run2 n g2).2.

(** Everything [__iter__] reads from the object. *)
Definition iter_inputs (s : Sampler.t) :=
  (Sampler.epoch s, Sampler.rank s, Sampler.num_replicas s, Sampler.shuffle s,
   Sampler.batch_size s, Sampler.buckets s, Sampler.num_samples_per_bucket s,
   Sampler.num_samples s).

(** The state of the loop of [MelCollate.__call__] after [m] turns: rows
    below [m] are filled and measured, the others are still zero and
    unmeasured. *)
Definition collated {F} (zero : F) (batch : list (Tensor2 F * unit)) (ids : list Z)
    (feature_dim max_len m : nat) (st : Tensor3 F * list (option Z)) : Prop :=
  shape3 st.1 = (length batch, feature_dim, max_len)
  ∧ length st.2 = length batch
  ∧ ∀ i : nat, (i < length batch)%nat →
      if decide (i < m)%nat then
        ∃ id mel, ids !! i = Some id ∧ batch !! Z.to_nat id = Some (mel, ())
                  ∧ st.2 !! i = Some (Some (Z.of_nat (size1 mel)))
                  ∧ ∀ c k, (c < feature_dim)%nat → (k < max_len)%nat →
                      at3 st.1 i c k
                      = if decide (k < size1 mel)%nat then at2 mel c k else zero
      else st.2 !! i = Some None ∧ ∀ c k, at3 st.1 i c k = zero.

(** The scenario of the specification: three mel tensors of 2 rows with 10,
    3 and 7 frames, padded to 20. *)
Definition example_mel (frames : nat) : Tensor2 Z * unit :=
  (mkTensor2 2 frames (λ c k, 1 + Z.of_nat c * 100 + Z.of_nat k), ()).

Definition example_batch : list (Tensor2 Z * unit) :=
  [example_mel 10; example_mel 3; example_mel 7].

(** Three records [a.npy|10], [b.npy|20], [c.npy|30]: the seeded shuffle
    of the interpreter leaves the paths as [c, a, b] next to the lengths
    [10, 20, 30]. *)
Definition example_manifest : list ManifestLine :=
  [mkLine "a.npy" 10; mkLine "b.npy" 20; mkLine "c.npy" 30].

Definition example_hps : HParams := mkHParams 100 0 256.



From Stdlib Require Import Ascii.

(** ** Further vocabulary: the sampler *)

(** The lengths of the items of each bucket lie between the boundary before
    the bucket and the one after it: [lo] is the boundary before the first
    bucket, [closers] the boundaries after each. *)
Inductive bounded_by (lengths : list Z) : Z → list (list Z) → list Z → Prop :=
  | bounded_nil lo : bounded_by lengths lo [] []
  | bounded_cons lo hi bucket rest closers :
      lo ≤ hi →
      Forall (λ i, ∃ x, lengths !! Z.to_nat i = Some x ∧ lo < x ≤ hi) bucket →
      bounded_by lengths hi rest closers →
      bounded_by lengths lo (bucket :: rest) (hi :: closers).

(** A batch as the docstring of the sampler promises it: [batch_size] item
    indices, all of one bucket. *)
Definition homogeneous (s : Sampler.t) (batch : list Z) : Prop :=
  Py.len batch = Sampler.batch_size s
  ∧ ∃ (k : nat) bucket, Sampler.buckets s !! k = Some bucket
                        ∧ Forall (λ item, item ∈ bucket) batch.

(** The same sampler object on another rank. *)
Definition on_rank (r : Z) (s : Sampler.t) : Sampler.t :=
  Sampler.mk (Sampler.num_replicas s) r (Sampler.epoch s) (Sampler.seed s)
    (Sampler.shuffle s) (Sampler.lengths s) (Sampler.batch_size s)
    (Sampler.boundaries s) (Sampler.buckets s) (Sampler.num_samples_per_bucket s)
    (Sampler.total_size s) (Sampler.num_samples s) (Sampler.batches s).

(** ** What the loaders hand out

    [random.randint(a, b)] is the interpreter's: a draw from the module's
    generator, which it advances.  All that is known of it is that the draw
    lies in [[a, b]]; an empty range is a ValueError. *)
Class PyRandint : Type := {
  Rng : Type;
  randint : Z → Z → Rng → result Z * Rng;
  randint_range : ∀ a b g, a ≤ b → ∃ n, (randint a b g).1 = Ok n ∧ a ≤ n ≤ b;
  randint_empty : ∀ a b g, b < a → (randint a b g).1 = Raise ValueError
}.

(** A generator to run examples with: the state counts the draws. *)
#[global, refine] Instance cycling_randint : PyRandint := {
  Rng := Z;
  randint := λ a b g,
    if bool_decide (b < a) then (Raise ValueError, g)
    else (Ok (a + g `mod` (b - a + 1)), g + 1)
}.
Proof.
  - intros a b g Hab. rewrite bool_decide_false by lia. eexists. split; [done|].
    pose proof (Z.mod_pos_bound g (b - a + 1)). lia.
  - intros a b g Hab. by rewrite bool_decide_true by lia.
Defined.

(** A 1-D tensor: its length and its entries. *)
Record Tensor1 (F : Type) : Type := mkTensor1 {
  numel : nat;
  at1 : nat → F
}.
#[global] Arguments mkTensor1 {F} _ _.
#[global] Arguments numel {F} _.
#[global] Arguments at1 {F} _ _.

(** The bound of a slice with step 1 on a dimension of size [n]. *)
Definition clamp_bound (n i : Z) : Z :=
  if bool_decide (i < 0) then Z.max 0 (i + n) else Z.min i n.

(** [t[:, a:b]] *)
Definition slice_cols {F} (t : Tensor2 F) (a b : Z) : Tensor2 F :=
  let start := clamp_bound (Z.of_nat (size1 t)) a in
  let stop := clamp_bound (Z.of_nat (size1 t)) b in
  mkTensor2 (size0 t) (Z.to_nat (stop - start)) (λ c k, at2 t c (Z.to_nat start + k)%nat).

(** [t.unsqueeze(0)] of a 1-D tensor *)
Definition unsqueeze0 {F} (t : Tensor1 F) : Tensor2 F :=
  mkTensor2 1 (numel t) (λ _ k, at1 t k).

(** [t = t.clone(); t[r:, :] = v] *)
Definition mask_rows {F} (t : Tensor2 F) (r : Z) (v : F) : Tensor2 F :=
  let start := Z.to_nat (clamp_bound (Z.of_nat (size0 t)) r) in
  mkTensor2 (size0 t) (size1 t)
    (λ c k, if bool_decide (start ≤ c < size0 t)%nat then v else at2 t c k).

(** [os.path.basename(p)]: what follows the last [/]. *)
Fixpoint has_sep (p : string) : bool :=
  match p with
  | EmptyString => false
  | String c rest => bool_decide (c = "/"%char) || has_sep rest
  end.

Fixpoint basename (p : string) : string :=
  match p with
  | EmptyString => EmptyString
  | String c rest =>
      if has_sep rest then basename rest
      else if bool_decide (c = "/"%char) then rest else p
  end.

(** [s.replace('.npz', '.wav')]: every occurrence, left to right. *)
Fixpoint replace_npz_wav (s : string) : string :=
  match s with
  | EmptyString => EmptyString
  | String "." (String "n" (String "p" (String "z" rest))) =>
      String "." (String "w" (String "a" (String "v" (replace_npz_wav rest))))
  | String c rest => String c (replace_npz_wav rest)
  end.

(** What [np.load] finds in an [.npz] file of the training set.  The arrays
    are taken as the float32 values the tensor constructors turn them
    into. *)
Record Npz (F : Type) : Type := mkNpz {
  npz_audio : Tensor1 F;
  npz_mel : Tensor2 F
}.
#[global] Arguments mkNpz {F} _ _.
#[global] Arguments npz_audio {F} _.
#[global] Arguments npz_mel {F} _.

(** Code that draws from [random] and may raise: the generator is threaded
    through, and an exception leaves it where the draw left it. *)
Definition Rand `{PyRandint} (A : Type) : Type := Rng → result A * Rng.

Definition rand_ret `{PyRandint} {A} (a : A) : Rand A := λ g, (Ok a, g).
Definition rand_bind `{PyRandint} {A B} (m : Rand A) (k : A → Rand B) : Rand B :=
  λ g, match m g with
       | (Ok a, g') => k a g'
       | (Raise e, g') => (Raise e, g')
       end.
Definition rand_lift `{PyRandint} {A} (m : result A) : Rand A := λ g, (m, g).

Module MelLoaderItem.
Section getitem.
Context {F : Type} `{PyRandint}.

(** [MelLoader.__getitem__]; [np_load] is the content of the files, which
    are taken to be there and to hold 2-D arrays. *)
Definition __getitem__ (np_load : string → Tensor2 F) (self : MelLoader.t) (index : Z)
    : Rand (Tensor2 F * unit) :=
  rand_bind (rand_lift (Py.getitem (MelLoader.npys self) index)) (λ path,
  let mel := np_load path in
  let length := Z.of_nat (size1 mel) in
  if bool_decide (MelLoader.max_length self ≤ length) then
    let max_mel_start := length - MelLoader.max_length self in
    rand_bind (randint 0 max_mel_start) (λ mel_start,
    let mel := slice_cols mel mel_start (mel_start + MelLoader.max_length self) in
    rand_ret (mel, ()))
  else rand_ret (mel, ())).

End getitem.
End MelLoaderItem.

Module AudioMelItem.
Section getitem.
Context {F : Type} `{PyRandint}.

(** The block under [if length >= self.max_length] with its empty [else]:
    the mel and the audio after it. *)
Definition crop (self : AudioMelMixedMaskRandomLoader.t) (mel audio : Tensor2 F)
    : Rand (Tensor2 F * Tensor2 F) :=
  let length := Z.of_nat (size1 mel) in
  let max_length := AudioMelMixedMaskRandomLoader.max_length self in
  let hop_length := AudioMelMixedMaskRandomLoader.hop_length self in
  if bool_decide (max_length ≤ length) then
    let max_spec_start := length - max_length in
    rand_bind (randint 0 max_spec_start) (λ spec_start,
    let mel := slice_cols mel spec_start (spec_start + max_length) in
    let audio := slice_cols audio (spec_start * hop_length)
                   ((spec_start + max_length) * hop_length) in
    rand_ret (mel, audio))
  else rand_ret (mel, audio).

(** [AudioMelMixedMaskRandomLoader.__getitem__]; [mask_value] is
    [self.mask_value].  The third entry of the tuple is a tensor or, with
    [return_name], a file name. *)
Definition __getitem__ (np_load : string → Npz F) (mask_value : F)
    (self : AudioMelMixedMaskRandomLoader.t) (index : Z)
    : Rand (Tensor2 F * Tensor2 F * (Tensor2 F + string)) :=
  rand_bind (rand_lift (Py.getitem (AudioMelMixedMaskRandomLoader.npzs self) index))
    (λ path,
  let x := np_load path in
  let audio := unsqueeze0 (npz_audio x) in
  let mel := npz_mel x in
  rand_bind (crop self mel audio) (λ '(mel, audio),
  rand_bind (randint 32 128) (λ rannum,
  let masked_mel := mask_rows mel rannum mask_value in
  if AudioMelMixedMaskRandomLoader.return_name self then
    rand_ret (mel, audio, inr (replace_npz_wav (basename path)))
  else rand_ret (masked_mel, audio, inl mel)))).

End getitem.
End AudioMelItem.

(** ** The other collates *)

(** A [str] has no [size]: the collates of the audio pipeline can raise
    AttributeError next to the exceptions of [exn]. *)
Inductive error : Set :=
  | Builtin (e : exn)
  | AttributeError.

Inductive outcome (A : Type) : Type :=
  | Done (a : A)
  | Fail (e : error).
#[global] Arguments Done {A} a.
#[global] Arguments Fail {A} e.

#[global] Instance outcome_ret : MRet outcome := λ A, @Done A.
#[global] Instance outcome_bind : MBind outcome := λ A B f m,
  match m with Done a => f a | Fail e => Fail e end.

Definition builtin {A} (m : result A) : outcome A :=
  match m with Ok a => Done a | Raise e => Fail (Builtin e) end.

(** [for_each] for a body that can raise any [error]. *)
Fixpoint for_each_outcome {A S} (body : S → A → outcome S) (xs : list A) (s : S)
    : outcome S :=
  match xs with
  | [] => Done s
  | x :: xs' => s' ← body s x; for_each_outcome body xs' s'
  end.

(** [x.size(1)] of the third entry of a row *)
Definition tensor_of {F} (x : Tensor2 F + string) : outcome (Tensor2 F) :=
  match x with
  | inl t => Done t
  | inr _ => Fail AttributeError
  end.

Module AudioMelMaskCollate.

Record padded (F : Type) : Type := mk {
  masked_mel_padded : Tensor3 F;
  masked_mel_lengths : list (option Z);
  wav_padded : Tensor3 F;
  wav_lengths : list (option Z);
  raw_padded : Tensor3 F
}.
#[global] Arguments mk {F} _ _ _ _ _.
#[global] Arguments masked_mel_padded {F} _.
#[global] Arguments masked_mel_lengths {F} _.
#[global] Arguments wav_padded {F} _.
#[global] Arguments wav_lengths {F} _.
#[global] Arguments raw_padded {F} _.

Section call.
Context {F : Type} (zero : F) `{TorchSort}.

Definition row : Type := Tensor2 F * Tensor2 F * (Tensor2 F + string).

(** One turn of the first loop. *)
Definition step (batch : list row) (ids_sorted_decreasing : list Z)
    (st : padded F) (i : Z) : outcome (padded F) :=
  let '(mk masked_mel_padded masked_mel_lengths wav_padded wav_lengths raw_padded) := st in
  id ← builtin (Py.getitem ids_sorted_decreasing i);
  row ← builtin (Py.getitem batch id);
  let masked_mel := row.1.1 in
  masked_mel_padded ← builtin (assign_row masked_mel_padded i masked_mel);
  masked_mel_lengths ←
    builtin (setitem masked_mel_lengths i (Some (Z.of_nat (size1 masked_mel))));
  let wav := row.1.2 in
  wav_padded ← builtin (assign_row wav_padded i wav);
  wav_lengths ← builtin (setitem wav_lengths i (Some (Z.of_nat (size1 wav))));
  raw ← tensor_of row.2;
  raw_padded ← builtin (assign_row raw_padded i raw);
  Done (mk masked_mel_padded masked_mel_lengths wav_padded wav_lengths raw_padded).

(** One turn of the loop that collects the names: [row[-1]]. *)
Definition name_step (batch : list row) (ids_sorted_decreasing : list Z)
    (names : list (Tensor2 F + string)) (i : Z) : outcome (list (Tensor2 F + string)) :=
  id ← builtin (Py.getitem ids_sorted_decreasing i);
  row ← builtin (Py.getitem batch id);
  Done (names ++ [row.2]).

(** [AudioMelMaskCollate.__call__]: the first four results, and then the
    names or the padded raw mels. *)
Definition __call__ (return_name : bool) (hop_len max_len : nat) (batch : list row)
    : outcome (Tensor3 F * list (option Z) * Tensor3 F * list (option Z)
               * (list (Tensor2 F + string) + Tensor3 F)) :=
  let ids_sorted_decreasing :=
    argsort_descending ((λ x, Z.of_nat (size1 x.1.1)) <$> batch) in
  let masked_mel_lengths := replicate (length batch) None in
  let wav_lengths := replicate (length batch) None in
  first ← builtin (Py.getitem batch 0);
  let masked_mel_padded := zeros3 zero (length batch) (size0 first.1.1) max_len in
  let wav_padded := zeros3 zero (length batch) 1 (max_len * hop_len) in
  first ← builtin (Py.getitem batch 0);
  let raw_padded := zeros3 zero (length batch) (size0 first.1.1) max_len in
  '(mk masked_mel_padded masked_mel_lengths wav_padded wav_lengths raw_padded) ←
    for_each_outcome (step batch ids_sorted_decreasing)
      (Py.range (Py.len ids_sorted_decreasing))
      (mk masked_mel_padded masked_mel_lengths wav_padded wav_lengths raw_padded);
  if return_name then
    names ← for_each_outcome (name_step batch ids_sorted_decreasing)
              (Py.range (Py.len ids_sorted_decreasing)) [];
    Done (masked_mel_padded, masked_mel_lengths, wav_padded, wav_lengths, inl names)
  else
    Done (masked_mel_padded, masked_mel_lengths, wav_padded, wav_lengths,
          inr raw_padded).

End call.
End AudioMelMaskCollate.

(** ** InpaintAudioCollate *)

(** [t.split(split_size)] of a 1-D tensor: pieces of [split_size] entries,
    the last one with what is left.  The number of pieces is at least one,
    so that a tensor without entries gives one empty piece; a [split_size]
    of 0 is accepted for such a tensor only. *)
Definition get_num_splits {F} (t : Tensor1 F) (split_size : nat) : result nat :=
  if bool_decide (split_size = 0 ∧ numel t ≠ 0)%nat then Raise RuntimeError
  else if bool_decide (split_size = 0)%nat then Ok 1%nat
  else Ok (((numel t + split_size - 1) `div` split_size) `max` 1)%nat.

(** Piece [i] of [num_splits]: [t.narrow(0, i * split_size, length)]. *)
Definition piece {F} (t : Tensor1 F) (split_size num_splits i : nat) : Tensor1 F :=
  let last_split_size := (split_size - (split_size * num_splits - numel t))%nat in
  let length := if bool_decide (i < num_splits - 1)%nat then split_size
                else last_split_size in
  mkTensor1 length (λ k, at1 t (i * split_size + k)%nat).

Definition torch_split {F} (t : Tensor1 F) (split_size : nat) : result (list (Tensor1 F)) :=
  num_splits ← get_num_splits t split_size;
  Ok (piece t split_size num_splits <$> seq 0 num_splits).

(** [FloatTensor(n, m)] followed by [zero_()] *)
Definition zeros2 {F} (zero : F) (n m : nat) : Tensor2 F := mkTensor2 n m (λ _ _, zero).

(** [t[i][:seg.size(-1)] = seg] *)
Definition assign_seg {F} (t : Tensor2 F) (i : Z) (seg : Tensor1 F) : result (Tensor2 F) :=
  let r := if bool_decide (i < 0) then i + Z.of_nat (size0 t) else i in
  if bool_decide (0 ≤ r < Z.of_nat (size0 t)) then
    let w := (numel seg `min` size1 t)%nat in
    if bool_decide (numel seg = w ∨ numel seg = 1%nat) then
      Ok (mkTensor2 (size0 t) (size1 t) (λ a c,
            if bool_decide (a = Z.to_nat r ∧ (c < w)%nat) then
              at1 seg (if bool_decide (numel seg = w) then c else 0%nat)
            else at2 t a c))
    else Raise RuntimeError
  else Raise IndexError.

Module InpaintAudioCollate.

(** [InpaintAudioCollate.__call__]: only [batch[0]] is read.  The audio is
    taken to be 1-D, as the loader makes it from a file with one channel. *)
Definition __call__ {F} (zero : F) (hop_len max_len : nat)
    (batch : list (Tensor1 F * string)) : result (Tensor2 F * list Z * string) :=
  '(audio, names) ← Py.getitem batch 0;
  audio_segs ← torch_split audio (hop_len * max_len);
  let audio_padded := zeros2 zero (length audio_segs) (hop_len * max_len) in
  let audio_lengths := (λ seg, Z.of_nat (numel seg)) <$> audio_segs in
  audio_padded ←
    for_each (λ audio_padded '(i, seg), assign_seg audio_padded i seg)
      (zip (Py.range (Py.len audio_segs)) audio_segs) audio_padded;
  Ok (audio_padded, audio_lengths, names).

End InpaintAudioCollate.

(** ** InpaintMelAudioCollate *)

Module InpaintMelAudioCollate.

Record padded (F : Type) : Type := mk {
  mel_padded : Tensor3 F;
  mel_lengths : list (option Z);
  orig_padded : Tensor3 F;
  orig_lengths : list (option Z);
  gt_padded : Tensor2 F;
  gt_lengths : list (option Z);
  names : list string
}.
#[global] Arguments mk {F} _ _ _ _ _ _ _.
#[global] Arguments mel_padded {F} _.
#[global] Arguments mel_lengths {F} _.
#[global] Arguments orig_padded {F} _.
#[global] Arguments orig_lengths {F} _.
#[global] Arguments gt_padded {F} _.
#[global] Arguments gt_lengths {F} _.
#[global] Arguments names {F} _.

Section call.
Context {F : Type} (zero : F) `{TorchSort}.

(** A row is [(mel, mel_orig, gt, name)], as [InpaintMelAudioLoader] hands
    it out. *)
Definition row : Type := Tensor2 F * Tensor2 F * Tensor1 F * string.

(** One turn of the loop. *)
Definition step (batch : list row) (ids_sorted_decreasing : list Z)
    (st : padded F) (i : Z) : result (padded F) :=
  let '(mk mel_padded mel_lengths orig_padded orig_lengths gt_padded gt_lengths names) :=
    st in
  id ← Py.getitem ids_sorted_decreasing i;
  row ← Py.getitem batch id;
  let mel := row.1.1.1 in
  mel_padded ← assign_row mel_padded i mel;
  mel_lengths ← setitem mel_lengths i (Some (Z.of_nat (size1 mel)));
  let names := names ++ [row.2] in
  let orig := row.1.1.2 in
  orig_padded ← assign_row orig_padded i orig;
  orig_lengths ← setitem orig_lengths i (Some (Z.of_nat (size1 orig)));
  let gt := row.1.2 in
  gt_padded ← assign_seg gt_padded i gt;
  gt_lengths ← setitem gt_lengths i (Some (Z.of_nat (numel gt)));
  Ok (mk mel_padded mel_lengths orig_padded orig_lengths gt_padded gt_lengths names).

(** [InpaintMelAudioCollate.__call__] *)
Definition __call__ (hop_len max_len : nat) (batch : list row) : result (padded F) :=
  let ids_sorted_decreasing :=
    argsort_descending ((λ x, Z.of_nat (size1 x.1.1.1)) <$> batch) in
  let mel_lengths := replicate (length batch) None in
  first ← Py.getitem batch 0;
  let mel_padded := zeros3 zero (length batch) (size0 first.1.1.1) max_len in
  let orig_lengths := replicate (length batch) None in
  first ← Py.getitem batch 0;
  let orig_padded := zeros3 zero (length batch) (size0 first.1.1.1) max_len in
  let gt_lengths := replicate (length batch) None in
  let gt_padded := zeros2 zero (length batch) (max_len * hop_len) in
  let names := [] in
  for_each (step batch ids_sorted_decreasing) (Py.range (Py.len ids_sorted_decreasing))
    (mk mel_padded mel_lengths orig_padded orig_lengths gt_padded gt_lengths names).

End call.
End InpaintMelAudioCollate.

(** ** Further vocabulary: the collates *)

(** A mel that the padded tensor of [MelCollate] takes: as many rows as the
    first item of the batch, or one row, and at most [max_len] frames, or
    one frame. *)
Definition fits {F} (feature_dim max_len : nat) (mel : Tensor2 F) : Prop :=
  (size0 mel = feature_dim ∨ size0 mel = 1%nat)
  ∧ (size1 mel = (size1 mel `min` max_len)%nat ∨ size1 mel = 1%nat).

#[global] Instance fits_dec {F} f m (mel : Tensor2 F) : Decision (fits f m mel).
Proof. unfold fits. apply _. Defined.

(** The state of a padded tensor after [k] turns of a collate loop over
    [batch], visited in the order [ids]: row [i < k] holds the tensor [get]
    finds in item [ids[i]], in the columns below its length, and zeros from
    there on; the later rows are still zero. *)
Definition padded_rows {F A} (zero : F) (get : A → option (Tensor2 F)) (batch : list A)
    (ids : list Z) (f m k : nat) (t : Tensor3 F) : Prop :=
  shape3 t = (length batch, f, m)
  ∧ ∀ i : nat, (i < length batch)%nat →
      if decide (i < k)%nat then
        ∃ id row mel, ids !! i = Some id ∧ batch !! Z.to_nat id = Some row
                      ∧ get row = Some mel
                      ∧ ∀ c j, (c < f)%nat → (j < m)%nat →
                          at3 t i c j
                          = if decide (j < size1 mel)%nat then at2 mel c j else zero
      else ∀ c j, at3 t i c j = zero.

(** The state of a length vector after [k] turns: entry [i < k] is the
    length of the tensor [get] finds in item [ids[i]], the later entries
    are still uninitialised. *)
Definition measured {F A} (get : A → option (Tensor2 F)) (batch : list A)
    (ids : list Z) (k : nat) (ls : list (option Z)) : Prop :=
  length ls = length batch
  ∧ ∀ i : nat, (i < length batch)%nat →
      if decide (i < k)%nat then
        ∃ id row mel, ids !! i = Some id ∧ batch !! Z.to_nat id = Some row
                      ∧ get row = Some mel
                      ∧ ls !! i = Some (Some (Z.of_nat (size1 mel)))
      else ls !! i = Some None.

(** The three tensors of a row of [AudioMelMaskCollate]. *)
Definition row_masked_mel {F} (row : Tensor2 F * Tensor2 F * (Tensor2 F + string))
    : option (Tensor2 F) := Some row.1.1.
Definition row_wav {F} (row : Tensor2 F * Tensor2 F * (Tensor2 F + string))
    : option (Tensor2 F) := Some row.1.2.
Definition row_raw {F} (row : Tensor2 F * Tensor2 F * (Tensor2 F + string))
    : option (Tensor2 F) :=
  match row.2 with inl raw => Some raw | inr _ => None end.

(** A row [AudioMelMaskCollate] pads without broadcasting: three tensors,
    the mels with [f] rows and at most [max_len] frames, the audio with one
    row and at most [max_len * hop_len] samples. *)
Definition collatable {F} (f max_len hop_len : nat)
    (row : Tensor2 F * Tensor2 F * (Tensor2 F + string)) : Prop :=
  ∃ raw, row.2 = inl raw
         ∧ size0 row.1.1 = f ∧ (size1 row.1.1 ≤ max_len)%nat
         ∧ size0 row.1.2 = 1%nat ∧ (size1 row.1.2 ≤ max_len * hop_len)%nat
         ∧ size0 raw = f ∧ (size1 raw ≤ max_len)%nat.

(** The state of the loop of [AudioMelMaskCollate.__call__] after [k]
    turns. *)
Definition audio_collated {F} (zero : F)
    (batch : list (Tensor2 F * Tensor2 F * (Tensor2 F + string))) (ids : list Z)
    (f max_len hop_len k : nat) (st : AudioMelMaskCollate.padded F) : Prop :=
  padded_rows zero row_masked_mel batch ids f max_len k
    (AudioMelMaskCollate.masked_mel_padded st)
  ∧ measured row_masked_mel batch ids k (AudioMelMaskCollate.masked_mel_lengths st)
  ∧ padded_rows zero row_wav batch ids 1 (max_len * hop_len) k
      (AudioMelMaskCollate.wav_padded st)
  ∧ measured row_wav batch ids k (AudioMelMaskCollate.wav_lengths st)
  ∧ padded_rows zero row_raw batch ids f max_len k (AudioMelMaskCollate.raw_padded st).

(** The state of a padded 2-D tensor after [k] turns: row [i < k] holds
    the 1-D tensor [get] finds in item [ids[i]] and zeros after it. *)
Definition padded_segs {F A} (zero : F) (get : A → Tensor1 F) (batch : list A)
    (ids : list Z) (m k : nat) (t : Tensor2 F) : Prop :=
  size0 t = length batch ∧ size1 t = m
  ∧ ∀ i : nat, (i < length batch)%nat →
      if decide (i < k)%nat then
        ∃ id row, ids !! i = Some id ∧ batch !! Z.to_nat id = Some row
                  ∧ ∀ j, (j < m)%nat →
                      at2 t i j
                      = if decide (j < numel (get row))%nat then at1 (get row) j else zero
      else ∀ j, at2 t i j = zero.

(** The tensors of a row of [InpaintMelAudioCollate]. *)
Definition row_mel {F} (row : Tensor2 F * Tensor2 F * Tensor1 F * string)
    : option (Tensor2 F) := Some row.1.1.1.
Definition row_orig {F} (row : Tensor2 F * Tensor2 F * Tensor1 F * string)
    : option (Tensor2 F) := Some row.1.1.2.
Definition row_gt {F} (row : Tensor2 F * Tensor2 F * Tensor1 F * string)
    : Tensor1 F := row.1.2.
Definition row_gt_length {F} (row : Tensor2 F * Tensor2 F * Tensor1 F * string)
    : option (Tensor2 F) := Some (unsqueeze0 row.1.2).

(** A row [InpaintMelAudioCollate] pads without broadcasting. *)
Definition inpaintable {F} (f max_len hop_len : nat)
    (row : Tensor2 F * Tensor2 F * Tensor1 F * string) : Prop :=
  size0 row.1.1.1 = f ∧ (size1 row.1.1.1 ≤ max_len)%nat
  ∧ size0 row.1.1.2 = f ∧ (size1 row.1.1.2 ≤ max_len)%nat
  ∧ (numel row.1.2 ≤ max_len * hop_len)%nat.

(** The state of the loop of [InpaintMelAudioCollate.__call__] after [k]
    turns. *)
Definition inpaint_collated {F} (zero : F)
    (batch : list (Tensor2 F * Tensor2 F * Tensor1 F * string)) (ids : list Z)
    (f max_len hop_len k : nat) (st : InpaintMelAudioCollate.padded F) : Prop :=
  padded_rows zero row_mel batch ids f max_len k (InpaintMelAudioCollate.mel_padded st)
  ∧ measured row_mel batch ids k (InpaintMelAudioCollate.mel_lengths st)
  ∧ padded_rows zero row_orig batch ids f max_len k
      (InpaintMelAudioCollate.orig_padded st)
  ∧ measured row_orig batch ids k (InpaintMelAudioCollate.orig_lengths st)
  ∧ padded_segs zero row_gt batch ids (max_len * hop_len) k
      (InpaintMelAudioCollate.gt_padded st)
  ∧ measured row_gt_length batch ids k (InpaintMelAudioCollate.gt_lengths st)
  ∧ InpaintMelAudioCollate.names st
    = omap (λ id, snd <$> batch !! Z.to_nat id) (take k ids).

(** Two rows for [InpaintMelAudioCollate]. *)
Definition example_inpaint_row (frames : nat) (name : string)
    : Tensor2 Z * Tensor2 Z * Tensor1 Z * string :=
  (mkTensor2 2 frames (λ c k, 1 + Z.of_nat c * 100 + Z.of_nat k),
   mkTensor2 2 (frames + 1) (λ c k, 2 + Z.of_nat c * 100 + Z.of_nat k),
   mkTensor1 (3 * frames) (λ k, 5 + Z.of_nat k), name).

Definition example_inpaint_rows : list (Tensor2 Z * Tensor2 Z * Tensor1 Z * string) :=
  [example_inpaint_row 3 "x/a.wav"; example_inpaint_row 5 "y/b.wav"].

(** ** Further examples *)

(** The mel the examples load for a path: 2 rows and four frames for each
    character of the path. *)
Definition example_load (path : string) : Tensor2 Z :=
  mkTensor2 2 (4 * String.length path) (λ c k, 1 + Z.of_nat c * 100 + Z.of_nat k).

(** The file the examples load for a path: the mel of [example_load] and
    three samples of audio for each of its frames. *)
Definition example_npz (path : string) : Npz Z :=
  mkNpz (mkTensor1 (12 * String.length path) (λ k, Z.of_nat k)) (example_load path).

Definition example_audio_mel : AudioMelMixedMaskRandomLoader.t :=
  AudioMelMixedMaskRandomLoader.mk false 8 0 3 ["a.npz"; "bb.npz"] [8; 8].

(** Two rows as the default [__getitem__] hands them out: mels of 2 rows
    with 3 and 5 frames, three samples of audio per frame. *)
Definition example_row (frames : nat) : Tensor2 Z * Tensor2 Z * (Tensor2 Z + string) :=
  let mel := mkTensor2 2 frames (λ c k, 1 + Z.of_nat c * 100 + Z.of_nat k) in
  (mask_rows mel 1 (-1), mkTensor2 1 (3 * frames) (λ _ k, Z.of_nat k), inl mel).

Definition example_rows : list (Tensor2 Z * Tensor2 Z * (Tensor2 Z + string)) :=
  [example_row 3; example_row 5].

Definition example_named_audio_mel : AudioMelMixedMaskRandomLoader.t :=
  AudioMelMixedMaskRandomLoader.mk true 8 0 3 ["a.npz"; "bb.npz"] [8; 8].

(** The item a loader of the examples hands out for [index], drawn with the
    generator at [g]. *)
Definition example_item (self : AudioMelMixedMaskRandomLoader.t) (index : Z)
    (g : @Rng cycling_randint) : Tensor2 Z * Tensor2 Z * (Tensor2 Z + string) :=
  match (AudioMelItem.__getitem__ example_npz (-1) self index g).1 with
  | Ok row => row
  | Raise _ => example_row 0
  end.


(** ** Examples *)

Example bisect_ex1 : bisect [0; 10; 20; 30; 40] 15 = Ok 1.
Proof. reflexivity. Qed.

Example bisect_ex2 : bisect [0; 10; 20; 30; 40] 20 = Ok 1.
Proof. reflexivity. Qed.

Example bisect_ex3 : bisect [0; 10; 20; 30; 40] 0 = Ok (-1).
Proof. reflexivity. Qed.

Example bisect_ex4 : bisect [0; 10; 20; 30; 40] 41 = Ok (-1).
Proof. reflexivity. Qed.

Example create_buckets_ex :
  _create_buckets [5; 15; 25; 35] [0; 10; 20; 30; 40] 1 2
  = Ok ([0; 10; 20; 30; 40], [[0]; [1]; [2]; [3]], [2; 2; 2; 2]).
Proof. reflexivity. Qed.

Example create_buckets_ex2 :
  _create_buckets [5; 35; 100; 0] [0; 10; 20; 30; 40] 2 2
  = Ok ([0; 10; 40], [[0]; [1]], [4; 4]).
Proof. reflexivity. Qed.

Example iter_ex :
  (s ← __init__ [5; 15; 25; 35] 2 [0; 10; 20; 30; 40] 1 0 false; (__iter__ s).2)
  = Ok [[0; 0]; [1; 1]; [2; 2]; [3; 3]].
Proof. reflexivity. Qed.

Example iter_ex_shuffled :
  (s ← __init__ [5; 15; 25; 35; 6; 7] 2 [0; 10; 20; 30; 40] 1 0 true;
   (__iter__ (set_epoch s 2)).2)
  = Ok [[4; 5]; [1; 1]; [2; 2]; [3; 3]; [5; 0]].
Proof. vm_compute. reflexivity. Qed.

(** ** Python primitives *)

Lemma getitem_Ok {A} (l : list A) (i : Z) (x : A) :
  0 ≤ i → Py.getitem l i = Ok x ↔ l !! Z.to_nat i = Some x.
Proof.
  intros Hi. unfold Py.getitem.
  rewrite (bool_decide_false (i < 0)) by lia. simpl.
  rewrite (bool_decide_true (0 ≤ i)) by lia.
  destruct (l !! Z.to_nat i); split; congruence.
Qed.

Lemma getitem_in_range {A} (l : list A) (i : Z) :
  0 ≤ i < Py.len l → ∃ x, Py.getitem l i = Ok x ∧ l !! Z.to_nat i = Some x.
Proof.
  intros Hi. unfold Py.len in Hi.
  destruct (lookup_lt_is_Some_2 l (Z.to_nat i)) as [x Hx]; [lia|].
  exists x. split; [by apply getitem_Ok; [lia|]|done].
Qed.

(** ** _bisect *)

(** Whatever the boundaries, a search inside the list answers [-1] or an
    index of the searched range whose interval holds [x]. *)
Lemma _bisect_sound (boundaries : list Z) (x lo hi : Z) :
  0 ≤ lo → hi ≤ Py.len boundaries - 1 →
  ∃ r, _bisect boundaries x lo hi = Ok r ∧
       (r = -1 ∨ (lo ≤ r < hi ∧ ∃ b b',
                   boundaries !! Z.to_nat r = Some b ∧
                   boundaries !! Z.to_nat (r + 1) = Some b' ∧ b < x ≤ b')).
Proof.
  funelim (_bisect boundaries x lo hi); intros Hlo Hhi; [|eauto].
  assert (lo ≤ (hi + lo) `div` 2 < hi) as Hmid.
  { pose proof (Z.div_mod (hi + lo) 2). pose proof (Z.mod_pos_bound (hi + lo) 2). lia. }
  simpl. set (mid := (hi + lo) `div` 2) in *.
  destruct (getitem_in_range boundaries mid) as (b & -> & Hb); [lia|].
  destruct (getitem_in_range boundaries (mid + 1)) as (b' & -> & Hb'); [lia|].
  repeat case_bool_decide; try lia.
  - exists mid. split; [done|]. right. split; [lia|]. exists b, b'. repeat split; try done; lia.
  - destruct (H0 b b') as (r & -> & Hr); [lia..|].
    exists r. split; [done|]. destruct Hr as [|[? ?]]; [by left|right]. split; [lia|done].
  - destruct (H1 b) as (r & -> & Hr); [lia..|].
    exists r. split; [done|]. destruct Hr as [|[? ?]]; [by left|right]. split; [lia|done].
Qed.

Lemma strictly_increasing_lookup (boundaries : list Z) (i j : nat) (x y : Z) :
  strictly_increasing boundaries → (i < j)%nat →
  boundaries !! i = Some x → boundaries !! j = Some y → x < y.
Proof.
  intros Hs. revert i j. induction Hs as [|b bs Hbs IH Hall]; intros i j Hij Hi Hj; [done|].
  destruct j as [|j]; [lia|]. destruct i as [|i]; simpl in *.
  - injection Hi as ->. rewrite Forall_forall in Hall.
    apply Hall. by eapply list_elem_of_lookup_2.
  - apply (IH i j); [lia|done..].
Qed.

Lemma strictly_increasing_lookup_le (boundaries : list Z) (i j : nat) (x y : Z) :
  strictly_increasing boundaries → (i ≤ j)%nat →
  boundaries !! i = Some x → boundaries !! j = Some y → x ≤ y.
Proof.
  intros Hs Hij Hi Hj. destruct (decide (i = j)) as [->|].
  - rewrite Hi in Hj. injection Hj as ->. lia.
  - apply Z.lt_le_incl, (strictly_increasing_lookup boundaries i j x y Hs); [lia|done..].
Qed.

(** On increasing boundaries the search finds the interval that holds [x]
    whenever the searched range has it. *)
Lemma _bisect_complete (boundaries : list Z) (x lo hi : Z) (i : nat) (b b' : Z) :
  strictly_increasing boundaries →
  0 ≤ lo → hi ≤ Py.len boundaries - 1 → lo ≤ Z.of_nat i < hi →
  boundaries !! i = Some b → boundaries !! S i = Some b' → b < x ≤ b' →
  _bisect boundaries x lo hi = Ok (Z.of_nat i).
Proof.
  intros Hs. funelim (_bisect boundaries x lo hi); intros Hlo Hhi Hi Hb Hb' Hx; [|lia].
  assert (lo ≤ (hi + lo) `div` 2 < hi) as Hmid.
  { pose proof (Z.div_mod (hi + lo) 2). pose proof (Z.mod_pos_bound (hi + lo) 2). lia. }
  simpl. set (mid := (hi + lo) `div` 2) in *.
  destruct (getitem_in_range boundaries mid) as (c & -> & Hc); [lia|].
  destruct (getitem_in_range boundaries (mid + 1)) as (c' & -> & Hc'); [lia|].
  replace (Z.to_nat (mid + 1)) with (S (Z.to_nat mid)) in Hc' by lia.
  pose proof (λ H, strictly_increasing_lookup_le boundaries (S i) (Z.to_nat mid) b' c Hs H Hb' Hc) as Hlow.
  pose proof (λ H, strictly_increasing_lookup_le boundaries (S (Z.to_nat mid)) i c' b Hs H Hc' Hb) as Hhigh.
  repeat case_bool_decide; try lia.
  - f_equal. destruct (decide (i < Z.to_nat mid)%nat); [specialize (Hlow ltac:(lia)); lia|].
    destruct (decide (Z.to_nat mid < i)%nat); [specialize (Hhigh ltac:(lia)); lia|]. lia.
  - apply (H0 c c' i b b'); try done; try lia.
    destruct (decide (i ≤ Z.to_nat mid)%nat); [|lia].
    pose proof (strictly_increasing_lookup_le boundaries (S i) (S (Z.to_nat mid)) b' c' Hs
                  ltac:(lia) Hb' Hc').
    lia.
  - apply (H1 c i b b'); try done; try lia.
    destruct (decide (Z.to_nat mid ≤ i)%nat); [|lia].
    pose proof (strictly_increasing_lookup_le boundaries (Z.to_nat mid) i c b Hs
                  ltac:(lia) Hc Hb).
    lia.
Qed.

(** ** Loops *)

Lemma for_each_app {A S} (body : S → A → result S) (xs ys : list A) (s : S) :
  for_each body (xs ++ ys) s = (s' ← for_each body xs s; for_each body ys s').
Proof.
  revert s. induction xs as [|x xs IH]; intros s; [done|].
  simpl. destruct (body s x) as [s'|e]; simpl; [apply IH|done].
Qed.

Lemma range_snoc (m : nat) :
  Py.range (Z.of_nat (S m)) = Py.range (Z.of_nat m) ++ [Z.of_nat m].
Proof.
  unfold Py.range. replace (Z.of_nat (S m)) with (Z.of_nat m + 1) by lia.
  rewrite seqZ_app by lia. done.
Qed.

Lemma lookup_range (n : Z) (i : nat) :
  Py.range n !! i = if bool_decide (Z.of_nat i < n) then Some (Z.of_nat i) else None.
Proof.
  unfold Py.range. case_bool_decide.
  - apply lookup_seqZ. lia.
  - apply lookup_seqZ_ge. lia.
Qed.

Lemma elem_of_range (n i : Z) : i ∈ Py.range n ↔ 0 ≤ i < n.
Proof. unfold Py.range. rewrite elem_of_seqZ. lia. Qed.

Lemma length_range (n : Z) : length (Py.range n) = Z.to_nat n.
Proof. apply length_seqZ. Qed.

(** ** The first loop of _create_buckets *)

Lemma bisect_sound (boundaries : list Z) (x : Z) :
  ∃ r, bisect boundaries x = Ok r ∧
       (r = -1 ∨ (0 ≤ r < Py.len boundaries - 1 ∧ ∃ b b',
                   boundaries !! Z.to_nat r = Some b ∧
                   boundaries !! Z.to_nat (r + 1) = Some b' ∧ b < x ≤ b')).
Proof. apply _bisect_sound; lia. Qed.

Lemma bucket_members_snoc (boundaries lengths : list Z) (m : nat) (k : Z) :
  bucket_members boundaries lengths (Z.of_nat (S m)) k
  = bucket_members boundaries lengths (Z.of_nat m) k
    ++ (if decide (item_bucket boundaries lengths (Z.of_nat m) = Ok k)
        then [Z.of_nat m] else []).
Proof.
  unfold bucket_members. by rewrite range_snoc, filter_app.
Qed.

(** After [m] turns, bucket [k] holds exactly the items among the first
    [m] that [_bisect] sends to [k], in increasing order. *)
Lemma assign_items_prefix (boundaries lengths : list Z) (m : nat) :
  (m ≤ length lengths)%nat →
  for_each (assign_item boundaries lengths) (Py.range (Z.of_nat m))
    (empty_buckets boundaries)
  = Ok (bucket_members boundaries lengths (Z.of_nat m)
          <$> Py.range (Py.len boundaries - 1)).
Proof.
  induction m as [|m IH]; intros Hm.
  - simpl. unfold empty_buckets. by f_equal.
  - rewrite range_snoc, for_each_app, IH by lia. simpl.
    unfold assign_item at 1.
    destruct (getitem_in_range lengths (Z.of_nat m)) as (x & Hx & _);
      [unfold Py.len; lia|].
    assert (item_bucket boundaries lengths (Z.of_nat m) = bisect boundaries x) as Hib.
    { unfold item_bucket. by rewrite Hx. }
    rewrite Hx. simpl.
    destruct (bisect_sound boundaries x) as (r & Hr & Hrange).
    rewrite Hr in Hib |- *. simpl. case_bool_decide as Hne.
    + destruct Hrange as [?|[Hrange _]]; [done|].
      unfold Py.alter_at. rewrite (bool_decide_false (r < 0)) by lia.
      rewrite bool_decide_true
        by (unfold Py.len in *; rewrite length_fmap, length_range; lia).
      simpl. f_equal. apply list_eq. intros j.
      destruct (decide (Z.to_nat r = j)) as [<-|Hj].
      * rewrite list_lookup_alter_eq, !list_lookup_fmap, lookup_range.
        rewrite bool_decide_true by lia. simpl.
        rewrite bucket_members_snoc, Hib.
        replace (Z.of_nat (Z.to_nat r)) with r by lia. by rewrite decide_True.
      * rewrite list_lookup_alter_ne, !list_lookup_fmap, lookup_range by done.
        case_bool_decide; simpl; [|done].
        rewrite bucket_members_snoc, Hib.
        rewrite decide_False; [by rewrite app_nil_r|].
        intros [= ->]. apply Hj. lia.
    + simpl. f_equal. apply list_fmap_ext. intros j k Hk.
      rewrite bucket_members_snoc, Hib.
      rewrite decide_False; [by rewrite app_nil_r|].
      apply list_elem_of_lookup_2, elem_of_range in Hk.
      intros [= <-]. lia.
Qed.

Lemma assign_items_spec (boundaries lengths : list Z) :
  assign_items boundaries lengths
  = Ok (bucket_members boundaries lengths (Py.len lengths)
          <$> Py.range (Py.len boundaries - 1)).
Proof. unfold assign_items, Py.len at 1 3. by apply assign_items_prefix. Qed.

(** ** The second loop of _create_buckets *)

Lemma range_down_S (n : nat) :
  Py.range_down (Z.of_nat (S n)) 0 = Z.of_nat (S n) :: Py.range_down (Z.of_nat n) 0.
Proof.
  unfold Py.range_down. rewrite !Z.sub_0_r, seqZ_cons by lia.
  rewrite fmap_cons, Z.sub_0_r. f_equal.
  replace (Z.pred (Z.of_nat (S n))) with (Z.of_nat n) by lia.
  change (Z.succ 0) with (1 + 0). rewrite <- fmap_add_seqZ, <- list_fmap_compose.
  apply list_fmap_ext. intros _ k _. simpl. lia.
Qed.

Lemma getitem_middle {A} (l1 l2 : list A) (x : A) :
  Py.getitem (l1 ++ x :: l2) (Py.len l1) = Ok x.
Proof.
  apply getitem_Ok; [unfold Py.len; lia|]. unfold Py.len.
  rewrite Nat2Z.id. by apply list_lookup_middle.
Qed.

Lemma pop_middle {A} (l1 l2 : list A) (x : A) :
  Py.pop (l1 ++ x :: l2) (Py.len l1) = Ok (l1 ++ l2).
Proof.
  unfold Py.pop, Py.len. rewrite (bool_decide_false (_ < 0)) by lia.
  rewrite bool_decide_true by (rewrite length_app; simpl; lia).
  rewrite Nat2Z.id. by rewrite delete_middle.
Qed.

Lemma kept_closers_snoc rest closers x c :
  length closers = length rest →
  kept_closers (rest ++ [x]) (closers ++ [c])
  = kept_closers rest closers ++ (if decide (x ≠ []) then [c] else []).
Proof.
  intros Hlen. unfold kept_closers.
  rewrite zip_with_app by done. rewrite filter_app, fmap_app. f_equal.
  simpl. rewrite filter_cons, filter_nil. simpl. by case_decide.
Qed.

Lemma pop_if_empty_middle (pre suf : list (list Z)) (x : list Z)
    (cpre csuf : list Z) (c : Z) :
  length cpre = S (length pre) →
  pop_if_empty (pre ++ x :: suf, cpre ++ c :: csuf) (Py.len pre)
  = Ok (if decide (x ≠ []) then (pre ++ x :: suf, cpre ++ c :: csuf)
        else (pre ++ suf, cpre ++ csuf)).
Proof.
  intros Hlen. unfold pop_if_empty. rewrite getitem_middle. simpl.
  case_bool_decide as Hx.
  - assert (x = []) as -> by (by destruct x).
    rewrite pop_middle. simpl.
    replace (Py.len pre + 1) with (Py.len cpre) by (unfold Py.len; lia).
    rewrite pop_middle. done.
  - rewrite decide_True; [done|]. intros ->. by apply Hx.
Qed.

Lemma drop_empty_loop (rest : list (list Z)) :
  ∀ (suf : list (list Z)) (closers csuf : list Z) (b0 : list Z) (c0 c1 : Z),
    length closers = length rest →
    for_each pop_if_empty (Py.range_down (Py.len rest) 0)
      (b0 :: rest ++ suf, c0 :: c1 :: closers ++ csuf)
    = Ok (b0 :: filter (λ b, b ≠ []) rest ++ suf,
          c0 :: c1 :: kept_closers rest closers ++ csuf).
Proof.
  induction rest as [|x rest IH] using rev_ind; intros suf closers csuf b0 c0 c1 Hlen.
  - destruct closers; [done|discriminate].
  - destruct closers as [|c closers _] using rev_ind;
      [rewrite length_app in Hlen; simpl in Hlen; lia|].
    rewrite !length_app in Hlen. simpl in Hlen.
    assert (length closers = length rest) as Hlen' by lia.
    unfold Py.len. rewrite length_app. simpl length.
    replace (length rest + 1)%nat with (S (length rest)) by lia.
    rewrite range_down_S. cbn [for_each].
    assert (Z.of_nat (S (length rest)) = Py.len (b0 :: rest)) as -> by done.
    rewrite <- !app_assoc. simpl app.
    rewrite (app_comm_cons rest _ b0), (app_comm_cons closers _ c1),
      (app_comm_cons (c1 :: closers) _ c0).
    rewrite pop_if_empty_middle by (simpl; lia).
    rewrite kept_closers_snoc, filter_app, filter_cons, filter_nil by done.
    case_decide as Hx; simpl.
    + rewrite (IH (x :: suf) closers (c :: csuf)) by done.
      by rewrite <- !app_assoc.
    + rewrite (IH suf closers csuf) by done. by rewrite !app_nil_r.
Qed.

Lemma drop_empty_spec (buckets : list (list Z)) (boundaries : list Z) :
  buckets = [] ∨ length boundaries = S (length buckets) →
  drop_empty buckets boundaries
  = Ok (kept_buckets buckets, kept_boundaries buckets boundaries).
Proof.
  intros Hlen. unfold drop_empty. destruct buckets as [|b0 rest].
  - done.
  - destruct Hlen as [|Hlen]; [done|].
    destruct boundaries as [|c0 [|c1 closers]]; simpl in Hlen; try lia.
    replace (Py.len (b0 :: rest) - 1) with (Py.len rest)
      by (unfold Py.len; simpl; lia).
    pose proof (drop_empty_loop rest [] closers [] b0 c0 c1 ltac:(lia)) as Hloop.
    rewrite !app_nil_r in Hloop. done.
Qed.

(** The two loops together, for any lengths and any boundaries: they
    never raise. *)
Lemma create_buckets_loops (lengths boundaries : list Z) :
  let found := bucket_members boundaries lengths (Py.len lengths)
                 <$> Py.range (Py.len boundaries - 1) in
  (buckets ← assign_items boundaries lengths; drop_empty buckets boundaries)
  = Ok (kept_buckets found, kept_boundaries found boundaries).
Proof.
  intros found. rewrite assign_items_spec. simpl. fold found.
  apply drop_empty_spec. unfold found.
  rewrite length_fmap, length_range. unfold Py.len.
  destruct boundaries; [by left|right; simpl; lia].
Qed.

Lemma kept_buckets_subseteq (buckets : list (list Z)) (bucket : list Z) :
  bucket ∈ kept_buckets buckets → bucket ∈ buckets.
Proof.
  destruct buckets as [|b0 rest]; [done|]. simpl.
  rewrite !elem_of_cons, list_elem_of_filter. tauto.
Qed.

Lemma elem_of_bucket_members (boundaries lengths : list Z) (m k i : Z) :
  i ∈ bucket_members boundaries lengths m k
  ↔ item_bucket boundaries lengths i = Ok k ∧ 0 ≤ i < m.
Proof. unfold bucket_members. by rewrite list_elem_of_filter, elem_of_range. Qed.

Lemma item_bucket_lookup (boundaries lengths : list Z) (i : nat) (x : Z) :
  lengths !! i = Some x →
  item_bucket boundaries lengths (Z.of_nat i) = bisect boundaries x.
Proof.
  intros Hx. unfold item_bucket.
  assert (Py.getitem lengths (Z.of_nat i) = Ok x) as ->; [|done].
  apply getitem_Ok; [lia|]. by rewrite Nat2Z.id.
Qed.

(** Every bucket [_create_buckets] returns is one of the buckets the first
    loop filled. *)
Lemma create_buckets_buckets lengths boundaries R B bnds buckets targets bucket :
  _create_buckets lengths boundaries R B = Ok (bnds, buckets, targets) →
  bucket ∈ buckets →
  ∃ k, 0 ≤ k < Py.len boundaries - 1 ∧
       bucket = bucket_members boundaries lengths (Py.len lengths) k.
Proof.
  unfold _create_buckets. intros Hc Hin.
  pose proof (create_buckets_loops lengths boundaries) as Hloops. simpl in Hloops.
  destruct (assign_items boundaries lengths) as [found|]; [|done]. simpl in *.
  rewrite Hloops in Hc. simpl in Hc.
  destruct (sample_targets R B _); [|done]. simpl in Hc. injection Hc as <- <- <-.
  apply kept_buckets_subseteq, list_elem_of_fmap in Hin as (k & -> & Hk).
  apply elem_of_range in Hk. eauto.
Qed.

Lemma interval_exists (x : Z) (l : list Z) :
  ∀ b0 bK, head l = Some b0 → last l = Some bK → b0 < x ≤ bK →
    ∃ (i : nat) c c', l !! i = Some c ∧ l !! S i = Some c' ∧ c < x ≤ c'.
Proof.
  induction l as [|a [|a' rest] IH]; intros b0 bK Hh Hl Hx; [done| |].
  - simpl in *. simplify_eq. lia.
  - simpl in Hh. injection Hh as ->.
    destruct (decide (x ≤ a')).
    + exists 0%nat, b0, a'. repeat split; try done; lia.
    + destruct (IH a' bK) as (i & c & c' & Hc & Hc' & Hcx); [done|done|lia|].
      exists (S i), c, c'. done.
Qed.

(** C5: on a strictly increasing boundary list [b0 .. bK], [_bisect]
    returns, and it returns [i] exactly when
    [boundaries[i] < x <= boundaries[i+1]] (a length equal to a boundary goes
    to the bucket below it) and [-1] exactly when [x <= b0] or [x > bK]; an
    item whose result is [-1] is in none of the buckets, neither after the
    first loop of [_create_buckets] nor in what the method returns. *)
Theorem bisect_interval (boundaries : list Z) (x b0 bK : Z) :
  strictly_increasing boundaries →
  head boundaries = Some b0 → last boundaries = Some bK →
  is_Ok (bisect boundaries x)
  ∧ (∀ i : nat, bisect boundaries x = Ok (Z.of_nat i) ↔
       ∃ b b', boundaries !! i = Some b ∧ boundaries !! S i = Some b' ∧ b < x ≤ b')
  ∧ (bisect boundaries x = Ok (-1) ↔ x ≤ b0 ∨ bK < x)
  ∧ (∀ (lengths : list Z) (i : nat),
       lengths !! i = Some x → bisect boundaries x = Ok (-1) →
       (∃ buckets, assign_items boundaries lengths = Ok buckets ∧
                   ∀ bucket, bucket ∈ buckets → Z.of_nat i ∉ bucket)
       ∧ ∀ R B bnds buckets targets,
           _create_buckets lengths boundaries R B = Ok (bnds, buckets, targets) →
           ∀ bucket, bucket ∈ buckets → Z.of_nat i ∉ bucket).
Proof.
  intros Hs Hhead Hlast.
  assert (∀ (i : nat) b b', boundaries !! i = Some b → boundaries !! S i = Some b' →
            b < x ≤ b' → bisect boundaries x = Ok (Z.of_nat i)) as Hcomplete.
  { intros i b b' Hb Hb' Hx. apply (_bisect_complete _ _ _ _ i b b'); try done; try lia.
    apply lookup_lt_Some in Hb'. unfold Py.len. lia. }
  destruct (bisect_sound boundaries x) as (r & Hr & Hrange).
  split; [by exists r|]. split; [|split].
  - intros i. split; [|intros (b & b' & ? & ? & ?); by eapply Hcomplete].
    rewrite Hr. intros [= ->].
    destruct Hrange as [?|[_ (b & b' & Hb & Hb' & Hx)]]; [lia|].
    rewrite Nat2Z.id in Hb. replace (Z.to_nat (Z.of_nat i + 1)) with (S i) in Hb' by lia.
    eauto.
  - rewrite head_lookup in Hhead. rewrite last_lookup in Hlast. split.
    + intros Hm1. destruct (decide (x ≤ b0)); [by left|right].
      destruct (decide (bK < x)); [done|exfalso].
      destruct (interval_exists x boundaries b0 bK) as (i & c & c' & Hc & Hc' & Hx);
        [by rewrite head_lookup|by rewrite last_lookup|lia|].
      rewrite (Hcomplete i c c') in Hm1 by done. injection Hm1. lia.
    + intros Hout. rewrite Hr. f_equal.
      destruct Hrange as [?|[Hrange (b & b' & Hb & Hb' & Hx)]]; [done|exfalso].
      pose proof (strictly_increasing_lookup_le boundaries 0 (Z.to_nat r) b0 b Hs
                    ltac:(lia) Hhead Hb).
      pose proof (lookup_lt_Some _ _ _ Hb').
      pose proof (strictly_increasing_lookup_le boundaries (Z.to_nat (r + 1))
                    (pred (length boundaries)) b' bK Hs ltac:(lia) Hb' Hlast).
      lia.
  - intros lengths i Hi Hm1.
    assert (∀ k, 0 ≤ k →
              Z.of_nat i ∉ bucket_members boundaries lengths (Py.len lengths) k) as Hnot.
    { intros k Hk [Hib _]%elem_of_bucket_members.
      rewrite (item_bucket_lookup _ _ _ x), Hm1 in Hib by done. injection Hib. lia. }
    split.
    + eexists. split; [apply assign_items_spec|].
      intros bucket (k & -> & Hk)%list_elem_of_fmap. apply elem_of_range in Hk.
      apply Hnot. lia.
    + intros R B bnds buckets targets Hc bucket Hin.
      destruct (create_buckets_buckets _ _ _ _ _ _ _ _ Hc Hin) as (k & Hk & ->).
      apply Hnot. lia.
Qed.

Lemma bisect_interval_witness :
  is_Ok (bisect [0; 10; 20; 30; 40] 20)
  ∧ (∀ i : nat, bisect [0; 10; 20; 30; 40] 20 = Ok (Z.of_nat i) ↔
       ∃ b b', [0; 10; 20; 30; 40] !! i = Some b
               ∧ [0; 10; 20; 30; 40] !! S i = Some b' ∧ b < 20 ≤ b')
  ∧ (bisect [0; 10; 20; 30; 40] 20 = Ok (-1) ↔ 20 ≤ 0 ∨ 40 < 20)
  ∧ (∀ (lengths : list Z) (i : nat),
       lengths !! i = Some 20 → bisect [0; 10; 20; 30; 40] 20 = Ok (-1) →
       (∃ buckets, assign_items [0; 10; 20; 30; 40] lengths = Ok buckets ∧
                   ∀ bucket, bucket ∈ buckets → Z.of_nat i ∉ bucket)
       ∧ ∀ R B bnds buckets targets,
           _create_buckets lengths [0; 10; 20; 30; 40] R B = Ok (bnds, buckets, targets) →
           ∀ bucket, bucket ∈ buckets → Z.of_nat i ∉ bucket).
Proof.
  apply (bisect_interval [0; 10; 20; 30; 40] 20 0 40).
  - unfold strictly_increasing. repeat constructor; lia.
  - reflexivity.
  - reflexivity.
Defined.

(** ** The third loop of _create_buckets *)

Lemma sample_target_Ok (n d : Z) :
  d ≠ 0 → sample_target n d = Ok (round_up d n).
Proof.
  intros Hd. unfold sample_target, Py.mod_. by rewrite !bool_decide_false by done.
Qed.

Lemma round_up_bounds (n d : Z) :
  0 < d → n ≤ round_up d n < n + d ∧ round_up d n `mod` d = 0.
Proof.
  intros Hd. unfold round_up.
  pose proof (Z.mod_pos_bound n d Hd) as Hm.
  destruct (decide (n `mod` d = 0)) as [H0|Hne].
  - rewrite H0, Z.sub_0_r, Z_mod_same_full, Z.add_0_r. split; [lia|done].
  - rewrite (Z.mod_small (d - n `mod` d)) by lia. split; [lia|].
    rewrite (Z.div_mod n d) at 1 by lia.
    replace (d * n `div` d + n `mod` d + (d - n `mod` d))
      with ((n `div` d + 1) * d) by lia.
    apply Z_mod_mult.
Qed.

Lemma sample_targets_Ok (R B : Z) (buckets : list (list Z)) :
  R * B ≠ 0 →
  sample_targets R B buckets = Ok ((λ bucket, round_up (R * B) (Py.len bucket)) <$> buckets).
Proof.
  intros Hd. unfold sample_targets.
  induction buckets as [|b bs IH]; [done|].
  cbn [mapM]. rewrite sample_target_Ok by done. simpl in *. by rewrite IH.
Qed.

Lemma sample_targets_zero (R B : Z) (buckets : list (list Z)) :
  R * B = 0 → buckets ≠ [] → sample_targets R B buckets = Raise ZeroDivisionError.
Proof.
  intros Hd Hne. destruct buckets as [|b bs]; [done|].
  unfold sample_targets. cbn [mapM]. unfold sample_target, Py.mod_.
  by rewrite bool_decide_true by done.
Qed.

(** What [_create_buckets] returns when the batch size times the replica
    count is not zero. *)
Lemma create_buckets_spec (lengths boundaries : list Z) (R B : Z) :
  R * B ≠ 0 →
  _create_buckets lengths boundaries R B
  = Ok (kept_boundaries (found_buckets lengths boundaries) boundaries,
        kept_buckets (found_buckets lengths boundaries),
        (λ bucket, round_up (R * B) (Py.len bucket))
          <$> kept_buckets (found_buckets lengths boundaries)).
Proof.
  intros Hd. unfold _create_buckets.
  pose proof (create_buckets_loops lengths boundaries) as Hloops. simpl in Hloops.
  destruct (assign_items boundaries lengths) as [found|]; [|done]. simpl in *.
  rewrite Hloops. simpl. rewrite sample_targets_Ok by done. done.
Qed.

Lemma create_buckets_zero (lengths boundaries : list Z) (R B : Z) :
  R * B = 0 →
  _create_buckets lengths boundaries R B
  = if decide (2 ≤ length boundaries)%nat then Raise ZeroDivisionError
    else Ok (boundaries, [], []).
Proof.
  intros Hd. unfold _create_buckets.
  pose proof (create_buckets_loops lengths boundaries) as Hloops. simpl in Hloops.
  destruct (assign_items boundaries lengths) as [found|]; [|done]. simpl in *.
  rewrite Hloops. simpl. clear Hloops.
  destruct boundaries as [|c0 [|c1 closers]]; [done..|].
  rewrite decide_True by (simpl; lia).
  rewrite sample_targets_zero; [done..|].
  unfold Py.len. simpl length.
  replace (Z.of_nat (S (S (length closers))) - 1) with (Z.of_nat (S (length closers))) by lia.
  rewrite range_snoc, fmap_app. simpl. unfold kept_buckets.
  by destruct (_ <$> Py.range _).
Qed.

(** C4: for a bucket of [n >= 0] items and a divisor [d > 0], the target
    [_create_buckets] computes is [n + ((d - n % d) % d)]; it is at least
    [n], a multiple of [d], and less than [n + d].  Every entry of the
    [num_samples_per_bucket] the method returns is that value for its
    bucket, with [d = num_replicas * batch_size]. *)
Theorem sample_target_rounds_up (n d : Z) :
  0 ≤ n → 0 < d →
  (∃ target, sample_target n d = Ok target
     ∧ target = n + ((d - (n `mod` d)) `mod` d)
     ∧ n ≤ target ∧ target `mod` d = 0 ∧ target < n + d)
  ∧ (∀ (lengths boundaries : list Z) (R B : Z), R * B = d →
       ∃ bnds buckets targets,
         _create_buckets lengths boundaries R B = Ok (bnds, buckets, targets)
         ∧ Forall2 (λ bucket target,
                      sample_target (Py.len bucket) d = Ok target
                      ∧ target = Py.len bucket + ((d - (Py.len bucket `mod` d)) `mod` d)
                      ∧ Py.len bucket ≤ target ∧ target `mod` d = 0
                      ∧ target < Py.len bucket + d)
             buckets targets).
Proof.
  intros Hn Hd. split.
  - exists (round_up d n). pose proof (round_up_bounds n d Hd).
    rewrite sample_target_Ok by lia. unfold round_up in *. repeat split; lia.
  - intros lengths boundaries R B <-. do 3 eexists.
    split; [apply create_buckets_spec; lia|].
    apply Forall2_fmap_r, Forall_Forall2_diag, Forall_forall. intros bucket _.
    pose proof (round_up_bounds (Py.len bucket) (R * B) Hd).
    rewrite sample_target_Ok by lia. unfold round_up in *. repeat split; lia.
Qed.

Lemma sample_target_rounds_up_witness :
  (∃ target, sample_target 5 4 = Ok target
     ∧ target = 5 + ((4 - (5 `mod` 4)) `mod` 4)
     ∧ 5 ≤ target ∧ target `mod` 4 = 0 ∧ target < 5 + 4)
  ∧ (∀ (lengths boundaries : list Z) (R B : Z), R * B = 4 →
       ∃ bnds buckets targets,
         _create_buckets lengths boundaries R B = Ok (bnds, buckets, targets)
         ∧ Forall2 (λ bucket target,
                      sample_target (Py.len bucket) 4 = Ok target
                      ∧ target = Py.len bucket + ((4 - (Py.len bucket `mod` 4)) `mod` 4)
                      ∧ Py.len bucket ≤ target ∧ target `mod` 4 = 0
                      ∧ target < Py.len bucket + 4)
             buckets targets).
Proof. apply (sample_target_rounds_up 5 4); lia. Defined.

(** ** What _create_buckets guarantees, and what it does not *)

Lemma create_buckets_inv lengths boundaries R B bnds buckets targets :
  _create_buckets lengths boundaries R B = Ok (bnds, buckets, targets) →
  bnds = kept_boundaries (found_buckets lengths boundaries) boundaries
  ∧ buckets = kept_buckets (found_buckets lengths boundaries)
  ∧ sample_targets R B buckets = Ok targets.
Proof.
  unfold _create_buckets. intros Hc.
  pose proof (create_buckets_loops lengths boundaries) as Hloops. simpl in Hloops.
  destruct (assign_items boundaries lengths) as [found|]; [|done]. simpl in *.
  rewrite Hloops in Hc. simpl in Hc.
  destruct (sample_targets R B _) eqn:Ht; [|done]. simpl in Hc.
  by injection Hc as <- <- <-.
Qed.

Lemma length_found_buckets (lengths boundaries : list Z) :
  length (found_buckets lengths boundaries) = pred (length boundaries).
Proof.
  unfold found_buckets. rewrite length_fmap, length_range. unfold Py.len. lia.
Qed.

Lemma length_kept_closers (rest : list (list Z)) :
  ∀ closers, length closers = length rest →
    length (kept_closers rest closers) = length (filter (λ b, b ≠ []) rest).
Proof.
  unfold kept_closers.
  induction rest as [|b rest IH]; intros [|c closers] Hlen; try done.
  simpl. rewrite !filter_cons. simpl. injection Hlen as Hlen.
  case_decide; simpl; rewrite IH; done.
Qed.

Lemma join_filter_nonempty {A} (l : list (list A)) :
  mjoin (filter (λ b, b ≠ []) l) = mjoin l.
Proof.
  induction l as [|b l IH]; [done|]. rewrite filter_cons.
  case_decide as Hb; simpl; rewrite IH; [done|]. by destruct b.
Qed.

Lemma join_kept_buckets (buckets : list (list Z)) :
  mjoin (kept_buckets buckets) = mjoin buckets.
Proof. destruct buckets; [done|]. simpl. by rewrite join_filter_nonempty. Qed.

Lemma NoDup_join_fmap {A B} (f : A → list B) (l : list A) :
  NoDup l → (∀ k, k ∈ l → NoDup (f k)) →
  (∀ k k' x, k ∈ l → k' ∈ l → x ∈ f k → x ∈ f k' → k = k') →
  NoDup (mjoin (f <$> l)).
Proof.
  induction 1 as [|k l Hk Hl IH]; intros Hf Hdisj; [constructor|].
  simpl. apply NoDup_app. split; [apply Hf; left|]. split.
  - intros x Hx (ys & Hys & (k' & -> & Hk')%list_elem_of_fmap)%list_elem_of_join.
    assert (k = k') as -> by (eapply Hdisj; [left|by right|done..]). done.
  - apply IH; [intros; apply Hf; by right|].
    intros k1 k2 x ? ?. apply Hdisj; by right.
Qed.

Lemma NoDup_found_buckets (lengths boundaries : list Z) :
  NoDup (mjoin (found_buckets lengths boundaries)).
Proof.
  unfold found_buckets. apply NoDup_join_fmap.
  - apply NoDup_seqZ.
  - intros k _. apply NoDup_filter, NoDup_seqZ.
  - intros k k' x _ _ [Hk _]%elem_of_bucket_members [Hk' _]%elem_of_bucket_members.
    congruence.
Qed.

(** The parts of the partition invariant that hold for every input: the
    boundary list stays one longer than the bucket list, no item index is in
    two buckets or twice in one, and every bucket after the first is
    non-empty.  Bucket 0 is not covered: the loop stops at index 1. *)
Lemma create_buckets_invariants lengths boundaries R B bnds buckets targets :
  _create_buckets lengths boundaries R B = Ok (bnds, buckets, targets) →
  boundaries ≠ [] →
  length bnds = S (length buckets)
  ∧ NoDup (mjoin buckets)
  ∧ (∀ i, i ∈ mjoin buckets → 0 ≤ i < Py.len lengths)
  ∧ (∀ (k : nat) bucket, buckets !! S k = Some bucket → bucket ≠ []).
Proof.
  intros (-> & -> & _)%create_buckets_inv Hne.
  pose proof (length_found_buckets lengths boundaries) as Hlen.
  split; [|split; [|split]].
  - destruct (found_buckets lengths boundaries) as [|b0 rest].
    + destruct boundaries as [|c0 [|? ?]]; simpl in *; done.
    + destruct boundaries as [|c0 [|c1 closers]]; simpl in *; try done.
      rewrite length_kept_closers by lia. done.
  - rewrite join_kept_buckets. apply NoDup_found_buckets.
  - intros i. rewrite join_kept_buckets.
    intros (ys & Hys & (k & -> & Hk)%list_elem_of_fmap)%list_elem_of_join.
    by apply elem_of_bucket_members in Hys as [_ ?].
  - intros k bucket Hk. destruct (found_buckets lengths boundaries) as [|b0 rest]; [done|].
    simpl in Hk. apply list_elem_of_lookup_2, list_elem_of_filter in Hk. tauto.
Qed.

(** C1 (failing input): lengths [15, 17] with boundaries [0, 10, 20] put
    both items in the second bucket.  The boundaries are strictly increasing
    and a bucket is non-empty, yet the empty first bucket is among the
    buckets [_create_buckets] returns. *)
Theorem create_buckets_keeps_empty_first_bucket :
  strictly_increasing [0; 10; 20]
  ∧ _create_buckets [15; 17] [0; 10; 20] 1 2 = Ok ([0; 10; 20], [[]; [0; 1]], [0; 2])
  ∧ ¬ Forall (λ bucket : list Z, bucket ≠ []) [[]; [0; 1]].
Proof.
  split; [unfold strictly_increasing; repeat constructor; lia|].
  split; [reflexivity|].
  intros Hall. by apply Forall_cons in Hall as [? _].
Qed.

(** ** Construction *)

Lemma super_init_Ok (R rank : Z) :
  0 ≤ rank < R → DistributedSampler_init R rank = Ok ().
Proof. intros Hrank. unfold DistributedSampler_init. by rewrite bool_decide_false by lia. Qed.

Lemma super_init_raises (R rank : Z) :
  ¬ (0 ≤ rank < R) → DistributedSampler_init R rank = Raise ValueError.
Proof. intros Hrank. unfold DistributedSampler_init. by rewrite bool_decide_true by lia. Qed.

Lemma init_spec (lengths boundaries : list Z) (B R rank : Z) (shuffle : bool) :
  0 ≤ rank < R → B ≠ 0 →
  let buckets := kept_buckets (found_buckets lengths boundaries) in
  let targets := (λ bucket, round_up (R * B) (Py.len bucket)) <$> buckets in
  __init__ lengths B boundaries R rank shuffle
  = Ok (Sampler.mk R rank 0 0 shuffle lengths B
          (kept_boundaries (found_buckets lengths boundaries) boundaries)
          buckets targets (Py.sum targets) (Py.sum targets `div` R) None).
Proof.
  intros Hrank HB. simpl. unfold __init__. rewrite super_init_Ok by done.
  cbn [mbind result_bind].
  rewrite create_buckets_spec by nia. simpl.
  unfold Py.floordiv. by rewrite bool_decide_false by lia.
Qed.

Lemma init_inv (lengths boundaries : list Z) (B R rank : Z) (shuffle : bool) s :
  __init__ lengths B boundaries R rank shuffle = Ok s →
  R ≠ 0
  ∧ Sampler.num_replicas s = R ∧ Sampler.rank s = rank ∧ Sampler.batch_size s = B
  ∧ Sampler.shuffle s = shuffle
  ∧ sample_targets R B (Sampler.buckets s) = Ok (Sampler.num_samples_per_bucket s)
  ∧ Sampler.num_samples s = Py.sum (Sampler.num_samples_per_bucket s) `div` R
  ∧ Sampler.buckets s = kept_buckets (found_buckets lengths boundaries).
Proof.
  unfold __init__. intros Hs.
  destruct (DistributedSampler_init R rank) as [[]|]; [|done].
  cbn [mbind result_bind] in Hs.
  destruct (_create_buckets lengths boundaries R B) as [[[bnds buckets] targets]|] eqn:Hc;
    [|done].
  apply create_buckets_inv in Hc as (-> & -> & Ht). simpl in Hs.
  unfold Py.floordiv in Hs. case_bool_decide; [done|]. simpl in Hs.
  injection Hs as <-. simpl. done.
Qed.

(** The base class has accepted the rank of every sampler that exists. *)
Lemma init_rank (lengths boundaries : list Z) (B R rank : Z) (shuffle : bool) s :
  __init__ lengths B boundaries R rank shuffle = Ok s → 0 ≤ rank < R.
Proof.
  unfold __init__, DistributedSampler_init. case_bool_decide; [done|]. lia.
Qed.

(** C8 (as amended): of a configuration, construction checks the rank and
    nothing else.  [__init__] raises exactly when the rank lies outside
    [[0, num_replicas)], which is the ValueError of the base class, or when
    [batch_size] is 0 and there are at least two boundaries, which for a
    valid rank is the ZeroDivisionError of the padding arithmetic.
    Boundaries out of order, buckets that are all empty and a negative
    [batch_size] pass construction. *)
Theorem init_raises_iff (lengths boundaries : list Z) (B R rank : Z) (shuffle : bool) :
  (raises (__init__ lengths B boundaries R rank shuffle)
     ↔ ¬ (0 ≤ rank < R) ∨ (B = 0 ∧ (2 ≤ length boundaries)%nat))
  ∧ (¬ (0 ≤ rank < R) →
     __init__ lengths B boundaries R rank shuffle = Raise ValueError)
  ∧ (0 ≤ rank < R → raises (__init__ lengths B boundaries R rank shuffle) →
     __init__ lengths B boundaries R rank shuffle = Raise ZeroDivisionError).
Proof.
  destruct (decide (0 ≤ rank < R)) as [Hrank|Hrank].
  - split_and!; [|done|].
    + destruct (decide (B = 0)) as [->|HB].
      * unfold __init__. rewrite super_init_Ok by done. cbn [mbind result_bind].
        rewrite create_buckets_zero by lia.
        case_decide as Hlen; simpl.
        -- split; [by right|]. intros _. by eexists.
        -- unfold Py.floordiv. rewrite bool_decide_false by lia. simpl.
           split; [by intros [e ?]|]. intros [?|[_ ?]]; [done|lia].
      * rewrite init_spec by done.
        split; [by intros [e ?]|]. by intros [?|[? _]].
    + intros _. destruct (decide (B = 0)) as [->|HB].
      * unfold __init__. rewrite super_init_Ok by done. cbn [mbind result_bind].
        rewrite create_buckets_zero by lia.
        case_decide as Hlen; simpl; [done|].
        unfold Py.floordiv. rewrite bool_decide_false by lia. simpl. by intros [e ?].
      * rewrite init_spec by done. by intros [e ?].
  - assert (__init__ lengths B boundaries R rank shuffle = Raise ValueError) as Hraise.
    { unfold __init__. by rewrite super_init_raises by done. }
    rewrite Hraise. split_and!; [|done|done].
    split; [by left|]. intros _. by eexists.
Qed.

Lemma init_raises_iff_witness :
  (raises (__init__ [5; 15] 0 [0; 10; 20] 2 0 true)
     ↔ ¬ (0 ≤ 0 < 2) ∨ (0 = 0 ∧ (2 ≤ length [0; 10; 20])%nat))
  ∧ (¬ (0 ≤ 0 < 2) → __init__ [5; 15] 0 [0; 10; 20] 2 0 true = Raise ValueError)
  ∧ (0 ≤ 0 < 2 → raises (__init__ [5; 15] 0 [0; 10; 20] 2 0 true) →
     __init__ [5; 15] 0 [0; 10; 20] 2 0 true = Raise ZeroDivisionError).
Proof. apply (init_raises_iff [5; 15] [0; 10; 20] 0 2 0 true). Defined.

(** C8 (counterexample): configurations the claim calls errors, each
    accepted by [__init__] at rank 0 of 1: boundaries [10, 5, 20] that are
    not increasing; boundaries [0, 10] with no item, so that every bucket is
    empty; and [batch_size = -2].  What a later [__iter__] does with them
    differs: on the empty bucket it raises ZeroDivisionError, on three items
    with [batch_size = -2] its assertion fails, and on one item with
    [batch_size = -2] it returns an empty batch list. *)
Lemma init_accepts_misconfiguration :
  (¬ strictly_increasing [10; 5; 20]
   ∧ ¬ raises (__init__ [7] 2 [10; 5; 20] 1 0 false))
  ∧ (∃ s, __init__ [] 2 [0; 10] 1 0 false = Ok s
          ∧ Forall (λ bucket, bucket = []) (Sampler.buckets s)
          ∧ (__iter__ s).2 = Raise ZeroDivisionError)
  ∧ (∃ s, -2 ≤ 0 ∧ __init__ [3; 4; 5] (-2) [0; 10] 1 0 false = Ok s
          ∧ (__iter__ s).2 = Raise AssertionError)
  ∧ (∃ s, -2 ≤ 0 ∧ __init__ [3] (-2) [0; 10] 1 0 false = Ok s
          ∧ (__iter__ s).2 = Ok []).
Proof.
  split; [split|split; [|split]].
  - unfold strictly_increasing. intros Hs.
    apply StronglySorted_inv in Hs as [_ Hall].
    apply Forall_cons in Hall as [? _]. lia.
  - by intros [e ?].
  - eexists. split; [reflexivity|]. split; [by repeat constructor|reflexivity].
  - eexists. split; [lia|]. split; reflexivity.
  - eexists. split; [lia|]. split; reflexivity.
Qed.


(** ** Lists built by comprehension *)

Lemma mapM_Ok {A B} (f : A → result B) (l : list A) :
  Forall (λ x, is_Ok (f x)) l →
  ∃ k, mapM f l = Ok k ∧ Forall2 (λ x y, f x = Ok y) l k.
Proof.
  induction 1 as [|x l [y Hy] _ (k & Hk & Hall)].
  - exists []. by split; [|constructor].
  - exists (y :: k). cbn [mapM]. rewrite Hy. simpl in *. rewrite Hk. simpl.
    by split; [|constructor].
Qed.

Lemma mapM_Ok_inv {A B} (f : A → result B) (l : list A) (k : list B) :
  mapM f l = Ok k → Forall2 (λ x y, f x = Ok y) l k.
Proof.
  revert k. induction l as [|x l IH]; intros k.
  - intros [= <-]. constructor.
  - cbn [mapM]. destruct (f x) as [y|] eqn:Hy; [|done]. simpl.
    destruct (mapM f l) as [k'|]; [|done]. simpl. intros [= <-].
    constructor; [done|by apply IH].
Qed.

Lemma omap_total {A B} (f : A → option B) (g : A → B) (l : list A) :
  Forall (λ x, f x = Some (g x)) l → omap f l = g <$> l.
Proof.
  induction 1 as [|x l Hx _ IH]; [done|]. cbn [omap list_omap]. rewrite Hx.
  simpl. f_equal. apply IH.
Qed.

Lemma omap_all_Some {A B} (f : A → option B) (l : list A) :
  Forall (λ x, is_Some (f x)) l →
  length (omap f l) = length l ∧ ∀ k, omap f l !! k = l !! k ≫= f.
Proof.
  induction 1 as [|x l [y Hy] _ [IHlen IH]]; [done|].
  cbn [omap list_omap]. rewrite Hy. simpl. split; [by rewrite IHlen|].
  intros [|k]; [done|]. apply IH.
Qed.

(** [l[start::step]] for a start inside the list and a positive step: the
    entries at [start], [start + step], ... *)
Lemma stride_spec {A} (l : list A) (start step : Z) :
  0 < step → 0 ≤ start < Py.len l →
  ∃ sub, Py.stride l start step = Ok sub
         ∧ Py.len sub = (Py.len l - start - 1) `div` step + 1
         ∧ ∀ k : nat, Z.of_nat k < Py.len sub →
             sub !! k = l !! Z.to_nat (start + Z.of_nat k * step).
Proof.
  intros Hstep Hstart. unfold Py.stride, Py.clamp.
  rewrite (bool_decide_false (step = 0)), (bool_decide_true (0 < step)) by lia.
  rewrite (bool_decide_false (start < 0)) by lia.
  rewrite Z.min_l by lia. rewrite bool_decide_true by lia.
  eexists. split; [done|].
  set (count := (Py.len l - start - 1) `div` step + 1).
  assert (0 ≤ (Py.len l - start - 1) `div` step) as Hq by (apply Z.div_pos; lia).
  pose proof (Z.mul_div_le (Py.len l - start - 1) step Hstep) as Hle.
  destruct (omap_all_Some (λ k, l !! Z.to_nat (start + k * step)) (seqZ 0 count))
    as [Hlen Hlookup].
  { apply Forall_forall. intros k Hk%elem_of_seqZ.
    apply lookup_lt_is_Some_2. unfold Py.len in *. nia. }
  split.
  - unfold Py.len at 1. rewrite Hlen, length_seqZ. lia.
  - intros k Hk. rewrite Hlookup. unfold Py.len in Hk. rewrite Hlen, length_seqZ in Hk.
    rewrite lookup_seqZ_lt by lia. simpl. by rewrite Z.add_0_l.
Qed.

(** ** The index lists of __iter__ *)

Section iter_facts.
Context `{TorchRandom}.

Lemma draw_indices_shuffled (buckets : list (list Z)) :
  ∀ (pre : list (list Z)) (acc : list (list Z)) (g : Generator),
    Forall2 (λ ids bucket, ids ≡ₚ Py.range (Py.len bucket)) acc pre →
    Forall2 (λ ids bucket, ids ≡ₚ Py.range (Py.len bucket))
      (foldl (λ '(indices, g) bucket,
                let '(p, g') := randperm (length bucket) g in (indices ++ [p], g'))
             (acc, g) buckets).1
      (pre ++ buckets).
Proof.
  induction buckets as [|bucket buckets IH]; intros pre acc g Hacc.
  - by rewrite app_nil_r.
  - simpl. pose proof (randperm_perm (length bucket) g) as Hp.
    destruct (randperm (length bucket) g) as [p g'].
    rewrite (cons_middle bucket), app_assoc. apply IH.
    apply Forall2_app; [done|]. by repeat constructor.
Qed.

Lemma draw_indices_spec (shuffle : bool) (buckets : list (list Z)) (g : Generator) :
  Forall2 (λ ids bucket, ids ≡ₚ Py.range (Py.len bucket))
    (draw_indices shuffle buckets g).1 buckets.
Proof.
  unfold draw_indices. destruct shuffle.
  - apply (draw_indices_shuffled buckets [] [] g). constructor.
  - simpl. apply Forall2_fmap_l, Forall_Forall2_diag, Forall_forall.
    intros bucket _. simpl. reflexivity.
Qed.

(** *** Extension *)

Lemma extend_ids_spec (ids : list Z) (rem : Z) :
  ids ≠ [] → 0 ≤ rem →
  ∃ ext, extend_ids ids rem (Py.len ids) = Ok ext
         ∧ Py.len ext = Py.len ids + rem
         ∧ Forall (λ idx, idx ∈ ids) ext.
Proof.
  intros Hne Hrem. unfold extend_ids, Py.floordiv, Py.mod_.
  assert (0 < Py.len ids) as Hlen by (unfold Py.len; destruct ids; [done|simpl; lia]).
  rewrite !bool_decide_false by lia. simpl. eexists. split; [done|].
  pose proof (Z.mod_pos_bound rem (Py.len ids) Hlen) as Hmod.
  pose proof (Z.div_mod rem (Py.len ids) ltac:(lia)) as Hdiv.
  assert (0 ≤ rem `div` Py.len ids) as Hq by (apply Z.div_pos; lia).
  split.
  - unfold Py.len in *. rewrite !length_app. unfold Py.repeat, Py.slice_to, Py.clamp.
    rewrite bool_decide_false by lia.
    rewrite length_take, length_join.
    rewrite (sum_list_fmap_same (length ids)) by (by apply Forall_replicate).
    rewrite length_replicate. unfold Py.len. nia.
  - rewrite !Forall_app. split; [by apply Forall_forall|]. split.
    + apply Forall_forall. unfold Py.repeat.
      intros x (ys & Hx & Hys%elem_of_replicate)%list_elem_of_join.
      by destruct Hys as [-> _].
    + apply Forall_forall. unfold Py.slice_to. intros x Hx.
      apply elem_of_take in Hx as (i & Hi & _). by eapply list_elem_of_lookup_2.
Qed.

(** *** Subsampling *)

Lemma stride_count (T R rank : Z) :
  0 < R → 0 ≤ rank < R → T `mod` R = 0 → (T - rank - 1) `div` R + 1 = T `div` R.
Proof.
  intros HR Hrank Hmod.
  pose proof (Z.div_mod T R ltac:(lia)) as HT. rewrite Hmod, Z.add_0_r in HT.
  set (m := T `div` R) in *.
  assert ((T - rank - 1) `div` R = m - 1) as ->; [|lia].
  symmetry. apply (Z.div_unique_pos _ _ _ (R - rank - 1)); lia.
Qed.

Lemma mod_mul_l (T R B : Z) : 0 < R → 0 < B → T `mod` (R * B) = 0 → T `mod` R = 0.
Proof.
  intros HR HB Hmod.
  pose proof (Z.div_mod T (R * B) ltac:(lia)) as HT. rewrite Hmod, Z.add_0_r in HT.
  rewrite HT, <- Z.mul_assoc, Z.mul_comm. apply Z_mod_mult.
Qed.

Lemma permuted_range_getitem (bucket ids : list Z) (idx : Z) :
  ids ≡ₚ Py.range (Py.len bucket) → idx ∈ ids →
  ∃ item, Py.getitem bucket idx = Ok item ∧ item ∈ bucket.
Proof.
  intros Hperm Hidx. rewrite Hperm in Hidx. apply elem_of_range in Hidx.
  destruct (getitem_in_range bucket idx Hidx) as (item & Hitem & Hlookup).
  exists item. split; [done|]. by eapply list_elem_of_lookup_2.
Qed.
End iter_facts.

(** Extension and strided subsampling of one bucket, as [__iter__] does
    them: sizes and contents. *)
Lemma extend_then_stride (bucket ids : list Z) (R B target : Z) :
  bucket ≠ [] → ids ≡ₚ Py.range (Py.len bucket) →
  0 < R → 0 < B →
  sample_target (Py.len bucket) (R * B) = Ok target →
  ∃ ext,
    extend_ids ids (target - Py.len bucket) (Py.len bucket) = Ok ext
    ∧ Py.len ext = target
    ∧ Forall (λ idx, ∃ item, Py.getitem bucket idx = Ok item ∧ item ∈ bucket) ext
    ∧ (∀ rank, 0 ≤ rank < R →
         ∃ sub, subsample ext rank R = Ok sub
                ∧ Py.len sub = target `div` R
                ∧ ∀ k : nat, Z.of_nat k < target `div` R →
                    sub !! k = ext !! Z.to_nat (rank + Z.of_nat k * R)).
Proof.
  intros Hne Hperm HR HB Htarget.
  assert (0 < R * B) as Hd by lia.
  rewrite sample_target_Ok in Htarget by lia. injection Htarget as <-.
  pose proof (round_up_bounds (Py.len bucket) (R * B) Hd) as [Hbounds Hmod].
  set (target := round_up (R * B) (Py.len bucket)) in *.
  assert (Py.len ids = Py.len bucket) as Hlen.
  { unfold Py.len. rewrite Hperm, length_range. unfold Py.len. lia. }
  assert (ids ≠ []) as Hids.
  { intros ->. destruct bucket; [done|]. unfold Py.len in Hlen. simpl in Hlen. lia. }
  assert (0 < Py.len bucket) as Hpos by (destruct bucket; [done|unfold Py.len; simpl; lia]).
  destruct (extend_ids_spec ids (target - Py.len bucket) Hids ltac:(lia))
    as (ext & Hext & Hextlen & Hextin).
  rewrite Hlen in Hext, Hextlen. exists ext.
  assert (target `mod` R = 0) as HmodR by (by apply (mod_mul_l target R B)).
  split; [done|]. split; [lia|]. split.
  - eapply Forall_impl; [done|]. intros idx. by apply permuted_range_getitem.
  - intros rank Hrank. unfold subsample.
    assert (R ≤ target) as HRT.
    { destruct (decide (R ≤ target)); [done|]. rewrite Z.mod_small in HmodR by lia. lia. }
    destruct (stride_spec ext rank R HR ltac:(lia)) as (sub & Hsub & Hsublen & Hlookup).
    replace (Py.len ext) with target in Hsublen by lia.
    rewrite stride_count in Hsublen by done.
    exists sub. split; [done|]. split; [done|].
    intros k Hk. apply Hlookup. lia.
Qed.

(** C6: for a non-empty bucket whose index list [ids] permutes
    [range(len(bucket))] (what [__iter__] draws, whatever the epoch), and
    [target] the bucket's entry of [num_samples_per_bucket]: the extended
    list has exactly [target] entries, each one an index of an item of the
    bucket; the subsample of every rank below [num_replicas] has
    [target / num_replicas] entries, its entry [k] being slot
    [rank + k * num_replicas] of the extended list; and every slot below
    [target] is [rank + k * num_replicas] for exactly one such rank and
    position, so the subsamples of the ranks partition the slots. *)
Theorem strided_partition (bucket ids : list Z) (R B target : Z) :
  bucket ≠ [] → ids ≡ₚ Py.range (Py.len bucket) →
  0 < R → 0 < B →
  sample_target (Py.len bucket) (R * B) = Ok target →
  ∃ ext,
    extend_ids ids (target - Py.len bucket) (Py.len bucket) = Ok ext
    ∧ Py.len ext = target
    ∧ Forall (λ idx, ∃ item, Py.getitem bucket idx = Ok item ∧ item ∈ bucket) ext
    ∧ (∀ rank, 0 ≤ rank < R →
         ∃ sub, subsample ext rank R = Ok sub
                ∧ Py.len sub = target `div` R
                ∧ ∀ k : nat, Z.of_nat k < target `div` R →
                    sub !! k = ext !! Z.to_nat (rank + Z.of_nat k * R))
    ∧ (∀ slot, 0 ≤ slot < target →
         ∃ rank k, (0 ≤ rank < R ∧ 0 ≤ k < target `div` R ∧ slot = rank + k * R)
                   ∧ ∀ rank' k', 0 ≤ rank' < R → slot = rank' + k' * R →
                       rank' = rank ∧ k' = k).
Proof.
  intros Hne Hperm HR HB Htarget.
  destruct (extend_then_stride bucket ids R B target Hne Hperm HR HB Htarget)
    as (ext & Hext & Hlen & Hin & Hsub).
  exists ext. repeat (split; [done|]).
  assert (target `mod` R = 0) as HmodR.
  { rewrite sample_target_Ok in Htarget by lia. injection Htarget as <-.
    apply (mod_mul_l _ R B); [done..|]. apply round_up_bounds. lia. }
  pose proof (Z.div_mod target R ltac:(lia)) as HT. rewrite HmodR, Z.add_0_r in HT.
  intros slot Hslot.
  pose proof (Z.div_mod slot R ltac:(lia)) as Hs.
  pose proof (Z.mod_pos_bound slot R HR) as Hsm.
  exists (slot `mod` R), (slot `div` R). split.
  - split; [done|]. split; [|lia]. split; [apply Z.div_pos; lia|].
    apply Z.div_lt_upper_bound; lia.
  - intros rank' k' Hrank' Hslot'. split.
    + rewrite Hslot', Z_mod_plus_full. symmetry. by apply Z.mod_small.
    + rewrite Hslot', Z_div_plus_full by lia.
      rewrite (Z.div_small rank') by lia. lia.
Qed.

Lemma strided_partition_witness :
  ∃ ext,
    extend_ids [2; 0; 1] (4 - Py.len [7; 8; 9]) (Py.len [7; 8; 9]) = Ok ext
    ∧ Py.len ext = 4
    ∧ Forall (λ idx, ∃ item, Py.getitem [7; 8; 9] idx = Ok item ∧ item ∈ [7; 8; 9]) ext
    ∧ (∀ rank, 0 ≤ rank < 2 →
         ∃ sub, subsample ext rank 2 = Ok sub
                ∧ Py.len sub = 4 `div` 2
                ∧ ∀ k : nat, Z.of_nat k < 4 `div` 2 →
                    sub !! k = ext !! Z.to_nat (rank + Z.of_nat k * 2))
    ∧ (∀ slot, 0 ≤ slot < 4 →
         ∃ rank k, (0 ≤ rank < 2 ∧ 0 ≤ k < 4 `div` 2 ∧ slot = rank + k * 2)
                   ∧ ∀ rank' k', 0 ≤ rank' < 2 → slot = rank' + k' * 2 →
                       rank' = rank ∧ k' = k).
Proof.
  apply (strided_partition [7; 8; 9] [2; 0; 1] 2 2 4).
  - done.
  - change (Py.range (Py.len [7; 8; 9])) with [0; 1; 2].
    apply (Permutation_app_comm [2] [0; 1]).
  - lia.
  - lia.
  - reflexivity.
Defined.

(** ** Batching *)

Lemma slice_chunk {A} (l : list A) (j B : Z) :
  0 ≤ j → 0 < B → (j + 1) * B ≤ Py.len l →
  Py.slice l (j * B) ((j + 1) * B) = take (Z.to_nat B) (drop (Z.to_nat (j * B)) l).
Proof.
  intros Hj HB Hlen. unfold Py.slice, Py.clamp.
  rewrite !bool_decide_false by nia. rewrite !Z.min_l by nia.
  f_equal. lia.
Qed.

Lemma elem_of_chunk {A} (l : list A) (n m : nat) (x : A) :
  x ∈ take n (drop m l) → x ∈ l.
Proof.
  intros (i & Hi & _)%elem_of_take. rewrite lookup_drop in Hi.
  by eapply list_elem_of_lookup_2.
Qed.

Lemma batching_spec (bucket sub : list Z) (B k : Z) :
  0 < B → 0 ≤ k → Py.len sub = k * B →
  Forall (λ idx, ∃ item, Py.getitem bucket idx = Ok item ∧ item ∈ bucket) sub →
  ∃ new, batching bucket sub B = Ok new
         ∧ Py.len new = k
         ∧ Forall (λ batch, Py.len batch = B ∧ Forall (λ item, item ∈ bucket) batch) new.
Proof.
  intros HB Hk Hlen Hsub. unfold batching, Py.floordiv.
  rewrite bool_decide_false by lia. simpl. rewrite Hlen, Z_div_mult by lia.
  set (chunk := λ j, mapM (Py.getitem bucket) (Py.slice sub (j * B) ((j + 1) * B))).
  assert (∀ j, 0 ≤ j < k → ∃ batch, chunk j = Ok batch ∧ Py.len batch = B
                                     ∧ Forall (λ item, item ∈ bucket) batch) as Hchunk.
  { intros j Hj. unfold chunk. rewrite slice_chunk by nia.
    destruct (mapM_Ok (Py.getitem bucket)
                (take (Z.to_nat B) (drop (Z.to_nat (j * B)) sub))) as (batch & Hb & Hall).
    { apply Forall_forall. intros idx Hidx%elem_of_chunk.
      rewrite Forall_forall in Hsub. destruct (Hsub idx Hidx) as (item & -> & _).
      by eexists. }
    exists batch. split; [done|]. split.
    - unfold Py.len in *. rewrite <- (Forall2_length _ _ _ Hall).
      rewrite length_take, length_drop. nia.
    - apply Forall_forall. intros item Hitem.
      apply list_elem_of_lookup_1 in Hitem as [i Hi].
      destruct (Forall2_lookup_r _ _ _ _ _ Hall Hi) as (idx & Hidx & Hget).
      apply list_elem_of_lookup_2, elem_of_chunk in Hidx.
      rewrite Forall_forall in Hsub. destruct (Hsub idx Hidx) as (item' & Hget' & ?).
      congruence. }
  destruct (mapM_Ok chunk (Py.range k)) as (new & Hnew & Hall).
  { apply Forall_forall. intros j Hj%elem_of_range.
    destruct (Hchunk j Hj) as (batch & -> & _). by eexists. }
  exists new. split; [done|]. split.
  - unfold Py.len. rewrite <- (Forall2_length _ _ _ Hall), length_range. lia.
  - apply Forall_forall. intros batch Hbatch.
    apply list_elem_of_lookup_1 in Hbatch as [i Hi].
    destruct (Forall2_lookup_r _ _ _ _ _ Hall Hi) as (j & Hj & Hget).
    apply list_elem_of_lookup_2, elem_of_range in Hj.
    destruct (Hchunk j Hj) as (batch' & Hget' & ? & ?). simpl in Hget.
    rewrite Hget' in Hget. by injection Hget as <-.
Qed.

(** ** One bucket, then all of them *)

Section loop.
Context `{TorchRandom}.

Lemma bucket_step_spec (s : Sampler.t) (indices batches : list (list Z))
    (i : nat) (bucket ids : list Z) (target : Z) :
  ready s →
  Sampler.buckets s !! i = Some bucket →
  indices !! i = Some ids → ids ≡ₚ Py.range (Py.len bucket) →
  Sampler.num_samples_per_bucket s !! i = Some target →
  ∃ new, bucket_step s indices batches (Z.of_nat i) = Ok (batches ++ new)
         ∧ Py.len new = target `div` (Sampler.num_replicas s * Sampler.batch_size s)
         ∧ full_batches s new.
Proof.
  intros [HR HB Hrank Hne Htargets] Hbucket Hids Hperm Htarget.
  set (R := Sampler.num_replicas s) in *. set (B := Sampler.batch_size s) in *.
  pose proof (Forall2_lookup_lr _ _ _ _ _ _ Htargets Hbucket Htarget) as Hst.
  simpl in Hst.
  rewrite Forall_forall in Hne.
  pose proof (Hne bucket (list_elem_of_lookup_2 _ _ _ Hbucket)) as Hbne.
  destruct (extend_then_stride bucket ids R B target Hbne Hperm HR HB Hst)
    as (ext & Hext & Hextlen & Hextin & Hsub).
  destruct (Hsub (Sampler.rank s) Hrank) as (sub & Hsubeq & Hsublen & Hsublookup).
  rewrite sample_target_Ok in Hst by lia. injection Hst as Hst.
  pose proof (round_up_bounds (Py.len bucket) (R * B) ltac:(lia)) as [Hbounds Hmod].
  rewrite Hst in Hbounds, Hmod.
  pose proof (Z.div_mod target (R * B) ltac:(lia)) as HT. rewrite Hmod, Z.add_0_r in HT.
  set (k := target `div` (R * B)) in *.
  assert (0 ≤ k) as Hk by (apply Z.div_pos; unfold Py.len in *; lia).
  assert (target `div` R = k * B) as HdivR.
  { rewrite HT. replace (R * B * k) with (k * B * R) by lia. by apply Z_div_mult; lia. }
  destruct (batching_spec bucket sub B k HB Hk ltac:(lia)) as (new & Hnew & Hnewlen & Hfull).
  { apply Forall_forall. intros idx Hidx.
    apply list_elem_of_lookup_1 in Hidx as [j Hj].
    rewrite Hsublookup in Hj by (apply lookup_lt_Some in Hj; unfold Py.len in *; lia).
    rewrite Forall_forall in Hextin. apply Hextin. by eapply list_elem_of_lookup_2. }
  exists new. unfold bucket_step. fold R B.
  assert (∀ {A} (l : list A) x, l !! i = Some x → Py.getitem l (Z.of_nat i) = Ok x) as Hget.
  { intros A l x Hx. apply getitem_Ok; [lia|]. by rewrite Nat2Z.id. }
  rewrite (Hget _ _ _ Hbucket), (Hget _ _ _ Hids), (Hget _ _ _ Htarget). simpl.
  rewrite Hext. simpl. rewrite Hsubeq. simpl. rewrite Hnew. simpl.
  split; [done|]. split; [done|].
  eapply Forall_impl; [done|]. intros batch [? Hitems]. split; [done|].
  eapply Forall_impl; [done|]. intros item Hitem. simpl in Hitem.
  apply list_elem_of_join. exists bucket. split; [done|]. by eapply list_elem_of_lookup_2.
Qed.

Lemma sum_snoc (l : list Z) (x : Z) : Py.sum (l ++ [x]) = Py.sum l + x.
Proof. unfold Py.sum. induction l as [|y l IH]; simpl; lia. Qed.

Lemma bucket_loop_spec (s : Sampler.t) (indices : list (list Z)) (m : nat) :
  ready s →
  Forall2 (λ ids bucket, ids ≡ₚ Py.range (Py.len bucket)) indices (Sampler.buckets s) →
  (m ≤ length (Sampler.buckets s))%nat →
  ∃ batches,
    for_each (bucket_step s indices) (Py.range (Z.of_nat m)) [] = Ok batches
    ∧ Py.len batches = batches_of s (take m (Sampler.num_samples_per_bucket s))
    ∧ full_batches s batches.
Proof.
  intros Hready Hind. induction m as [|m IH]; intros Hm.
  - exists []. repeat split. constructor.
  - destruct IH as (batches & Hloop & Hlen & Hfull); [lia|].
    destruct (lookup_lt_is_Some_2 (Sampler.buckets s) m) as [bucket Hbucket]; [lia|].
    destruct (Forall2_lookup_r _ _ _ _ _ Hind Hbucket) as (ids & Hids & Hperm).
    destruct (Forall2_lookup_l _ _ _ _ _ (ready_targets s Hready) Hbucket)
      as (target & Htarget & _).
    destruct (bucket_step_spec s indices batches m bucket ids target)
      as (new & Hstep & Hnewlen & Hnewfull); [done..|].
    exists (batches ++ new).
    rewrite range_snoc, for_each_app, Hloop. simpl. rewrite Hstep. simpl.
    split; [done|]. split; [|by apply Forall_app].
    rewrite (take_S_r _ _ target) by done. unfold batches_of in *.
    rewrite fmap_app.
    rewrite (sum_snoc _ (target `div` (Sampler.num_replicas s * Sampler.batch_size s))). unfold Py.len in *. rewrite length_app. lia.
Qed.

Lemma final_shuffle_spec {A} (batches : list A) (batch_ids : list Z) (P : A → Prop) :
  batch_ids ≡ₚ Py.range (Py.len batches) → Forall P batches →
  ∃ shuffled, mapM (Py.getitem batches) batch_ids = Ok shuffled
              ∧ Py.len shuffled = Py.len batches ∧ Forall P shuffled.
Proof.
  intros Hperm HP.
  assert (∀ j, j ∈ batch_ids → ∃ x, Py.getitem batches j = Ok x ∧ P x) as Hget.
  { intros j Hj. rewrite Hperm in Hj. apply elem_of_range in Hj.
    destruct (getitem_in_range batches j Hj) as (x & Hx & Hlookup).
    exists x. split; [done|]. rewrite Forall_forall in HP.
    apply HP. by eapply list_elem_of_lookup_2. }
  destruct (mapM_Ok (Py.getitem batches) batch_ids) as (shuffled & Hs & Hall).
  { apply Forall_forall. intros j Hj. destruct (Hget j Hj) as (x & -> & _). by eexists. }
  exists shuffled. split; [done|]. split.
  - unfold Py.len. rewrite <- (Forall2_length _ _ _ Hall), Hperm, length_range.
    unfold Py.len. lia.
  - apply Forall_forall. intros x Hx. apply list_elem_of_lookup_1 in Hx as [i Hi].
    destruct (Forall2_lookup_r _ _ _ _ _ Hall Hi) as (j & Hj & Hgetj).
    destruct (Hget j (list_elem_of_lookup_2 _ _ _ Hj)) as (x' & ? & ?). congruence.
Qed.

Lemma make_batches_spec (s : Sampler.t) :
  ready s →
  ∃ batches, make_batches s = Ok batches
             ∧ Py.len batches = batches_of s (Sampler.num_samples_per_bucket s)
             ∧ full_batches s batches.
Proof.
  intros Hready. unfold make_batches.
  pose proof (draw_indices_spec (Sampler.shuffle s) (Sampler.buckets s)
                (manual_seed new_generator (Sampler.epoch s))) as Hind.
  destruct (draw_indices _ _ _) as [indices g]. simpl in Hind.
  destruct (bucket_loop_spec s indices (length (Sampler.buckets s)) Hready Hind)
    as (batches & Hloop & Hlen & Hfull); [done|].
  fold (Py.len (Sampler.buckets s)) in Hloop. rewrite Hloop. simpl.
  rewrite take_ge in Hlen
    by (rewrite <- (Forall2_length _ _ _ (ready_targets s Hready)); done).
  destruct (Sampler.shuffle s); [|by exists batches].
  pose proof (randperm_perm (length batches) g) as Hperm.
  destruct (randperm (length batches) g) as [batch_ids g']. simpl in Hperm.
  destruct (final_shuffle_spec batches batch_ids _ Hperm Hfull)
    as (shuffled & Hs & Hslen & Hsfull).
  exists shuffled. split; [done|]. split; [lia|done].
Qed.

End loop.

(** ** The batch count *)

Lemma sum_targets (d : Z) (targets : list Z) :
  0 < d → Forall (λ t, t `mod` d = 0) targets →
  Py.sum targets = Py.sum ((λ t, t `div` d) <$> targets) * d.
Proof.
  intros Hd. induction 1 as [|t targets Ht _ IH]; [done|].
  rewrite fmap_cons. unfold Py.sum in *. cbn [foldr]. rewrite IH.
  apply Z.div_exact in Ht; lia.
Qed.

Lemma sum_targets_div (R B : Z) (targets : list Z) :
  0 < R → 0 < B → Forall (λ t, t `mod` (R * B) = 0) targets →
  Py.sum targets `div` R = Py.sum ((λ t, t `div` (R * B)) <$> targets) * B.
Proof.
  intros HR HB Hall. rewrite (sum_targets (R * B)) by (done || lia).
  rewrite Z.mul_assoc, (Z.mul_comm _ R), <- Z.mul_assoc, Z.mul_comm.
  apply Z_div_mult. lia.
Qed.

Section count.
Context `{TorchRandom}.

Lemma init_ready (lengths boundaries : list Z) (B R rank e : Z) (shuffle : bool) s :
  0 < B → 0 < R → 0 ≤ rank < R →
  __init__ lengths B boundaries R rank shuffle = Ok s →
  Forall (λ bucket, bucket ≠ []) (Sampler.buckets s) →
  ready (set_epoch s e).
Proof.
  intros HB HR Hrank (_ & HsR & Hsrank & HsB & _ & Ht & _)%init_inv Hne.
  destruct s. simpl in *. subst.
  split; simpl; try done. by apply mapM_Ok_inv in Ht.
Qed.

Lemma iter_ready (s : Sampler.t) :
  ready s →
  Sampler.num_samples s
  = Py.sum (Sampler.num_samples_per_bucket s) `div` Sampler.num_replicas s →
  ∃ batches,
    __iter__ s = (Sampler.with_batches batches s, Ok batches)
    ∧ Py.len batches = Sampler.num_samples s `div` Sampler.batch_size s
    ∧ Py.len batches * Sampler.batch_size s = Sampler.num_samples s
    ∧ __len__ s = Ok (Py.len batches)
    ∧ full_batches s batches.
Proof.
  intros Hready Hnum.
  destruct (make_batches_spec s Hready) as (batches & Hb & Hlen & Hfull).
  pose proof (ready_replicas s Hready) as HR.
  pose proof (ready_batch_size s Hready) as HB.
  assert (Sampler.num_samples s = Py.len batches * Sampler.batch_size s) as Hn.
  { rewrite Hnum, Hlen. unfold batches_of. apply sum_targets_div; [done..|].
    pose proof (ready_targets s Hready) as Ht.
    apply Forall_forall. intros t Hin. apply list_elem_of_lookup_1 in Hin as [i Hi].
    destruct (Forall2_lookup_r _ _ _ _ _ Ht Hi) as (bucket & _ & Hst).
    rewrite sample_target_Ok in Hst by lia. injection Hst as <-.
    apply round_up_bounds. lia. }
  exists batches. unfold __iter__, __len__, Py.floordiv. rewrite Hb. simpl.
  rewrite bool_decide_true by lia. rewrite bool_decide_false by lia.
  rewrite Hn, Z_div_mult by lia. done.
Qed.

(** C2: take a configuration with strictly increasing boundaries,
    [batch_size > 0], [num_replicas > 0] and [0 <= rank < num_replicas] for
    which [__init__] leaves no empty bucket.  Then for every epoch
    [__iter__] returns its batch list (so the assertion
    [len(batches) * batch_size == num_samples] holds), that list has
    [num_samples // batch_size] batches, and [__len__] is its length. *)
Theorem iter_batch_count (lengths boundaries : list Z) (B R rank : Z)
    (shuffle : bool) (s : Sampler.t) :
  strictly_increasing boundaries →
  0 < B → 0 < R → 0 ≤ rank < R →
  __init__ lengths B boundaries R rank shuffle = Ok s →
  Forall (λ bucket, bucket ≠ []) (Sampler.buckets s) →
  ∀ e, ∃ batches,
    (__iter__ (set_epoch s e)).2 = Ok batches
    ∧ Py.len batches = Sampler.num_samples s `div` B
    ∧ Py.len batches * B = Sampler.num_samples s
    ∧ __len__ (set_epoch s e) = Ok (Py.len batches).
Proof.
  intros _ HB HR Hrank Hinit Hne e.
  pose proof (init_ready lengths boundaries B R rank e shuffle s HB HR Hrank Hinit Hne)
    as Hready.
  apply init_inv in Hinit as (_ & HsR & _ & HsB & _ & _ & Hnum & _).
  destruct (iter_ready (set_epoch s e) Hready) as (batches & Hit & Hlen & Hmul & Hl & _).
  { destruct s; simpl in *. by subst. }
  exists batches. rewrite Hit. destruct s; simpl in *. by subst.
Qed.

End count.

Lemma iter_batch_count_witness :
  ∃ s, __init__ [5; 15; 25; 35; 6; 7] 2 [0; 10; 20; 30; 40] 2 1 true = Ok s
       ∧ ∀ e, ∃ batches,
           (__iter__ (set_epoch s e)).2 = Ok batches
           ∧ Py.len batches = Sampler.num_samples s `div` 2
           ∧ Py.len batches * 2 = Sampler.num_samples s
           ∧ __len__ (set_epoch s e) = Ok (Py.len batches).
Proof.
  eexists. split; [reflexivity|].
  apply (iter_batch_count [5; 15; 25; 35; 6; 7] [0; 10; 20; 30; 40] 2 2 1 true).
  - unfold strictly_increasing. repeat constructor; lia.
  - lia.
  - lia.
  - lia.
  - reflexivity.
  - repeat constructor; done.
Defined.

(** ** The empty first bucket *)

Lemma range_cons (n : nat) : Py.range (Z.of_nat (S n)) = 0 :: seqZ 1 (Z.of_nat n).
Proof.
  unfold Py.range. rewrite seqZ_cons by lia. f_equal. f_equal. lia.
Qed.

Section empty_first.
Context `{TorchRandom}.

Lemma bucket_step_empty (s : Sampler.t) (rest inds batches : list (list Z))
    (ids0 : list Z) (t0 : Z) :
  Sampler.buckets s = [] :: rest →
  Sampler.num_samples_per_bucket s !! 0%nat = Some t0 →
  bucket_step s (ids0 :: inds) batches 0 = Raise ZeroDivisionError.
Proof.
  intros Hb Ht. unfold bucket_step. rewrite Hb.
  assert (Py.getitem (Sampler.num_samples_per_bucket s) 0 = Ok t0) as ->
    by (by apply getitem_Ok).
  done.
Qed.

(** With an empty bucket 0 the first turn of the loop divides by
    [len_bucket = 0], whatever else the sampler holds. *)
Lemma iter_empty_first_bucket (s : Sampler.t) (rest : list (list Z)) (t0 : Z) :
  Sampler.buckets s = [] :: rest →
  Sampler.num_samples_per_bucket s !! 0%nat = Some t0 →
  __iter__ s = (s, Raise ZeroDivisionError).
Proof.
  intros Hb Ht. unfold __iter__, make_batches.
  pose proof (draw_indices_spec (Sampler.shuffle s) (Sampler.buckets s)
                (manual_seed new_generator (Sampler.epoch s))) as Hind.
  destruct (draw_indices _ _ _) as [indices g]. simpl in Hind.
  rewrite Hb in Hind |- *. apply Forall2_cons_inv_r in Hind as (ids0 & inds & _ & _ & ->).
  unfold Py.len. simpl length. rewrite range_cons. cbn [for_each].
  by rewrite (bucket_step_empty s rest inds [] ids0 t0).
Qed.

(** C10: bucket 0 is out of the reach of the removal loop.  Whenever no
    length lies in the first interval [(b0, b1]] and some length lies in a
    later one, then for every rank the base class accepts and every
    [batch_size] other than 0 construction succeeds, the buckets it keeps
    start with the empty bucket 0 and hold a non-empty one, and in every
    epoch [__iter__] raises ZeroDivisionError instead of returning
    batches. *)
Theorem empty_first_bucket_breaks_iter (lengths boundaries : list Z) (b0 b1 : Z)
    (B R rank : Z) (shuffle : bool) :
  strictly_increasing boundaries →
  boundaries !! 0%nat = Some b0 → boundaries !! 1%nat = Some b1 →
  Forall (λ x, ¬ (b0 < x ≤ b1)) lengths →
  (∃ x (k : nat) c c', x ∈ lengths ∧ boundaries !! S k = Some c
                       ∧ boundaries !! S (S k) = Some c' ∧ c < x ≤ c') →
  0 ≤ rank < R → B ≠ 0 →
  ∃ s, __init__ lengths B boundaries R rank shuffle = Ok s
       ∧ Sampler.buckets s !! 0%nat = Some []
       ∧ (∃ bucket, bucket ∈ Sampler.buckets s ∧ bucket ≠ [])
       ∧ ∀ e, (__iter__ (set_epoch s e)).2 = Raise ZeroDivisionError.
Proof.
  intros Hs Hb0 Hb1 Hnone (x & k & c & c' & Hx & Hc & Hc' & Hxc) Hrank HB.
  pose proof (init_spec lengths boundaries B R rank shuffle Hrank HB) as Hinit.
  simpl in Hinit. eexists. split; [exact Hinit|]. simpl. clear Hinit.
  pose proof (lookup_lt_Some _ _ _ Hc') as Hlen.
  assert (∀ j : nat, (j < pred (length boundaries))%nat →
            found_buckets lengths boundaries !! j
            = Some (bucket_members boundaries lengths (Py.len lengths) (Z.of_nat j)))
    as Hfound.
  { intros j Hj. unfold found_buckets. rewrite list_lookup_fmap, lookup_range.
    unfold Py.len. by rewrite bool_decide_true by lia. }
  assert (bucket_members boundaries lengths (Py.len lengths) 0 = []) as Hempty.
  { apply elem_of_nil_inv. intros i [Hi Hrange]%elem_of_bucket_members.
    destruct (getitem_in_range lengths i Hrange) as (y & Hy & Hlookup).
    unfold item_bucket in Hi. rewrite Hy in Hi. simpl in Hi.
    destruct (bisect_sound boundaries y) as (r & Hr & Hri).
    rewrite Hr in Hi. injection Hi as ->.
    destruct Hri as [|[_ (b & b' & Hb & Hb' & Hyb)]]; [done|].
    change (Z.to_nat 0) with 0%nat in Hb. change (Z.to_nat (0 + 1)) with 1%nat in Hb'.
    rewrite Hb0 in Hb. rewrite Hb1 in Hb'. injection Hb as <-. injection Hb' as <-.
    rewrite Forall_forall in Hnone. apply (Hnone y); [|done].
    by eapply list_elem_of_lookup_2. }
  pose proof (Hfound 0%nat ltac:(lia)) as H0.
  change (Z.of_nat 0) with 0 in H0. rewrite Hempty in H0.
  destruct (found_buckets lengths boundaries) as [|bucket0 rest] eqn:Hfb; [done|].
  injection H0 as ->. simpl. split; [done|]. split.
  - apply list_elem_of_lookup_1 in Hx as [j Hj].
    exists (bucket_members boundaries lengths (Py.len lengths) (Z.of_nat (S k))).
    assert (Z.of_nat j ∈ bucket_members boundaries lengths (Py.len lengths) (Z.of_nat (S k)))
      as Hin.
    { apply elem_of_bucket_members. split.
      - rewrite (item_bucket_lookup _ _ _ x) by done.
        apply (_bisect_complete _ _ _ _ (S k) c c'); try done; unfold Py.len; lia.
      - apply lookup_lt_Some in Hj. unfold Py.len. lia. }
    split; [|by intros Heq; rewrite Heq in Hin; apply not_elem_of_nil in Hin].
    right. apply list_elem_of_filter. split.
    + by intros Heq; rewrite Heq in Hin; apply not_elem_of_nil in Hin.
    + pose proof (Hfound (S k) ltac:(lia)) as Hk. simpl in Hk.
      by eapply list_elem_of_lookup_2.
  - intros e. erewrite iter_empty_first_bucket; [done|done|done].
Qed.

End empty_first.

Lemma empty_first_bucket_breaks_iter_witness :
  ∃ s, __init__ [15; 17] 2 [0; 10; 20] 1 0 true = Ok s
       ∧ Sampler.buckets s !! 0%nat = Some []
       ∧ (∃ bucket, bucket ∈ Sampler.buckets s ∧ bucket ≠ [])
       ∧ ∀ e, (__iter__ (set_epoch s e)).2 = Raise ZeroDivisionError.
Proof.
  apply (empty_first_bucket_breaks_iter [15; 17] [0; 10; 20] 0 10 2 1 0 true).
  - unfold strictly_increasing. repeat constructor; lia.
  - reflexivity.
  - reflexivity.
  - repeat constructor; lia.
  - exists 15, 0%nat, 10, 20. repeat split; try done; try lia. by left.
  - lia.
  - lia.
Defined.

(** ** Reproducibility *)

Section reproducible.
Variables run1 run2 : TorchRandom.
Variable same_state : @Generator run1 → @Generator run2 → Prop.
Hypothesis Hseed : seeds_alike run1 run2 same_state.
Hypothesis Hdraw : draws_alike run1 run2 same_state.

(** The per-bucket permutations of two runs agree, and so do the states the
    generators are left in for the final shuffle. *)
Lemma draw_indices_alike (shuffle : bool) (buckets : list (list Z))
    (g1 : @Generator run1) (g2 : @Generator run2) :
  same_state g1 g2 →
  (@draw_indices run1 shuffle buckets g1).1 = (@draw_indices run2 shuffle buckets g2).1
  ∧ same_state (@draw_indices run1 shuffle buckets g1).2
               (@draw_indices run2 shuffle buckets g2).2.
Proof.
  intros Hg. unfold draw_indices. destruct shuffle; [|done].
  assert (∀ (acc : list (list Z)) g1 g2, same_state g1 g2 →
            (foldl (λ '(indices, g) (bucket : list Z),
                      let '(p, g') := @randperm run1 (length bucket) g in
                      (indices ++ [p], g')) (acc, g1) buckets).1
            = (foldl (λ '(indices, g) (bucket : list Z),
                        let '(p, g') := @randperm run2 (length bucket) g in
                        (indices ++ [p], g')) (acc, g2) buckets).1
            ∧ same_state
                (foldl (λ '(indices, g) (bucket : list Z),
                          let '(p, g') := @randperm run1 (length bucket) g in
                          (indices ++ [p], g')) (acc, g1) buckets).2
                (foldl (λ '(indices, g) (bucket : list Z),
                          let '(p, g') := @randperm run2 (length bucket) g in
                          (indices ++ [p], g')) (acc, g2) buckets).2) as Hgen;
    [|by apply Hgen].
  clear g1 g2 Hg.
  induction buckets as [|bucket buckets IH]; intros acc g1 g2 Hg; [done|].
  cbn [foldl].
  destruct (Hdraw (length bucket) g1 g2 Hg) as [Hp Hg'].
  destruct (@randperm run1 (length bucket) g1) as [p1 g1'].
  destruct (@randperm run2 (length bucket) g2) as [p2 g2'].
  simpl in Hp, Hg'. subst p2. by apply IH.
Qed.

(** The batch list does not depend on the run. *)
Lemma make_batches_alike (s1 s2 : Sampler.t) :
  iter_inputs s1 = iter_inputs s2 →
  @make_batches run1 s1 = @make_batches run2 s2.
Proof.
  destruct s1, s2. unfold iter_inputs. simpl. intros [= -> -> -> -> -> -> -> ->].
  unfold make_batches. cbn [Sampler.epoch Sampler.shuffle Sampler.buckets].
  match goal with
  | |- context [@draw_indices run1 ?sh ?bs ?g1] =>
      match goal with
      | |- context [@draw_indices run2 sh bs ?g2] =>
          destruct (draw_indices_alike sh bs g1 g2) as [Hind Hg]; [apply Hseed|];
          destruct (@draw_indices run1 sh bs g1) as [ind1 g1'];
          destruct (@draw_indices run2 sh bs g2) as [ind2 g2']
      end
  end.
  simpl in Hind, Hg. subst ind2.
  unfold bucket_step. simpl.
  match goal with
  | |- (?x ≫= _) = (?y ≫= _) => change y with x; destruct x as [made|]; [|done]
  end.
  cbn [mbind result_bind].
  match goal with |- (if ?b then _ else _) = _ => destruct b; [|done] end.
  destruct (Hdraw (length made) g1' g2' Hg) as [Hp _].
  destruct (@randperm run1 (length made) g1') as [p1 g1''].
  destruct (@randperm run2 (length made) g2') as [p2 g2''].
  simpl in Hp. by subst p2.
Qed.

(** C7: two independent invocations of [__iter__] on sampler states that
    agree on the epoch, the rank, the replica count, the shuffle flag, the
    batch size, the buckets, the per-bucket targets and the per-rank quota
    have the same outcome: the same batches in the same order, or the same
    exception.  The invocations may run with different torches, whose new
    generators start in different states, as long as torch is reproducible:
    seeded alike the generators draw alike.  The generator of [__iter__] is
    seeded from the epoch before the first draw and every draw is made from
    it; the seed field and the batch list an earlier invocation stored are
    not read, so that an invocation on the object a first one has left
    behind repeats its outcome. *)
Theorem iter_deterministic (s1 s2 : Sampler.t) :
  Sampler.epoch s1 = Sampler.epoch s2 →
  Sampler.rank s1 = Sampler.rank s2 →
  Sampler.num_replicas s1 = Sampler.num_replicas s2 →
  Sampler.shuffle s1 = Sampler.shuffle s2 →
  Sampler.batch_size s1 = Sampler.batch_size s2 →
  Sampler.buckets s1 = Sampler.buckets s2 →
  Sampler.num_samples_per_bucket s1 = Sampler.num_samples_per_bucket s2 →
  Sampler.num_samples s1 = Sampler.num_samples s2 →
  (@__iter__ run1 s1).2 = (@__iter__ run2 s2).2
  ∧ (@__iter__ run2 (@__iter__ run1 s1).1).2 = (@__iter__ run1 s1).2.
Proof.
  assert (∀ a b, iter_inputs a = iter_inputs b →
            (@__iter__ run1 a).2 = (@__iter__ run2 b).2) as Hfun.
  { intros a b Hab. unfold __iter__. rewrite (make_batches_alike a b Hab).
    destruct (@make_batches run2 b) as [batches|]; [|done].
    assert (Sampler.batch_size a = Sampler.batch_size b
            ∧ Sampler.num_samples a = Sampler.num_samples b) as [HB Hn].
    { unfold iter_inputs in Hab. by injection Hab. }
    destruct a, b. simpl in *. subst. by case_bool_decide. }
  intros. split.
  - apply Hfun. unfold iter_inputs. congruence.
  - symmetry. apply Hfun. unfold __iter__.
    destruct (@make_batches run1 s1) as [batches|]; [|done].
    by case_bool_decide.
Qed.

End reproducible.

Lemma iter_deterministic_witness :
  (@__iter__ rotating_random
     (Sampler.mk 2 1 3 0 true [5; 15; 6] 2 [0; 10; 20] [[0; 2]; [1]] [4; 4] 8 4 None)).2
  = (@__iter__ counting_random
       (Sampler.mk 2 1 3 7 true [] 2 [] [[0; 2]; [1]] [4; 4] 0 4 (Some [[9]]))).2
  ∧ (@__iter__ counting_random
       (@__iter__ rotating_random
          (Sampler.mk 2 1 3 0 true [5; 15; 6] 2 [0; 10; 20] [[0; 2]; [1]] [4; 4] 8 4
             None)).1).2
    = (@__iter__ rotating_random
         (Sampler.mk 2 1 3 0 true [5; 15; 6] 2 [0; 10; 20] [[0; 2]; [1]] [4; 4] 8 4 None)).2.
Proof.
  apply (iter_deterministic rotating_random counting_random (λ g1 g2, g1 = g2.1 + g2.2)).
  - intros g1 g2 seed. simpl. lia.
  - intros n g1 g2 Hg. simpl in *. subst g1. split; [reflexivity|lia].
  - reflexivity.
  - reflexivity.
  - reflexivity.
  - reflexivity.
  - reflexivity.
  - reflexivity.
  - reflexivity.
  - reflexivity.
Defined.

(** Without the seeding the two torches of the witness would part: their
    new generators draw differently. *)
Example new_generators_differ :
  (@randperm rotating_random 5 (@new_generator rotating_random)).1
  ≠ (@randperm counting_random 5 (@new_generator counting_random)).1.
Proof. vm_compute. discriminate. Qed.

(** ** MelCollate *)

Section collate_facts.
Context {F : Type} (zero : F) `{TorchSort}.

Lemma collate_step_spec (batch : list (Tensor2 F * unit)) (ids : list Z)
    (feature_dim max_len m : nat) (st : Tensor3 F * list (option Z)) :
  ids ≡ₚ Py.range (Py.len batch) →
  Forall (λ x, size0 x.1 = feature_dim ∧ (size1 x.1 ≤ max_len)%nat) batch →
  (m < length batch)%nat →
  collated zero batch ids feature_dim max_len m st →
  ∃ st', collate_step batch ids st (Z.of_nat m) = Ok st'
         ∧ collated zero batch ids feature_dim max_len (S m) st'.
Proof.
  intros Hperm Hbatch Hm (Hshape & Hlen & Hrows). destruct st as [t ls]. simpl in *.
  assert (length ids = length batch) as Hidslen.
  { rewrite Hperm, length_range. unfold Py.len. lia. }
  destruct (getitem_in_range ids (Z.of_nat m)) as (id & Hid & Hidl);
    [unfold Py.len; lia|].
  rewrite Nat2Z.id in Hidl.
  assert (0 ≤ id < Py.len batch) as Hidr.
  { apply elem_of_range. rewrite <- Hperm. by eapply list_elem_of_lookup_2. }
  destruct (getitem_in_range batch id Hidr) as ([mel []] & Hrow & Hrowl).
  rewrite Forall_forall in Hbatch.
  destruct (Hbatch _ (list_elem_of_lookup_2 _ _ _ Hrowl)) as [Hf Hl]. simpl in Hf, Hl.
  unfold collate_step. rewrite Hid. simpl. rewrite Hrow. simpl.
  unfold assign_row. rewrite Hshape.
  rewrite (bool_decide_false (_ < 0)) by lia.
  rewrite (bool_decide_true (_ ≤ _ < _)) by lia.
  rewrite Nat.min_l by done.
  rewrite (bool_decide_true (_ ∧ _)) by (split; by left).
  simpl. unfold setitem, Py.alter_at.
  rewrite (bool_decide_false (_ < 0)) by lia.
  rewrite (bool_decide_true (_ ≤ _ < _)) by (unfold Py.len; lia).
  simpl. rewrite Nat2Z.id. eexists. split; [done|].
  unfold collated. simpl.
  split; [done|]. split; [by rewrite length_alter|].
  intros i Hi. specialize (Hrows i Hi).
  destruct (decide (i = m)) as [->|Hne].
  - rewrite decide_True by lia. rewrite decide_False in Hrows by lia.
    destruct Hrows as [Hnone Hzero].
    exists id, mel. split; [done|]. split; [done|]. split.
    + by rewrite list_lookup_alter_eq, Hnone.
    + intros c k Hc Hk. case_bool_decide as Hcase.
      * destruct Hcase as (_ & _ & Hk'). rewrite decide_True by done.
        by rewrite !bool_decide_true by done.
      * rewrite decide_False by (intros ?; apply Hcase; done). apply Hzero.
  - rewrite list_lookup_alter_ne by done.
    assert (∀ c k, (if bool_decide (i = m ∧ (c < feature_dim)%nat ∧ (k < size1 mel)%nat)
                    then at2 mel (if bool_decide (size0 mel = feature_dim) then c else 0%nat)
                                 (if bool_decide (size1 mel = size1 mel) then k else 0%nat)
                    else at3 t i c k) = at3 t i c k) as Hsame.
    { intros c k. rewrite bool_decide_false; [done|]. intros [? _]. done. }
    destruct (decide (i < m)%nat).
    + rewrite decide_True by lia.
      destruct Hrows as (id' & mel' & ? & ? & ? & Hdata).
      exists id', mel'. repeat split; try done.
      intros c k Hc Hk. rewrite Hsame. by apply Hdata.
    + rewrite decide_False by lia. destruct Hrows as [? Hzero].
      split; [done|]. intros c k. rewrite Hsame. apply Hzero.
Qed.

Lemma collate_loop_spec (batch : list (Tensor2 F * unit)) (ids : list Z)
    (feature_dim max_len m : nat) :
  ids ≡ₚ Py.range (Py.len batch) →
  Forall (λ x, size0 x.1 = feature_dim ∧ (size1 x.1 ≤ max_len)%nat) batch →
  (m ≤ length batch)%nat →
  ∃ st, for_each (collate_step batch ids) (Py.range (Z.of_nat m))
          (zeros3 zero (length batch) feature_dim max_len,
           replicate (length batch) None) = Ok st
        ∧ collated zero batch ids feature_dim max_len m st.
Proof.
  intros Hperm Hbatch. induction m as [|m IH]; intros Hm.
  - eexists. split; [done|]. unfold collated. simpl.
    split; [done|]. split; [by rewrite length_replicate|].
    intros i Hi. split; [by apply lookup_replicate_2|done].
  - destruct IH as (st & Hloop & Hinv); [lia|].
    destruct (collate_step_spec batch ids feature_dim max_len m st) as (st' & Hstep & Hinv');
      [done|done|lia|done|].
    exists st'. rewrite range_snoc, for_each_app, Hloop. simpl. by rewrite Hstep.
Qed.

(** C9: for a non-empty batch of mel tensors with [feature_dim] rows and at
    most [max_len] frames each, [MelCollate] returns a tensor of shape
    [(N, feature_dim, max_len)] and a length vector; row [i] is the item the
    descending sort puts at place [i], with the item's frames in columns
    below its length and zeros from there to [max_len]; the length vector
    holds the true lengths in that order, which is descending. *)
Theorem collate_pads_sorted (max_len feature_dim : nat) (batch : list (Tensor2 F * unit)) :
  batch ≠ [] →
  Forall (λ x, size0 x.1 = feature_dim ∧ (size1 x.1 ≤ max_len)%nat) batch →
  ∃ mel_padded mel_lengths ids sorted,
    MelCollate.__call__ zero max_len batch = Ok (mel_padded, mel_lengths)
    ∧ shape3 mel_padded = (length batch, feature_dim, max_len)
    ∧ ids ≡ₚ Py.range (Py.len batch)
    ∧ mel_lengths = Some <$> sorted
    ∧ length sorted = length batch
    ∧ Sorted Z.ge sorted
    ∧ ∀ (i : nat) (id : Z), ids !! i = Some id →
        ∃ mel, batch !! Z.to_nat id = Some (mel, ())
               ∧ sorted !! i = Some (Z.of_nat (size1 mel))
               ∧ ∀ c k, (c < feature_dim)%nat → (k < max_len)%nat →
                   at3 mel_padded i c k
                   = if decide (k < size1 mel)%nat then at2 mel c k else zero.
Proof.
  intros Hne Hbatch. unfold MelCollate.__call__.
  destruct batch as [|first batch']; [done|].
  remember (first :: batch') as batch eqn:Hb.
  set (lens := (λ x : Tensor2 F * unit, Z.of_nat (size1 x.1)) <$> batch).
  set (ids := argsort_descending lens).
  assert (ids ≡ₚ Py.range (Py.len batch)) as Hperm.
  { unfold ids. rewrite argsort_perm. unfold lens, Py.len. by rewrite length_fmap. }
  assert (length ids = length batch) as Hidslen.
  { rewrite Hperm, length_range. unfold Py.len. lia. }
  assert (Py.getitem batch 0 = Ok first) as -> by (rewrite Hb; done).
  simpl. assert (size0 first.1 = feature_dim) as ->.
  { rewrite Forall_forall in Hbatch. apply (Hbatch first). rewrite Hb. by left. }
  destruct (collate_loop_spec batch ids feature_dim max_len (length batch) Hperm Hbatch)
    as ([t ls] & Hloop & Hshape & Hlen & Hrows); [done|].
  unfold Py.len at 1. rewrite Hidslen, Hloop. simpl in *.
  set (sorted := omap (λ k, lens !! Z.to_nat k) ids).
  destruct (omap_all_Some (λ k, lens !! Z.to_nat k) ids) as [Hslen Hslookup].
  { apply Forall_forall. intros k Hk. rewrite Hperm in Hk. apply elem_of_range in Hk.
    apply lookup_lt_is_Some_2. unfold lens. rewrite length_fmap. unfold Py.len in Hk. lia. }
  fold sorted in Hslen, Hslookup.
  assert (∀ (i : nat) id, ids !! i = Some id →
            ∃ mel, batch !! Z.to_nat id = Some (mel, ())
                   ∧ sorted !! i = Some (Z.of_nat (size1 mel))
                   ∧ ls !! i = Some (Some (Z.of_nat (size1 mel)))
                   ∧ ∀ c k, (c < feature_dim)%nat → (k < max_len)%nat →
                       at3 t i c k
                       = if decide (k < size1 mel)%nat then at2 mel c k else zero) as Hrow.
  { intros i id Hid. pose proof (lookup_lt_Some _ _ _ Hid) as Hi.
    specialize (Hrows i ltac:(lia)). rewrite decide_True in Hrows by lia.
    destruct Hrows as (id' & mel & Hid' & Hmel & Hls & Hdata).
    rewrite Hid in Hid'. injection Hid' as <-.
    exists mel. split; [done|]. split; [|done].
    rewrite Hslookup, Hid. simpl. unfold lens. by rewrite list_lookup_fmap, Hmel. }
  exists t, ls, ids, sorted. split; [done|]. split; [done|]. split; [done|].
  split; [|split; [lia|split; [apply argsort_sorted|]]].
  - apply list_eq. intros i. rewrite list_lookup_fmap.
    destruct (ids !! i) as [id|] eqn:Hid.
    + destruct (Hrow i id Hid) as (mel & _ & -> & -> & _). done.
    + apply lookup_ge_None in Hid.
      rewrite (lookup_ge_None_2 ls), (lookup_ge_None_2 sorted) by lia. done.
  - intros i id Hid. destruct (Hrow i id Hid) as (mel & ? & ? & _ & ?). by exists mel.
Qed.

End collate_facts.

Lemma collate_pads_sorted_witness :
  ∃ mel_padded mel_lengths ids sorted,
    MelCollate.__call__ 0 20 example_batch = Ok (mel_padded, mel_lengths)
    ∧ shape3 mel_padded = (length example_batch, 2%nat, 20%nat)
    ∧ ids ≡ₚ Py.range (Py.len example_batch)
    ∧ mel_lengths = Some <$> sorted
    ∧ length sorted = length example_batch
    ∧ Sorted Z.ge sorted
    ∧ ∀ (i : nat) (id : Z), ids !! i = Some id →
        ∃ mel, example_batch !! Z.to_nat id = Some (mel, ())
               ∧ sorted !! i = Some (Z.of_nat (size1 mel))
               ∧ ∀ c k, (c < 2)%nat → (k < 20)%nat →
                   at3 mel_padded i c k
                   = if decide (k < size1 mel)%nat then at2 mel c k else 0.
Proof.
  apply (collate_pads_sorted 0 20 2 example_batch).
  - done.
  - repeat constructor; simpl; lia.
Defined.

Example collate_scenario :
  (λ r, (shape3 r.1, r.2, at3 r.1 1 1 6, at3 r.1 1 1 7, at3 r.1 2 0 2, at3 r.1 2 0 3))
    <$> MelCollate.__call__ 0 20 example_batch
  = Ok ((3%nat, 2%nat, 20%nat), [Some 10; Some 7; Some 3], 107, 0, 3, 0).
Proof. vm_compute. reflexivity. Qed.

(** ** The loaders: shuffled paths, unshuffled lengths *)

Lemma lists_differ {A} `{EqDecision A} (l1 l2 : list A) :
  length l1 = length l2 → l1 ≠ l2 →
  ∃ (i : nat) x y, l1 !! i = Some x ∧ l2 !! i = Some y ∧ x ≠ y.
Proof.
  revert l2. induction l1 as [|a l1 IH]; intros [|b l2] Hlen Hne; try done.
  destruct (decide (a = b)) as [->|Hab].
  - destruct (IH l2) as (i & x & y & ? & ? & ?); [by injection Hlen|congruence|].
    by exists (S i), x, y.
  - by exists 0%nat, a, b.
Qed.

Section loaders.
Context `{PyRandom}.

Lemma shuffle_order_lt (a : Z) (n k : nat) : k ∈ shuffle_order a n → (k < n)%nat.
Proof. rewrite shuffle_order_perm, elem_of_seq. lia. Qed.

Lemma length_seeded_shuffle {A} (a : Z) (x : list A) :
  length (seeded_shuffle a x) = length x.
Proof.
  unfold seeded_shuffle.
  destruct (omap_all_Some (λ k, x !! k) (shuffle_order a (length x))) as [-> _].
  - apply Forall_forall. intros k Hk%shuffle_order_lt. by apply lookup_lt_is_Some_2.
  - etrans; [apply Permutation_length, shuffle_order_perm|apply length_seq].
Qed.

Lemma seeded_shuffle_elem_of {A} (a : Z) (x : list A) (i : nat) (y : A) :
  seeded_shuffle a x !! i = Some y → ∃ j : nat, x !! j = Some y.
Proof.
  intros Hy%list_elem_of_lookup_2. unfold seeded_shuffle in Hy.
  apply list_elem_of_omap in Hy as (j & _ & Hj). eauto.
Qed.

(** What both constructors do with the manifest, stated once. *)
Lemma shuffled_paths_mismatch (lines : list ManifestLine) (hps : HParams) :
  NoDup (line_path <$> lines) →
  NoDup (clamp_length hps <$> (line_length <$> lines)) →
  seeded_shuffle 1234 (line_path <$> lines) ≠ line_path <$> lines →
  ∃ (i : nat) p l l',
    seeded_shuffle 1234 (line_path <$> lines) !! i = Some p
    ∧ (clamp_length hps <$> (line_length <$> lines)) !! i = Some l
    ∧ recorded_length lines hps p = Some l'
    ∧ l' ≠ l.
Proof.
  intros Hpaths Hlens Hmoved.
  destruct (lists_differ _ _ (length_seeded_shuffle 1234 _) Hmoved)
    as (i & p & p' & Hp & Hp' & Hne).
  destruct (seeded_shuffle_elem_of _ _ _ _ Hp) as [j Hj].
  assert (i ≠ j) as Hij by (intros ->; congruence).
  rewrite list_lookup_fmap in Hp', Hj.
  destruct (lines !! i) as [ln_i|] eqn:Hi; [|done].
  destruct (lines !! j) as [ln_j|] eqn:Hlj; [|done].
  simpl in Hp', Hj. injection Hp' as <-. injection Hj as <-.
  exists i, (line_path ln_j), (clamp_length hps (line_length ln_i)),
    (clamp_length hps (line_length ln_j)).
  split; [done|]. split; [by rewrite !list_lookup_fmap, Hi|]. split.
  - unfold recorded_length.
    destruct (list_find (λ ln, line_path ln = line_path ln_j) lines) as [[j' ln']|] eqn:Hfind.
    + apply list_find_Some in Hfind as (Hj' & Hpath & _). simpl.
      assert (j' = j) as ->; [|congruence].
      apply (NoDup_lookup _ _ _ (line_path ln_j) Hpaths);
        rewrite list_lookup_fmap; [rewrite Hj'|rewrite Hlj]; simpl; congruence.
    + apply list_find_None in Hfind. rewrite Forall_forall in Hfind.
      exfalso. apply (Hfind ln_j); [by eapply list_elem_of_lookup_2|done].
  - intros Heq. apply Hij.
    apply (NoDup_lookup _ _ _ (clamp_length hps (line_length ln_i)) Hlens);
      rewrite !list_lookup_fmap; [rewrite Hi|rewrite Hlj]; simpl; congruence.
Qed.

(** C3: both constructors shuffle the path list with the fixed seed and keep
    the length list in manifest order.  So for every manifest of distinct
    paths and distinct lengths that the seeded shuffle does not leave in
    place, some index [i] has in [lengths[i]] a length other than the one the
    manifest records for the file at [npys[i]] (or [npzs[i]]). *)
Theorem shuffle_breaks_length_association (lines : list ManifestLine) (hps : HParams)
    (return_name : bool) :
  NoDup (line_path <$> lines) →
  NoDup (clamp_length hps <$> (line_length <$> lines)) →
  seeded_shuffle 1234 (line_path <$> lines) ≠ line_path <$> lines →
  (let self := MelLoader.__init__ lines hps return_name in
   MelLoader.npys self = seeded_shuffle 1234 (line_path <$> lines)
   ∧ MelLoader.lengths self = clamp_length hps <$> (line_length <$> lines)
   ∧ ∃ (i : nat) p l l',
       MelLoader.npys self !! i = Some p ∧ MelLoader.lengths self !! i = Some l
       ∧ recorded_length lines hps p = Some l' ∧ l' ≠ l)
  ∧ (let self := AudioMelMixedMaskRandomLoader.__init__ lines hps return_name in
     AudioMelMixedMaskRandomLoader.npzs self = seeded_shuffle 1234 (line_path <$> lines)
     ∧ AudioMelMixedMaskRandomLoader.lengths self
       = clamp_length hps <$> (line_length <$> lines)
     ∧ ∃ (i : nat) p l l',
         AudioMelMixedMaskRandomLoader.npzs self !! i = Some p
         ∧ AudioMelMixedMaskRandomLoader.lengths self !! i = Some l
         ∧ recorded_length lines hps p = Some l' ∧ l' ≠ l).
Proof.
  intros Hpaths Hlens Hmoved.
  pose proof (shuffled_paths_mismatch lines hps Hpaths Hlens Hmoved) as Hmis.
  split; simpl; (split; [done|]); (split; [done|]); exact Hmis.
Qed.

End loaders.

(** The model of the interpreter's generator gives what CPython 3 prints
    for [random.seed(1234)] followed by four [random.getrandbits(32)], and
    for the shuffles of [list(range(2))] and [list(range(3))]. *)
Example mersenne_seed_1234_outputs :
  (let '(y1, st) := Mersenne.genrand_uint32 (Mersenne.seed 1234) in
   let '(y2, st) := Mersenne.genrand_uint32 st in
   let '(y3, st) := Mersenne.genrand_uint32 st in
   let '(y4, _) := Mersenne.genrand_uint32 st in
   [y1; y2; y3; y4])
  = [4150886329; 3342196574; 1892932127; 501869158].
Proof. vm_compute. reflexivity. Qed.

Example shuffle_order_1234 :
  shuffle_order 1234 2 = [0; 1]%nat ∧ shuffle_order 1234 3 = [2; 0; 1]%nat.
Proof. split; vm_compute; reflexivity. Qed.

Lemma shuffle_breaks_length_association_witness :
  (let self := MelLoader.__init__ example_manifest example_hps false in
   MelLoader.npys self = seeded_shuffle 1234 (line_path <$> example_manifest)
   ∧ MelLoader.lengths self = clamp_length example_hps <$> (line_length <$> example_manifest)
   ∧ ∃ (i : nat) p l l',
       MelLoader.npys self !! i = Some p ∧ MelLoader.lengths self !! i = Some l
       ∧ recorded_length example_manifest example_hps p = Some l' ∧ l' ≠ l)
  ∧ (let self := AudioMelMixedMaskRandomLoader.__init__ example_manifest example_hps false in
     AudioMelMixedMaskRandomLoader.npzs self
     = seeded_shuffle 1234 (line_path <$> example_manifest)
     ∧ AudioMelMixedMaskRandomLoader.lengths self
       = clamp_length example_hps <$> (line_length <$> example_manifest)
     ∧ ∃ (i : nat) p l l',
         AudioMelMixedMaskRandomLoader.npzs self !! i = Some p
         ∧ AudioMelMixedMaskRandomLoader.lengths self !! i = Some l
         ∧ recorded_length example_manifest example_hps p = Some l' ∧ l' ≠ l).
Proof.
  apply (shuffle_breaks_length_association example_manifest example_hps false).
  - apply (bool_decide_unpack _). vm_compute. exact I.
  - apply (bool_decide_unpack _). vm_compute. exact I.
  - intros Heq. vm_compute in Heq. discriminate.
Defined.

Example shuffled_loader :
  MelLoader.npys (MelLoader.__init__ example_manifest example_hps false)
  = ["c.npy"; "a.npy"; "b.npy"]
  ∧ MelLoader.lengths (MelLoader.__init__ example_manifest example_hps false)
    = [10; 20; 30].
Proof. split; vm_compute; reflexivity. Qed.

(** * Further properties of the sampler *)

(** ** _bisect on arbitrary boundaries *)

(** X1: with its default bounds [_bisect] never raises, whatever the
    boundary list (empty, one entry, out of order): it answers [-1] or an
    index [i] of a bucket with [boundaries[i] < x <= boundaries[i+1]]. *)
Theorem bisect_never_raises (boundaries : list Z) (x : Z) :
  ∃ r, bisect boundaries x = Ok r
       ∧ (r = -1
          ∨ ∃ (i : nat) b b', r = Z.of_nat i ∧ boundaries !! i = Some b
                              ∧ boundaries !! S i = Some b' ∧ b < x ≤ b').
Proof.
  destruct (bisect_sound boundaries x) as (r & Hr & Hcases).
  exists r. split; [done|].
  destruct Hcases as [?|[Hrange (b & b' & Hb & Hb' & Hx)]]; [by left|right].
  exists (Z.to_nat r), b, b'. split; [lia|]. split; [done|]. split; [|done].
  by replace (S (Z.to_nat r)) with (Z.to_nat (r + 1)) by lia.
Qed.

(** With bounds of the caller's the search can leave the list. *)
Example bisect_out_of_bounds : _bisect [0; 10] 50 0 5 = Raise IndexError.
Proof. reflexivity. Qed.

(** ** The partition _create_buckets builds *)

Lemma in_range_iff_interval (boundaries : list Z) (x b0 bK : Z) :
  strictly_increasing boundaries →
  head boundaries = Some b0 → last boundaries = Some bK →
  (∃ k, 0 ≤ k ∧ bisect boundaries x = Ok k) ↔ b0 < x ≤ bK.
Proof.
  intros Hs Hhead Hlast. rewrite head_lookup in Hhead. rewrite last_lookup in Hlast.
  split.
  - intros (k & Hk & Hbis).
    destruct (bisect_sound boundaries x) as (r & Hr & Hcases).
    rewrite Hr in Hbis. injection Hbis as ->.
    destruct Hcases as [?|[Hrange (b & b' & Hb & Hb' & Hx)]]; [lia|].
    pose proof (strictly_increasing_lookup_le boundaries 0 (Z.to_nat k) b0 b Hs
                  ltac:(lia) Hhead Hb).
    pose proof (lookup_lt_Some _ _ _ Hb').
    pose proof (strictly_increasing_lookup_le boundaries (Z.to_nat (k + 1))
                  (pred (length boundaries)) b' bK Hs ltac:(lia) Hb' Hlast).
    lia.
  - intros Hx.
    destruct (interval_exists x boundaries b0 bK) as (i & c & c' & Hc & Hc' & Hxc);
      [by rewrite head_lookup|by rewrite last_lookup|done|].
    exists (Z.of_nat i). split; [lia|].
    apply (_bisect_complete _ _ _ _ i c c'); try done; try lia.
    apply lookup_lt_Some in Hc'. unfold Py.len. lia.
Qed.

Lemma elem_of_found_buckets (lengths boundaries : list Z) (i : Z) :
  i ∈ mjoin (found_buckets lengths boundaries)
  ↔ 0 ≤ i < Py.len lengths
    ∧ ∃ k, 0 ≤ k ∧ item_bucket boundaries lengths i = Ok k.
Proof.
  unfold found_buckets. rewrite list_elem_of_join. split.
  - intros (bucket & Hi & (k & -> & Hk%elem_of_range)%list_elem_of_fmap).
    apply elem_of_bucket_members in Hi as [Hib Hrange].
    split; [done|]. exists k. split; [lia|done].
  - intros (Hrange & k & Hk & Hib).
    exists (bucket_members boundaries lengths (Py.len lengths) k). split.
    + by apply elem_of_bucket_members.
    + apply list_elem_of_fmap. exists k. split; [done|]. apply elem_of_range.
      split; [done|]. unfold item_bucket in Hib.
      destruct (Py.getitem lengths i) as [x|]; [|done]. simpl in Hib.
      destruct (bisect_sound boundaries x) as (r & Hr & Hcases).
      rewrite Hr in Hib. injection Hib as ->. destruct Hcases as [|[? _]]; lia.
Qed.

Lemma StronglySorted_filter_range (P : Z → Prop) `{∀ x, Decision (P x)} (n : Z) :
  StronglySorted Z.lt (filter P (Py.range n)).
Proof.
  unfold Py.range. generalize 0.
  destruct (decide (0 ≤ n)) as [Hn|Hn]; [|intros; by rewrite seqZ_nil by lia; constructor].
  rewrite <- (Z2Nat.id n) by done. generalize (Z.to_nat n). clear. intros m.
  induction m as [|m IH]; intros start; [rewrite seqZ_nil by lia; constructor|].
  rewrite seqZ_cons by lia. replace (Z.pred (Z.of_nat (S m))) with (Z.of_nat m) by lia.
  rewrite filter_cons. case_decide; [|apply IH].
  constructor; [apply IH|].
  apply Forall_forall. intros y [_ Hy%elem_of_seqZ]%list_elem_of_filter. lia.
Qed.

(** X2: what [_create_buckets] returns on strictly increasing boundaries
    [b0 .. bK]: the boundary list stays one longer than the bucket list; an
    item index is in a bucket exactly when its length lies in [(b0, bK]], and
    then in one bucket only and once; every bucket lists its items in
    increasing order; and only the first bucket can be empty. *)
Theorem create_buckets_partition (lengths boundaries : list Z) (R B b0 bK : Z)
    (bnds : list Z) (buckets : list (list Z)) (targets : list Z) :
  strictly_increasing boundaries →
  head boundaries = Some b0 → last boundaries = Some bK →
  _create_buckets lengths boundaries R B = Ok (bnds, buckets, targets) →
  length bnds = S (length buckets)
  ∧ NoDup (mjoin buckets)
  ∧ (∀ i : Z, i ∈ mjoin buckets
       ↔ 0 ≤ i ∧ ∃ x, lengths !! Z.to_nat i = Some x ∧ b0 < x ≤ bK)
  ∧ Forall (StronglySorted Z.lt) buckets
  ∧ (∀ (k : nat) bucket, buckets !! S k = Some bucket → bucket ≠ []).
Proof.
  intros Hs Hhead Hlast Hc.
  assert (boundaries ≠ []) as Hne by (by destruct boundaries).
  destruct (create_buckets_invariants _ _ _ _ _ _ _ Hc Hne) as (Hlen & Hnodup & _ & Htail).
  apply create_buckets_inv in Hc as (-> & -> & _).
  split; [done|]. split; [done|]. split; [|split; [|done]].
  - intros i. rewrite join_kept_buckets, elem_of_found_buckets.
    split.
    + intros (Hrange & k & Hk & Hib).
      destruct (getitem_in_range lengths i Hrange) as (x & Hx & Hlookup).
      unfold item_bucket in Hib. rewrite Hx in Hib. simpl in Hib.
      split; [lia|]. exists x. split; [done|].
      apply (in_range_iff_interval boundaries x b0 bK Hs Hhead Hlast). eauto.
    + intros (Hi & x & Hlookup & Hx).
      pose proof (lookup_lt_Some _ _ _ Hlookup) as Hlt.
      split; [unfold Py.len; lia|].
      apply (in_range_iff_interval boundaries x b0 bK Hs Hhead Hlast) in Hx
        as (k & Hk & Hbis).
      exists k. split; [done|].
      rewrite <- (Z2Nat.id i) by done. by rewrite (item_bucket_lookup _ _ _ x).
  - apply Forall_forall. intros bucket Hin%kept_buckets_subseteq.
    unfold found_buckets in Hin. apply list_elem_of_fmap in Hin as (k & -> & _).
    apply StronglySorted_filter_range.
Qed.

Lemma create_buckets_partition_witness :
  length [0; 10; 40] = S (length [[0; 3]; [1; 2]])
  ∧ NoDup (mjoin [[0; 3]; [1; 2]])
  ∧ (∀ i : Z, i ∈ mjoin [[0; 3]; [1; 2]]
       ↔ 0 ≤ i ∧ ∃ x, [5; 35; 40; 7; 100; 0] !! Z.to_nat i = Some x ∧ 0 < x ≤ 40)
  ∧ Forall (StronglySorted Z.lt) [[0; 3]; [1; 2]]
  ∧ (∀ (k : nat) bucket, [[0; 3]; [1; 2]] !! S k = Some bucket → bucket ≠ []).
Proof.
  apply (create_buckets_partition [5; 35; 40; 7; 100; 0] [0; 10; 20; 30; 40] 2 2 0 40
           [0; 10; 40] [[0; 3]; [1; 2]] [4; 4]).
  - unfold strictly_increasing. repeat constructor; lia.
  - reflexivity.
  - reflexivity.
  - reflexivity.
Defined.

(** ** The compacted boundaries still bound the buckets *)

Lemma bounded_by_weaken (lengths : list Z) (lo lo' : Z) buckets closers :
  bounded_by lengths lo buckets closers → lo' ≤ lo →
  bounded_by lengths lo' buckets closers.
Proof.
  intros Hb Hle. destruct Hb as [|lo hi bucket rest closers Hhi Hitems Hrest];
    constructor; [lia| |done].
  eapply Forall_impl; [done|]. intros i (x & ? & ?). exists x. split; [done|lia].
Qed.

Lemma bounded_by_kept (lengths : list Z) (lo : Z) rest closers :
  bounded_by lengths lo rest closers →
  bounded_by lengths lo (filter (λ b, b ≠ []) rest) (kept_closers rest closers).
Proof.
  induction 1 as [|lo hi bucket rest closers Hhi Hitems Hrest IH]; [constructor|].
  unfold kept_closers in *. simpl. rewrite !filter_cons. simpl.
  case_decide.
  - simpl. by constructor.
  - by eapply bounded_by_weaken.
Qed.

Lemma bounded_by_found (lengths boundaries : list Z) :
  strictly_increasing boundaries →
  ∀ (closers : list Z) (t : nat) (lo : Z),
    drop t boundaries = lo :: closers →
    bounded_by lengths lo
      (bucket_members boundaries lengths (Py.len lengths)
         <$> seqZ (Z.of_nat t) (Z.of_nat (length closers)))
      closers.
Proof.
  intros Hs. induction closers as [|hi closers IH]; intros t lo Hdrop; [constructor|].
  assert (boundaries !! t = Some lo) as Hlo.
  { rewrite <- (Nat.add_0_r t), <- lookup_drop, Hdrop. done. }
  assert (boundaries !! S t = Some hi) as Hhi.
  { replace (S t) with (t + 1)%nat by lia. rewrite <- lookup_drop, Hdrop. done. }
  rewrite seqZ_cons by (simpl; lia). rewrite fmap_cons.
  replace (Z.pred (Z.of_nat (length (hi :: closers)))) with (Z.of_nat (length closers))
    by (simpl; lia).
  replace (Z.succ (Z.of_nat t)) with (Z.of_nat (S t)) by lia.
  constructor.
  - apply Z.lt_le_incl. apply (strictly_increasing_lookup boundaries t (S t)); [done|lia|done..].
  - apply Forall_forall. intros i [Hib Hrange]%elem_of_bucket_members.
    destruct (getitem_in_range lengths i Hrange) as (x & Hx & Hlookup).
    exists x. split; [done|].
    unfold item_bucket in Hib. rewrite Hx in Hib. simpl in Hib.
    destruct (bisect_sound boundaries x) as (r & Hr & Hcases).
    rewrite Hr in Hib. injection Hib as ->.
    destruct Hcases as [?|[_ (b & b' & Hb & Hb' & Hxb)]]; [lia|].
    rewrite Nat2Z.id in Hb. replace (Z.to_nat (Z.of_nat t + 1)) with (S t) in Hb' by lia.
    by simplify_eq.
  - apply IH. replace (S t) with (t + 1)%nat by lia.
    by rewrite <- drop_drop, Hdrop.
Qed.

Lemma bounded_by_lookup (lengths : list Z) (lo : Z) buckets closers :
  bounded_by lengths lo buckets closers →
  ∀ (k : nat) bucket i, buckets !! k = Some bucket → i ∈ bucket →
    ∃ x b b', lengths !! Z.to_nat i = Some x
              ∧ (lo :: closers) !! k = Some b ∧ (lo :: closers) !! S k = Some b'
              ∧ b < x ≤ b'.
Proof.
  induction 1 as [|lo hi bucket rest closers Hhi Hitems Hrest IH];
    intros k bucket' i Hk Hi; [done|].
  destruct k as [|k].
  - injection Hk as <-. rewrite Forall_forall in Hitems.
    destruct (Hitems i Hi) as (x & ? & ?). by exists x, lo, hi.
  - by apply (IH k bucket' i).
Qed.

Lemma sublist_kept_closers (rest : list (list Z)) :
  ∀ closers, kept_closers rest closers `sublist_of` closers.
Proof.
  unfold kept_closers.
  induction rest as [|b rest IH]; intros closers; [apply sublist_nil_l|].
  destruct closers as [|c closers]; [apply sublist_nil_l|].
  change (zip (b :: rest) (c :: closers)) with ((b, c) :: zip rest closers).
  rewrite filter_cons. simpl. case_decide; simpl; by constructor.
Qed.

Lemma kept_buckets_bracket (lengths boundaries : list Z) :
  strictly_increasing boundaries →
  ∀ (k : nat) bucket i,
    kept_buckets (found_buckets lengths boundaries) !! k = Some bucket → i ∈ bucket →
    ∃ x b b', lengths !! Z.to_nat i = Some x
              ∧ kept_boundaries (found_buckets lengths boundaries) boundaries !! k = Some b
              ∧ kept_boundaries (found_buckets lengths boundaries) boundaries !! S k = Some b'
              ∧ b < x ≤ b'.
Proof.
  intros Hs.
  pose proof (length_found_buckets lengths boundaries) as Hlen.
  destruct boundaries as [|c0 [|c1 closers]].
  - intros k bucket i Hk. by rewrite (nil_length_inv (found_buckets lengths [])) in Hk.
  - intros k bucket i Hk. by rewrite (nil_length_inv (found_buckets lengths [c0])) in Hk.
  - pose proof (bounded_by_found lengths (c0 :: c1 :: closers) Hs (c1 :: closers) 0 c0
                  eq_refl) as Hfound.
    assert (found_buckets lengths (c0 :: c1 :: closers)
            = bucket_members (c0 :: c1 :: closers) lengths (Py.len lengths)
                <$> seqZ (Z.of_nat 0) (Z.of_nat (length (c1 :: closers)))) as Hfb.
    { unfold found_buckets, Py.range, Py.len. simpl length. do 2 f_equal. lia. }
    rewrite <- Hfb in Hfound.
    destruct (found_buckets lengths (c0 :: c1 :: closers)) as [|b0 rest]; [done|].
    inversion Hfound as [|? ? ? ? ? Hle Hitems Hrest]; subst.
    apply (bounded_by_lookup lengths c0 (b0 :: filter (λ b, b ≠ []) rest)
             (c1 :: kept_closers rest closers)).
    constructor; [done..|]. by apply bounded_by_kept.
Qed.

(** X3: on strictly increasing boundaries the boundary list
    [_create_buckets] leaves in [self.boundaries] is a strictly increasing
    selection of the original one, and it still brackets the buckets: an
    item of bucket [k] has its length in
    [(boundaries[k], boundaries[k+1]]] of the compacted list. *)
Theorem compacted_boundaries_bracket (lengths boundaries : list Z) (R B : Z)
    (bnds : list Z) (buckets : list (list Z)) (targets : list Z) :
  strictly_increasing boundaries →
  _create_buckets lengths boundaries R B = Ok (bnds, buckets, targets) →
  bnds `sublist_of` boundaries
  ∧ strictly_increasing bnds
  ∧ ∀ (k : nat) bucket i, buckets !! k = Some bucket → i ∈ bucket →
      ∃ x b b', lengths !! Z.to_nat i = Some x
                ∧ bnds !! k = Some b ∧ bnds !! S k = Some b' ∧ b < x ≤ b'.
Proof.
  intros Hs (-> & -> & _)%create_buckets_inv.
  assert (kept_boundaries (found_buckets lengths boundaries) boundaries
            `sublist_of` boundaries) as Hsub.
  { destruct (found_buckets lengths boundaries) as [|b0 rest]; [done|].
    destruct boundaries as [|c0 [|c1 closers]]; simpl; [done..|].
    do 2 constructor. apply sublist_kept_closers. }
  split; [done|]. split; [|by apply kept_buckets_bracket].
  unfold strictly_increasing in *. clear -Hs Hsub.
  induction Hsub as [|c l1 l2 Hsub IH|c l1 l2 Hsub IH]; [constructor| |].
  - apply StronglySorted_inv in Hs as [Hs Hall]. constructor; [by apply IH|].
    apply Forall_forall. intros y Hy. rewrite Forall_forall in Hall. apply Hall.
    by eapply elem_of_sublist.
  - apply StronglySorted_inv in Hs as [Hs _]. by apply IH.
Qed.

Lemma compacted_boundaries_bracket_witness :
  [0; 10; 40] `sublist_of` [0; 10; 20; 30; 40]
  ∧ strictly_increasing [0; 10; 40]
  ∧ ∀ (k : nat) bucket i, [[0; 3]; [1; 2]] !! k = Some bucket → i ∈ bucket →
      ∃ x b b', [5; 35; 40; 7; 100; 0] !! Z.to_nat i = Some x
                ∧ [0; 10; 40] !! k = Some b ∧ [0; 10; 40] !! S k = Some b' ∧ b < x ≤ b'.
Proof.
  apply (compacted_boundaries_bracket [5; 35; 40; 7; 100; 0] [0; 10; 20; 30; 40] 2 2
           [0; 10; 40] [[0; 3]; [1; 2]] [4; 4]).
  - unfold strictly_increasing. repeat constructor; lia.
  - reflexivity.
Defined.

(** ** What the batches of __iter__ hold *)

Lemma getitem_lookup {A} (l : list A) (i : nat) (x : A) :
  l !! i = Some x → Py.getitem l (Z.of_nat i) = Ok x.
Proof. intros Hx. apply getitem_Ok; [lia|]. by rewrite Nat2Z.id. Qed.

Lemma mapM_getitem_omap {A} (l : list A) (ids : list Z) (r : list A) :
  Forall (λ j, 0 ≤ j) ids →
  mapM (Py.getitem l) ids = Ok r → r = omap (λ j, l !! Z.to_nat j) ids.
Proof.
  intros Hpos Hr%mapM_Ok_inv. induction Hr as [|j x ids r Hj _ IH]; [done|].
  apply Forall_cons in Hpos as [Hj0 Hpos].
  apply getitem_Ok in Hj; [|done]. cbn [omap list_omap]. rewrite Hj. simpl.
  f_equal. by apply IH.
Qed.

Lemma omap_lookup_range {A} (l : list A) :
  omap (λ j, l !! Z.to_nat j) (Py.range (Py.len l)) = l.
Proof.
  destruct (omap_all_Some (λ j, l !! Z.to_nat j) (Py.range (Py.len l))) as [Hlen Hlookup].
  { apply Forall_forall. intros j Hj%elem_of_range. apply lookup_lt_is_Some_2.
    unfold Py.len in Hj. lia. }
  rewrite length_range in Hlen. unfold Py.len in Hlen. rewrite Nat2Z.id in Hlen.
  apply list_eq. intros k. rewrite Hlookup, lookup_range. case_bool_decide as Hk.
  - simpl. by rewrite Nat2Z.id.
  - simpl. symmetry. apply lookup_ge_None. unfold Py.len in Hk. lia.
Qed.

(** The final shuffle only reorders the batch list. *)
Lemma final_shuffle_perm {A} (batches shuffled : list A) (batch_ids : list Z) :
  batch_ids ≡ₚ Py.range (Py.len batches) →
  mapM (Py.getitem batches) batch_ids = Ok shuffled →
  shuffled ≡ₚ batches.
Proof.
  intros Hperm Hs. apply mapM_getitem_omap in Hs.
  - rewrite Hs, Hperm. by rewrite omap_lookup_range.
  - apply Forall_forall. intros j Hj. rewrite Hperm in Hj.
    apply elem_of_range in Hj. lia.
Qed.

(** Every entry of the subsample lands in one of the batches. *)
Lemma batching_covers (bucket sub : list Z) (B k : Z) (new : list (list Z)) :
  0 < B → 0 ≤ k → Py.len sub = k * B →
  batching bucket sub B = Ok new →
  ∀ (p : nat) idx, sub !! p = Some idx →
    ∃ batch item, batch ∈ new ∧ Py.getitem bucket idx = Ok item ∧ item ∈ batch.
Proof.
  intros HB Hk Hlen Hnew p idx Hp. unfold batching, Py.floordiv in Hnew.
  rewrite bool_decide_false in Hnew by lia. simpl in Hnew.
  rewrite Hlen, Z_div_mult in Hnew by lia.
  apply mapM_Ok_inv in Hnew.
  pose proof (lookup_lt_Some _ _ _ Hp) as Hplt. unfold Py.len in Hlen.
  assert (0 ≤ Z.of_nat p `div` B < k) as Hj.
  { split; [apply Z.div_pos; lia|]. apply Z.div_lt_upper_bound; lia. }
  pose proof (Z.div_mod (Z.of_nat p) B ltac:(lia)) as Hdm.
  pose proof (Z.mod_pos_bound (Z.of_nat p) B HB) as Hmod.
  set (j := Z.of_nat p `div` B) in *. clearbody j.
  assert (Py.range k !! Z.to_nat j = Some j) as Hrj.
  { rewrite lookup_range, bool_decide_true by lia. f_equal. lia. }
  destruct (Forall2_lookup_l _ _ _ _ _ Hnew Hrj) as (batch & Hbatch & Hchunk).
  simpl in Hchunk. rewrite slice_chunk in Hchunk by (unfold Py.len; nia).
  apply mapM_Ok_inv in Hchunk.
  assert (take (Z.to_nat B) (drop (Z.to_nat (j * B)) sub) !! Z.to_nat (Z.of_nat p `mod` B)
          = Some idx) as Hidx.
  { rewrite lookup_take_lt, lookup_drop by lia. rewrite <- Hp. f_equal. nia. }
  destruct (Forall2_lookup_l _ _ _ _ _ Hchunk Hidx) as (item & Hitem & Hget).
  exists batch, item. split; [by eapply list_elem_of_lookup_2|].
  split; [done|]. by eapply list_elem_of_lookup_2.
Qed.

Lemma extend_ids_prefix (ids ext : list Z) (rem n : Z) (p : nat) (j : Z) :
  extend_ids ids rem n = Ok ext → ids !! p = Some j → ext !! p = Some j.
Proof.
  unfold extend_ids. destruct (Py.floordiv rem n); [|done]. simpl.
  destruct (Py.mod_ rem n); [|done]. simpl. intros [= <-] Hp.
  by apply lookup_app_l_Some.
Qed.

Section content.
Context `{TorchRandom}.

(** A turn of the loop adds its batches to those collected so far. *)
Lemma bucket_step_acc (s : Sampler.t) (indices acc : list (list Z)) (i : Z) :
  bucket_step s indices acc i
  = (new ← bucket_step s indices [] i; Ok (acc ++ new)).
Proof.
  unfold bucket_step.
  destruct (Py.getitem (Sampler.buckets s) i) as [bucket|]; [|done]. simpl.
  destruct (Py.getitem indices i) as [ids|]; [|done]. simpl.
  destruct (Py.getitem (Sampler.num_samples_per_bucket s) i) as [target|]; [|done]. simpl.
  destruct (extend_ids _ _ _) as [ext|]; [|done]. simpl.
  destruct (subsample _ _ _) as [sub|]; [|done]. simpl.
  destruct (batching _ _ _) as [new|]; [|done]. done.
Qed.

Lemma bucket_loop_members (s : Sampler.t) (indices : list (list Z)) (m : nat)
    (batches : list (list Z)) :
  for_each (bucket_step s indices) (Py.range (Z.of_nat m)) [] = Ok batches →
  ∀ batch, batch ∈ batches ↔
    ∃ (i : nat) new, (i < m)%nat ∧ bucket_step s indices [] (Z.of_nat i) = Ok new
                     ∧ batch ∈ new.
Proof.
  revert batches. induction m as [|m IH]; intros batches Hloop batch.
  - injection Hloop as <-. split; [by intros ?%elem_of_nil|]. intros (i & ? & ? & _). lia.
  - rewrite range_snoc, for_each_app in Hloop.
    destruct (for_each _ (Py.range (Z.of_nat m)) []) as [before|] eqn:Hbefore; [|done].
    simpl in Hloop. rewrite bucket_step_acc in Hloop.
    destruct (bucket_step s indices [] (Z.of_nat m)) as [new|] eqn:Hnew; [|done].
    simpl in Hloop. injection Hloop as <-.
    rewrite elem_of_app, (IH before eq_refl). split.
    + intros [(i & new' & ? & ? & ?)|Hin].
      * exists i, new'. split; [lia|done].
      * exists m, new. split; [lia|done].
    + intros (i & new' & Hi & Hstep & Hin).
      destruct (decide (i = m)) as [->|].
      * right. rewrite Hnew in Hstep. by injection Hstep as <-.
      * left. exists i, new'. split; [lia|done].
Qed.

(** One bucket, seen from one rank: its batches are full and hold items of
    the bucket only; seen from all ranks, no item of the bucket is left
    out. *)
Lemma bucket_step_facts (s : Sampler.t) (indices : list (list Z)) (i : nat)
    (bucket ids : list Z) (target : Z) :
  ready s →
  Sampler.buckets s !! i = Some bucket →
  indices !! i = Some ids → ids ≡ₚ Py.range (Py.len bucket) →
  Sampler.num_samples_per_bucket s !! i = Some target →
  (∃ new, bucket_step s indices [] (Z.of_nat i) = Ok new
          ∧ Forall (λ batch, Py.len batch = Sampler.batch_size s
                             ∧ Forall (λ item, item ∈ bucket) batch) new)
  ∧ ∀ item, item ∈ bucket →
      ∃ r new batch, 0 ≤ r < Sampler.num_replicas s
                     ∧ bucket_step (on_rank r s) indices [] (Z.of_nat i) = Ok new
                     ∧ batch ∈ new ∧ item ∈ batch.
Proof.
  intros [HR HB Hrank Hne Htargets] Hbucket Hids Hperm Htarget.
  set (R := Sampler.num_replicas s) in *. set (B := Sampler.batch_size s) in *.
  pose proof (Forall2_lookup_lr _ _ _ _ _ _ Htargets Hbucket Htarget) as Hst.
  simpl in Hst.
  rewrite Forall_forall in Hne.
  pose proof (Hne bucket (list_elem_of_lookup_2 _ _ _ Hbucket)) as Hbne.
  destruct (extend_then_stride bucket ids R B target Hbne Hperm HR HB Hst)
    as (ext & Hext & Hextlen & Hextin & Hsub).
  pose proof Hst as Hst'.
  rewrite sample_target_Ok in Hst' by lia. injection Hst' as Hst'.
  pose proof (round_up_bounds (Py.len bucket) (R * B) ltac:(lia)) as [Hbounds Hmod].
  rewrite Hst' in Hbounds, Hmod.
  pose proof (Z.div_mod target (R * B) ltac:(lia)) as HT. rewrite Hmod, Z.add_0_r in HT.
  set (k := target `div` (R * B)) in *.
  assert (0 ≤ k) as Hk by (apply Z.div_pos; unfold Py.len in *; lia).
  assert (target `div` R = k * B) as HdivR.
  { rewrite HT. replace (R * B * k) with (k * B * R) by lia. by apply Z_div_mult; lia. }
  assert (∀ r, 0 ≤ r < R →
            ∃ sub new, subsample ext r R = Ok sub ∧ Py.len sub = k * B
                       ∧ (∀ q : nat, Z.of_nat q < k * B →
                            sub !! q = ext !! Z.to_nat (r + Z.of_nat q * R))
                       ∧ batching bucket sub B = Ok new
                       ∧ bucket_step (on_rank r s) indices [] (Z.of_nat i) = Ok new
                       ∧ Forall (λ batch, Py.len batch = B
                                          ∧ Forall (λ item, item ∈ bucket) batch) new)
    as Hper_rank.
  { intros r Hr. destruct (Hsub r Hr) as (sub & Hsubeq & Hsublen & Hsublookup).
    rewrite HdivR in Hsublen, Hsublookup.
    destruct (batching_spec bucket sub B k HB Hk Hsublen) as (new & Hnew & _ & Hfull).
    { apply Forall_forall. intros idx Hidx.
      apply list_elem_of_lookup_1 in Hidx as [q Hq].
      rewrite Hsublookup in Hq by (apply lookup_lt_Some in Hq; unfold Py.len in *; lia).
      rewrite Forall_forall in Hextin. apply Hextin. by eapply list_elem_of_lookup_2. }
    exists sub, new. repeat (split; [done|]). split; [|done].
    unfold bucket_step. simpl. fold R B.
    rewrite (getitem_lookup _ _ _ Hbucket), (getitem_lookup _ _ _ Hids),
      (getitem_lookup _ _ _ Htarget). simpl.
    rewrite Hext. simpl. rewrite Hsubeq. simpl. by rewrite Hnew. }
  split.
  - destruct (Hper_rank (Sampler.rank s) Hrank) as (sub & new & _ & _ & _ & _ & Hstep & Hfull).
    exists new. split; [|done]. by destruct s.
  - intros item Hitem.
    apply list_elem_of_lookup_1 in Hitem as [j Hj].
    pose proof (lookup_lt_Some _ _ _ Hj) as Hjlt.
    assert (Z.of_nat j ∈ ids) as Hin.
    { rewrite Hperm. apply elem_of_range. unfold Py.len. lia. }
    apply list_elem_of_lookup_1 in Hin as [p Hp].
    assert (p < length bucket)%nat as Hplt.
    { apply lookup_lt_Some in Hp. rewrite Hperm, length_range in Hp.
      unfold Py.len in Hp. lia. }
    pose proof (extend_ids_prefix _ _ _ _ _ _ Hext Hp) as Hextp.
    pose proof (Z.div_mod (Z.of_nat p) R ltac:(lia)) as Hdm.
    pose proof (Z.mod_pos_bound (Z.of_nat p) R HR) as Hpm.
    destruct (Hper_rank (Z.of_nat p `mod` R) Hpm)
      as (sub & new & _ & Hsublen & Hsublookup & Hnew & Hstep & _).
    assert (0 ≤ Z.of_nat p `div` R < k * B) as Hq.
    { split; [apply Z.div_pos; lia|]. apply Z.div_lt_upper_bound; [lia|].
      unfold Py.len in *. nia. }
    assert (sub !! Z.to_nat (Z.of_nat p `div` R) = Some (Z.of_nat j)) as Hsubq.
    { rewrite Hsublookup by lia. rewrite <- Hextp. f_equal. lia. }
    destruct (batching_covers bucket sub B k new HB Hk Hsublen Hnew _ _ Hsubq)
      as (batch & item' & Hbatch & Hget & Hitem').
    rewrite (getitem_lookup _ _ _ Hj) in Hget. injection Hget as <-.
    exists (Z.of_nat p `mod` R), new, batch. done.
Qed.

(** The batch list [__iter__] returns is, up to the order of the batches,
    the batches of the buckets one after the other. *)
Lemma iter_content (s : Sampler.t) (batches : list (list Z)) :
  (__iter__ s).2 = Ok batches →
  ∃ indices g collected,
    draw_indices (Sampler.shuffle s) (Sampler.buckets s)
      (manual_seed new_generator (Sampler.epoch s)) = (indices, g)
    ∧ for_each (bucket_step s indices) (Py.range (Py.len (Sampler.buckets s))) []
      = Ok collected
    ∧ batches ≡ₚ collected.
Proof.
  unfold __iter__. destruct (make_batches s) as [made|] eqn:Hmade; [|done].
  case_bool_decide; [|done]. simpl. intros [= <-].
  unfold make_batches in Hmade.
  destruct (draw_indices _ _ _) as [indices g] eqn:Hdraw.
  destruct (for_each _ _ _) as [collected|] eqn:Hloop; [|done]. simpl in Hmade.
  exists indices, g, collected. split; [done|]. split; [done|].
  destruct (Sampler.shuffle s); [|by injection Hmade as <-].
  pose proof (randperm_perm (length collected) g) as Hperm.
  destruct (randperm (length collected) g) as [batch_ids g'].
  by eapply final_shuffle_perm.
Qed.

End content.

(** ** The sampler as a whole *)

(** The buckets construction keeps: bucket 0, then non-empty buckets; and
    bucket 0 is empty exactly when no length lies in the first interval. *)
Lemma kept_buckets_first (lengths boundaries : list Z) (b0 b1 : Z) :
  strictly_increasing boundaries →
  boundaries !! 0%nat = Some b0 → boundaries !! 1%nat = Some b1 →
  ∃ first rest,
    kept_buckets (found_buckets lengths boundaries) = first :: rest
    ∧ Forall (λ bucket, bucket ≠ []) rest
    ∧ (first = [] ↔ Forall (λ x, ¬ (b0 < x ≤ b1)) lengths).
Proof.
  intros Hs Hb0 Hb1.
  pose proof (lookup_lt_Some _ _ _ Hb1) as Hlen.
  assert (found_buckets lengths boundaries !! 0%nat
          = Some (bucket_members boundaries lengths (Py.len lengths) 0)) as Hfirst.
  { unfold found_buckets. rewrite list_lookup_fmap, lookup_range.
    unfold Py.len. by rewrite bool_decide_true by lia. }
  destruct (found_buckets lengths boundaries) as [|first rest]; [done|].
  injection Hfirst as ->. eexists _, _. split; [done|]. split.
  - apply Forall_forall. by intros bucket [? _]%list_elem_of_filter.
  - split.
    + intros Hempty. apply Forall_forall. intros x Hx Hin.
      apply list_elem_of_lookup_1 in Hx as [i Hi].
      assert (Z.of_nat i ∈ bucket_members boundaries lengths (Py.len lengths) 0) as Habs.
      { apply elem_of_bucket_members. split.
        - rewrite (item_bucket_lookup _ _ _ x) by done.
          apply (_bisect_complete _ _ _ _ 0 b0 b1); try done; unfold Py.len; lia.
        - apply lookup_lt_Some in Hi. unfold Py.len. lia. }
      rewrite Hempty in Habs. by apply not_elem_of_nil in Habs.
    + intros Hnone. apply elem_of_nil_inv. intros i [Hi Hrange]%elem_of_bucket_members.
      destruct (getitem_in_range lengths i Hrange) as (y & Hy & Hlookup).
      unfold item_bucket in Hi. rewrite Hy in Hi. simpl in Hi.
      destruct (bisect_sound boundaries y) as (r & Hr & Hri).
      rewrite Hr in Hi. injection Hi as ->.
      destruct Hri as [|[_ (b & b' & Hb & Hb' & Hyb)]]; [done|].
      change (Z.to_nat 0) with 0%nat in Hb. change (Z.to_nat (0 + 1)) with 1%nat in Hb'.
      rewrite Hb0 in Hb. rewrite Hb1 in Hb'. injection Hb as <-. injection Hb' as <-.
      rewrite Forall_forall in Hnone. apply (Hnone y); [|done].
      by eapply list_elem_of_lookup_2.
Qed.

Lemma ready_on_rank (s : Sampler.t) (r : Z) :
  ready s → 0 ≤ r < Sampler.num_replicas s → ready (on_rank r s).
Proof. intros [? ? ? ? ?] Hr. by split. Qed.

Section whole.
Context `{TorchRandom}.

(** The sampler [__init__] builds from a proper configuration, at any
    epoch, is ready once bucket 0 is not empty. *)
Lemma init_ready_first (lengths boundaries : list Z) (b0 b1 B R rank e : Z)
    (shuffle : bool) (s : Sampler.t) :
  strictly_increasing boundaries →
  boundaries !! 0%nat = Some b0 → boundaries !! 1%nat = Some b1 →
  0 < B → 0 < R → 0 ≤ rank < R →
  __init__ lengths B boundaries R rank shuffle = Ok s →
  ¬ Forall (λ x, ¬ (b0 < x ≤ b1)) lengths →
  ready (set_epoch s e).
Proof.
  intros Hs Hb0 Hb1 HB HR Hrank Hinit Hsome.
  apply (init_ready lengths boundaries B R rank e shuffle s HB HR Hrank Hinit).
  apply init_inv in Hinit as (_ & _ & _ & _ & _ & _ & _ & ->).
  destruct (kept_buckets_first lengths boundaries b0 b1 Hs Hb0 Hb1)
    as (first & rest & -> & Hrest & Hfirst).
  constructor; [|done]. intros Hempty. apply Hsome. by apply Hfirst.
Qed.

(** An empty bucket 0 would have made [__iter__] raise: where it returns,
    no bucket is empty. *)
Lemma iter_Ok_nonempty (lengths boundaries : list Z) (B R rank e : Z) (shuffle : bool)
    (s : Sampler.t) (batches : list (list Z)) :
  __init__ lengths B boundaries R rank shuffle = Ok s →
  (__iter__ (set_epoch s e)).2 = Ok batches →
  Forall (λ bucket, bucket ≠ []) (Sampler.buckets s).
Proof.
  intros Hinit Hiter.
  pose proof Hinit as (_ & _ & _ & _ & _ & Ht & _ & Hbuckets)%init_inv.
  destruct (Sampler.buckets s) as [|first rest] eqn:Hb; [constructor|].
  constructor.
  - intros ->. apply mapM_Ok_inv in Ht.
    apply Forall2_cons_inv_l in Ht as (t0 & ts & _ & _ & Hts).
    rewrite (iter_empty_first_bucket (set_epoch s e) rest t0) in Hiter;
      [done|destruct s; simpl in *; by subst..].
  - destruct (found_buckets lengths boundaries) as [|f r]; [done|].
    injection Hbuckets as -> ->.
    apply Forall_forall. by intros bucket [? _]%list_elem_of_filter.
Qed.

(** X4: for a proper configuration (strictly increasing boundaries with at
    least one bucket, positive batch size and replica count, valid rank)
    [__iter__] raises exactly when no length lies in the first interval
    [(b0, b1]], whatever the other buckets hold, and what it raises is the
    ZeroDivisionError of the division by the length of bucket 0. *)
Theorem iter_raises_iff_first_interval_empty (lengths boundaries : list Z)
    (b0 b1 B R rank e : Z) (shuffle : bool) (s : Sampler.t) :
  strictly_increasing boundaries →
  boundaries !! 0%nat = Some b0 → boundaries !! 1%nat = Some b1 →
  0 < B → 0 < R → 0 ≤ rank < R →
  __init__ lengths B boundaries R rank shuffle = Ok s →
  (raises (__iter__ (set_epoch s e)).2 ↔ Forall (λ x, ¬ (b0 < x ≤ b1)) lengths)
  ∧ (raises (__iter__ (set_epoch s e)).2 →
     (__iter__ (set_epoch s e)).2 = Raise ZeroDivisionError).
Proof.
  intros Hs Hb0 Hb1 HB HR Hrank Hinit.
  destruct (decide (Forall (λ x, ¬ (b0 < x ≤ b1)) lengths)) as [Hnone|Hsome].
  - assert ((__iter__ (set_epoch s e)).2 = Raise ZeroDivisionError) as Hraise.
    { pose proof Hinit as (_ & _ & _ & _ & _ & Ht & _ & Hbuckets)%init_inv.
      destruct (kept_buckets_first lengths boundaries b0 b1 Hs Hb0 Hb1)
        as (first & rest & Hkept & _ & Hfirst).
      rewrite Hkept in Hbuckets. apply Hfirst in Hnone as ->.
      apply mapM_Ok_inv in Ht. rewrite Hbuckets in Ht.
      apply Forall2_cons_inv_l in Ht as (t0 & ts & _ & _ & Hts).
      rewrite (iter_empty_first_bucket (set_epoch s e) rest t0); [done|..];
        destruct s; simpl in *; by subst. }
    rewrite Hraise. split; [|done]. split; [done|]. intros _. by eexists.
  - pose proof (init_ready_first _ _ _ _ _ _ _ e _ _ Hs Hb0 Hb1 HB HR Hrank Hinit Hsome)
      as Hready.
    apply init_inv in Hinit as (_ & HsR & _ & _ & _ & _ & Hnum & _).
    destruct (iter_ready (set_epoch s e) Hready) as (batches & Hit & _).
    { destruct s; simpl in *. by subst. }
    rewrite Hit. simpl. split; [|by intros [? ?]]. split; [by intros [? ?]|done].
Qed.

(** X5: every batch [__iter__] returns, for a sampler built from strictly
    increasing boundaries with positive batch size and replica count, has
    exactly [batch_size] entries, and all of them come from one bucket: they
    are indices into [lengths] whose lengths lie in one interval
    [(boundaries[k], boundaries[k+1]]] of the sampler's boundary list. *)
Theorem batches_are_homogeneous (lengths boundaries : list Z) (B R rank e : Z)
    (shuffle : bool) (s : Sampler.t) (batches : list (list Z)) :
  strictly_increasing boundaries →
  0 < B → 0 < R → 0 ≤ rank < R →
  __init__ lengths B boundaries R rank shuffle = Ok s →
  (__iter__ (set_epoch s e)).2 = Ok batches →
  Forall (λ batch,
            Py.len batch = B
            ∧ ∃ (k : nat) lo hi,
                Sampler.boundaries s !! k = Some lo
                ∧ Sampler.boundaries s !! S k = Some hi
                ∧ Forall (λ item, 0 ≤ item < Py.len lengths
                                  ∧ ∃ x, lengths !! Z.to_nat item = Some x ∧ lo < x ≤ hi)
                         batch)
         batches.
Proof.
  intros Hs HB HR Hrank Hinit Hiter.
  apply Forall_forall. intros batch Hbatch.
  pose proof (iter_content _ _ Hiter) as (indices & g & collected & Hdraw & Hloop & Hperm).
  rewrite Hperm in Hbatch.
  pose proof (draw_indices_spec (Sampler.shuffle (set_epoch s e))
                (Sampler.buckets (set_epoch s e))
                (manual_seed new_generator (Sampler.epoch (set_epoch s e)))) as Hind.
  rewrite Hdraw in Hind. simpl in Hind.
  pose proof (proj1 (bucket_loop_members _ _ _ _ Hloop batch) Hbatch)
    as (i & new & Hi & Hstep & Hin).
  pose proof (iter_Ok_nonempty _ _ _ _ _ _ _ _ _ Hinit Hiter) as Hne.
  pose proof (init_ready _ _ _ _ _ e _ _ HB HR Hrank Hinit Hne) as Hready.
  destruct (lookup_lt_is_Some_2 (Sampler.buckets (set_epoch s e)) i) as [bucket Hbucket];
    [lia|].
  destruct (Forall2_lookup_r _ _ _ _ _ Hind Hbucket) as (ids & Hids & Hidsperm).
  destruct (Forall2_lookup_l _ _ _ _ _ (ready_targets _ Hready) Hbucket)
    as (target & Htarget & _).
  destruct (bucket_step_facts _ indices i bucket ids target Hready Hbucket Hids Hidsperm
              Htarget) as [(new' & Hstep' & Hfull) _].
  rewrite Hstep in Hstep'. injection Hstep' as <-.
  rewrite Forall_forall in Hfull. destruct (Hfull batch Hin) as [Hlen Hitems].
  pose proof Hinit as (_ & _ & _ & HsB & _)%init_inv.
  split; [by destruct s; simpl in *; subst|].
  rewrite init_spec in Hinit by lia. injection Hinit as <-. simpl in *.
  assert (∀ item, item ∈ bucket → 0 ≤ item < Py.len lengths) as Hrange.
  { intros item Hitem.
    assert (item ∈ mjoin (kept_buckets (found_buckets lengths boundaries))) as Hj.
    { apply list_elem_of_join. exists bucket. split; [done|].
      by eapply list_elem_of_lookup_2. }
    rewrite join_kept_buckets in Hj. by apply elem_of_found_buckets in Hj as [? _]. }
  destruct bucket as [|item0 bucket'].
  { rewrite Forall_forall in Hne.
    exfalso. by apply (Hne [] (list_elem_of_lookup_2 _ _ _ Hbucket)). }
  destruct (kept_buckets_bracket lengths boundaries Hs i (item0 :: bucket') item0 Hbucket)
    as (x0 & lo & hi & _ & Hlo & Hhi & _); [by left|].
  exists i, lo, hi. split; [done|]. split; [done|].
  eapply Forall_impl; [done|]. intros item Hitem. simpl in Hitem.
  split; [by apply Hrange|].
  destruct (kept_buckets_bracket lengths boundaries Hs i (item0 :: bucket') item Hbucket
              Hitem) as (x & lo' & hi' & Hx & Hlo' & Hhi' & Hxb).
  exists x. split; [done|]. by simplify_eq.
Qed.

End whole.

Lemma iter_raises_iff_first_interval_empty_witness :
  ∃ s, __init__ [15; 17; 3] 2 [0; 10; 20] 1 0 true = Ok s
       ∧ (raises (__iter__ (set_epoch s 4)).2
            ↔ Forall (λ x, ¬ (0 < x ≤ 10)) [15; 17; 3])
       ∧ (raises (__iter__ (set_epoch s 4)).2 →
          (__iter__ (set_epoch s 4)).2 = Raise ZeroDivisionError).
Proof.
  eexists. split; [vm_compute; reflexivity|].
  apply (iter_raises_iff_first_interval_empty [15; 17; 3] [0; 10; 20] 0 10 2 1 0 4 true).
  - unfold strictly_increasing. repeat constructor; lia.
  - reflexivity.
  - reflexivity.
  - lia.
  - lia.
  - lia.
  - vm_compute. reflexivity.
Defined.

Lemma batches_are_homogeneous_witness :
  ∃ s batches,
    __init__ [5; 35; 40; 7; 100; 0; 9] 2 [0; 10; 20; 30; 40] 2 1 true = Ok s
    ∧ (__iter__ (set_epoch s 3)).2 = Ok batches
    ∧ Forall (λ batch,
                Py.len batch = 2
                ∧ ∃ (k : nat) lo hi,
                    Sampler.boundaries s !! k = Some lo
                    ∧ Sampler.boundaries s !! S k = Some hi
                    ∧ Forall (λ item, 0 ≤ item < Py.len [5; 35; 40; 7; 100; 0; 9]
                                      ∧ ∃ x, [5; 35; 40; 7; 100; 0; 9] !! Z.to_nat item = Some x
                                             ∧ lo < x ≤ hi)
                             batch)
             batches.
Proof.
  eexists _, _. split; [vm_compute; reflexivity|]. split; [vm_compute; reflexivity|].
  apply (batches_are_homogeneous [5; 35; 40; 7; 100; 0; 9] [0; 10; 20; 30; 40] 2 2 1 3 true).
  - unfold strictly_increasing. repeat constructor; lia.
  - lia.
  - lia.
  - lia.
  - vm_compute. reflexivity.
  - vm_compute. reflexivity.
Defined.

Lemma sum_round_up_ge (d : Z) (buckets : list (list Z)) :
  0 < d →
  Py.len (mjoin buckets) ≤ Py.sum ((λ bucket, round_up d (Py.len bucket)) <$> buckets).
Proof.
  intros Hd. induction buckets as [|bucket buckets IH]; [done|].
  rewrite fmap_cons. unfold Py.sum, Py.len in *. cbn [foldr].
  change (mjoin (bucket :: buckets)) with (bucket ++ mjoin buckets).
  rewrite length_app. pose proof (round_up_bounds (Z.of_nat (length bucket)) d Hd).
  lia.
Qed.

Section ranks.
Context `{TorchRandom}.

(** X6: nothing in range is dropped.  For a proper configuration whose first
    interval holds some length, every dataset item whose length lies in
    [(b0, bK]] is, in every epoch, in a batch that [__iter__] hands to one
    of the ranks. *)
Theorem every_in_range_item_is_served (lengths boundaries : list Z)
    (b0 b1 bK B R e : Z) (shuffle : bool) (i : nat) (x : Z) :
  strictly_increasing boundaries →
  boundaries !! 0%nat = Some b0 → boundaries !! 1%nat = Some b1 →
  last boundaries = Some bK →
  0 < B → 0 < R →
  Exists (λ y, b0 < y ≤ b1) lengths →
  lengths !! i = Some x → b0 < x ≤ bK →
  ∃ rank s batches batch,
    0 ≤ rank < R
    ∧ __init__ lengths B boundaries R rank shuffle = Ok s
    ∧ (__iter__ (set_epoch s e)).2 = Ok batches
    ∧ batch ∈ batches ∧ Z.of_nat i ∈ batch.
Proof.
  intros Hs Hb0 Hb1 Hlast HB HR Hex Hi Hx.
  assert (¬ Forall (λ y, ¬ (b0 < y ≤ b1)) lengths) as Hsome.
  { intros Hall. rewrite Forall_forall in Hall.
    apply Exists_exists in Hex as (y & Hy & Hin). by apply (Hall y). }
  pose (buckets := kept_buckets (found_buckets lengths boundaries)).
  pose (targets := (λ bucket, round_up (R * B) (Py.len bucket)) <$> buckets).
  pose (s0 := Sampler.mk R 0 0 0 shuffle lengths B
                (kept_boundaries (found_buckets lengths boundaries) boundaries)
                buckets targets (Py.sum targets) (Py.sum targets `div` R) None).
  assert (∀ r, 0 ≤ r < R →
            __init__ lengths B boundaries R r shuffle = Ok (on_rank r s0)) as Hinit.
  { intros r Hr. rewrite init_spec by lia. done. }
  assert (∀ r, 0 ≤ r < R → ready (set_epoch (on_rank r s0) e)) as Hready.
  { intros r Hr.
    by apply (init_ready_first lengths boundaries b0 b1 B R r e shuffle _ Hs Hb0 Hb1 HB HR
                Hr (Hinit r Hr)). }
  (* the item is in one of the buckets *)
  assert (Z.of_nat i ∈ mjoin buckets) as Hmem.
  { unfold buckets. rewrite join_kept_buckets. apply elem_of_found_buckets. split.
    - apply lookup_lt_Some in Hi. unfold Py.len. lia.
    - rewrite (item_bucket_lookup _ _ _ x) by done.
      apply (in_range_iff_interval boundaries x b0 bK); [done| |done..].
      by rewrite head_lookup. }
  apply list_elem_of_join in Hmem as (bucket & Hitem & Hbucket).
  apply list_elem_of_lookup_1 in Hbucket as [k Hk].
  (* the per-bucket index lists of this epoch, the same on every rank *)
  destruct (draw_indices shuffle buckets (manual_seed new_generator e))
    as [indices g] eqn:Hdraw.
  pose proof (draw_indices_spec shuffle buckets (manual_seed new_generator e)) as Hind.
  rewrite Hdraw in Hind. simpl in Hind.
  destruct (Forall2_lookup_r _ _ _ _ _ Hind Hk) as (ids & Hids & Hidsperm).
  simpl in Hidsperm.
  assert (0 ≤ 0 < R) as H0 by lia.
  destruct (Forall2_lookup_l _ _ _ _ _ (ready_targets _ (Hready 0 H0)) Hk)
    as (target & Htarget & _).
  destruct (bucket_step_facts _ indices k bucket ids target (Hready 0 H0) Hk Hids
              Hidsperm Htarget) as [_ Hserved].
  destruct (Hserved _ Hitem) as (r & new & batch & Hr & Hstep & Hnew & Hin).
  simpl in Hr.
  destruct (iter_ready _ (Hready r Hr)) as (batches & Hit & _); [done|].
  exists r, (on_rank r s0), batches, batch.
  split; [done|]. split; [by apply Hinit|]. rewrite Hit. split; [done|]. split; [|done].
  assert ((__iter__ (set_epoch (on_rank r s0) e)).2 = Ok batches) as Hiter
    by by rewrite Hit.
  pose proof (iter_content _ _ Hiter) as (indices' & g' & collected & Hdraw' & Hloop & Hperm).
  simpl in Hdraw'. fold buckets in Hdraw'. rewrite Hdraw in Hdraw'.
  injection Hdraw' as <- <-.
  rewrite Hperm.
  apply (bucket_loop_members _ _ _ _ Hloop batch).
  exists k, new. split; [by eapply lookup_lt_Some|]. split; [exact Hstep|done].
Qed.

(** X7: all ranks get the same number of batches, in every epoch, and the
    batches of all ranks together hold [total_size] entries, which is at
    least the number of bucketed items: the padding of [__iter__] only adds. *)
Theorem ranks_get_equal_batch_counts (lengths boundaries : list Z)
    (b0 b1 B R r1 r2 e1 e2 : Z) (shuffle : bool) (s1 s2 : Sampler.t) :
  strictly_increasing boundaries →
  boundaries !! 0%nat = Some b0 → boundaries !! 1%nat = Some b1 →
  0 < B → 0 < R → 0 ≤ r1 < R → 0 ≤ r2 < R →
  Exists (λ y, b0 < y ≤ b1) lengths →
  __init__ lengths B boundaries R r1 shuffle = Ok s1 →
  __init__ lengths B boundaries R r2 shuffle = Ok s2 →
  ∃ batches1 batches2,
    (__iter__ (set_epoch s1 e1)).2 = Ok batches1
    ∧ (__iter__ (set_epoch s2 e2)).2 = Ok batches2
    ∧ Py.len batches1 = Py.len batches2
    ∧ R * (Py.len batches1 * B) = Sampler.total_size s1
    ∧ Py.len (mjoin (Sampler.buckets s1)) ≤ Sampler.total_size s1.
Proof.
  intros Hs Hb0 Hb1 HB HR Hr1 Hr2 Hex Hinit1 Hinit2.
  assert (¬ Forall (λ y, ¬ (b0 < y ≤ b1)) lengths) as Hsome.
  { intros Hall. rewrite Forall_forall in Hall.
    apply Exists_exists in Hex as (y & Hy & Hin). by apply (Hall y). }
  pose proof (init_ready_first _ _ _ _ _ _ _ e1 _ _ Hs Hb0 Hb1 HB HR Hr1 Hinit1 Hsome)
    as Hready1.
  pose proof (init_ready_first _ _ _ _ _ _ _ e2 _ _ Hs Hb0 Hb1 HB HR Hr2 Hinit2 Hsome)
    as Hready2.
  rewrite init_spec in Hinit1, Hinit2 by lia.
  injection Hinit1 as <-. injection Hinit2 as <-.
  destruct (iter_ready _ Hready1) as (batches1 & Hit1 & Hlen1 & Hmul1 & _); [done|].
  destruct (iter_ready _ Hready2) as (batches2 & Hit2 & Hlen2 & Hmul2 & _); [done|].
  exists batches1, batches2. rewrite Hit1, Hit2. simpl in *.
  split; [done|]. split; [done|]. split; [lia|].
  set (buckets := kept_buckets (found_buckets lengths boundaries)) in *.
  split.
  - rewrite Hmul1.
    assert (Forall (λ t, t `mod` (R * B) = 0)
              ((λ bucket, round_up (R * B) (Py.len bucket)) <$> buckets)) as Hall.
    { apply Forall_fmap, Forall_forall. intros bucket _. simpl.
      apply round_up_bounds. lia. }
    rewrite (sum_targets_div R B _ HR HB Hall).
    rewrite (sum_targets (R * B) _ ltac:(lia) Hall). ring.
  - apply sum_round_up_ge. lia.
Qed.

(** X8: with fewer than two boundaries there is no bucket.  For a rank the
    base class accepts, [__init__] accepts every batch size and keeps the
    boundary list, [__iter__] returns no batch in every epoch, and [__len__]
    is 0, unless the batch size is 0, where it raises the ZeroDivisionError
    [__init__] had no occasion for. *)
Theorem no_buckets_sampler (lengths boundaries : list Z) (B R rank e : Z)
    (shuffle : bool) :
  (length boundaries < 2)%nat → 0 ≤ rank < R →
  ∃ s, __init__ lengths B boundaries R rank shuffle = Ok s
       ∧ Sampler.buckets s = [] ∧ Sampler.boundaries s = boundaries
       ∧ Sampler.num_samples s = 0
       ∧ (__iter__ (set_epoch s e)).2 = Ok []
       ∧ __len__ s = if decide (B = 0) then Raise ZeroDivisionError else Ok 0.
Proof.
  intros Hlen Hrank.
  assert (_create_buckets lengths boundaries R B = Ok (boundaries, [], [])) as Hc.
  { destruct (decide (R * B = 0)) as [Hz|Hnz].
    - rewrite create_buckets_zero by done. by rewrite decide_False by lia.
    - rewrite create_buckets_spec by done.
      by destruct boundaries as [|c0 [|c1 closers]]; [..|simpl in Hlen; lia]. }
  unfold __init__. rewrite super_init_Ok by done. cbn [mbind result_bind].
  rewrite Hc. simpl. unfold Py.floordiv.
  rewrite bool_decide_false by lia. simpl. eexists. split; [done|]. simpl.
  split; [done|]. split; [done|]. split; [done|]. split.
  - unfold __iter__, make_batches. simpl.
    destruct shuffle; simpl; [|done].
    pose proof (randperm_perm 0 (manual_seed new_generator e)) as Hperm.
    destruct (randperm 0 (manual_seed new_generator e)) as [batch_ids g].
    simpl in Hperm. apply Permutation_nil_r in Hperm as ->. done.
  - unfold __len__, Py.floordiv. simpl.
    destruct (decide (B = 0)) as [->|HB]; [done|].
    by rewrite bool_decide_false by done.
Qed.

End ranks.

Lemma every_in_range_item_is_served_witness :
  ∃ rank s batches batch,
    0 ≤ rank < 2
    ∧ __init__ [5; 35; 40; 7; 100; 0; 9] 2 [0; 10; 20; 30; 40] 2 rank true = Ok s
    ∧ (__iter__ (set_epoch s 3)).2 = Ok batches
    ∧ batch ∈ batches ∧ Z.of_nat 2 ∈ batch.
Proof.
  apply (every_in_range_item_is_served [5; 35; 40; 7; 100; 0; 9] [0; 10; 20; 30; 40]
           0 10 40 2 2 3 true 2 40).
  - unfold strictly_increasing. repeat constructor; lia.
  - reflexivity.
  - reflexivity.
  - reflexivity.
  - lia.
  - lia.
  - apply Exists_cons_hd. lia.
  - reflexivity.
  - lia.
Defined.

Lemma ranks_get_equal_batch_counts_witness :
  ∃ s1 s2,
    __init__ [5; 35; 40; 7; 100; 0; 9] 2 [0; 10; 20; 30; 40] 2 0 true = Ok s1
    ∧ __init__ [5; 35; 40; 7; 100; 0; 9] 2 [0; 10; 20; 30; 40] 2 1 true = Ok s2
    ∧ ∃ batches1 batches2,
        (__iter__ (set_epoch s1 3)).2 = Ok batches1
        ∧ (__iter__ (set_epoch s2 8)).2 = Ok batches2
        ∧ Py.len batches1 = Py.len batches2
        ∧ 2 * (Py.len batches1 * 2) = Sampler.total_size s1
        ∧ Py.len (mjoin (Sampler.buckets s1)) ≤ Sampler.total_size s1.
Proof.
  eexists _, _. split; [vm_compute; reflexivity|]. split; [vm_compute; reflexivity|].
  apply (ranks_get_equal_batch_counts [5; 35; 40; 7; 100; 0; 9] [0; 10; 20; 30; 40]
           0 10 2 2 0 1 3 8 true).
  - unfold strictly_increasing. repeat constructor; lia.
  - reflexivity.
  - reflexivity.
  - lia.
  - lia.
  - lia.
  - lia.
  - apply Exists_cons_hd. lia.
  - vm_compute. reflexivity.
  - vm_compute. reflexivity.
Defined.

Lemma no_buckets_sampler_witness :
  ∃ s, __init__ [5; 35; 40] 0 [10] 2 1 true = Ok s
       ∧ Sampler.buckets s = [] ∧ Sampler.boundaries s = [10]
       ∧ Sampler.num_samples s = 0
       ∧ (__iter__ (set_epoch s 7)).2 = Ok []
       ∧ __len__ s = if decide (0 = 0) then Raise ZeroDivisionError else Ok 0.
Proof.
  apply (no_buckets_sampler [5; 35; 40] [10] 0 2 1 7 true).
  - simpl. lia.
  - lia.
Defined.

(** ** The loaders *)

Lemma omap_lookup_seq {A} (x : list A) :
  omap (λ k, x !! k) (seq 0 (length x)) = x.
Proof.
  destruct (omap_all_Some (λ k, x !! k) (seq 0 (length x))) as [Hlen Hlookup].
  { apply Forall_forall. intros k Hk%elem_of_seq. apply lookup_lt_is_Some_2. lia. }
  rewrite length_seq in Hlen.
  apply list_eq. intros k. rewrite Hlookup.
  destruct (decide (k < length x)%nat) as [Hk|Hk].
  - by rewrite lookup_seq_lt.
  - rewrite lookup_seq_ge by lia. simpl. symmetry. apply lookup_ge_None. lia.
Qed.

(** [random.shuffle] only reorders. *)
Lemma seeded_shuffle_perm `{PyRandom} {A} (a : Z) (x : list A) :
  seeded_shuffle a x ≡ₚ x.
Proof. unfold seeded_shuffle. by rewrite shuffle_order_perm, omap_lookup_seq. Qed.

Lemma slice_cols_window {F} (t : Tensor2 F) (a w : Z) :
  0 ≤ a → 0 ≤ w → a + w ≤ Z.of_nat (size1 t) →
  slice_cols t a (a + w)
  = mkTensor2 (size0 t) (Z.to_nat w) (λ c k, at2 t c (Z.to_nat a + k)%nat).
Proof.
  intros Ha Hw Hfit. unfold slice_cols, clamp_bound.
  rewrite !bool_decide_false by lia.
  rewrite (Z.min_l a), (Z.min_l (a + w)) by lia. f_equal. lia.
Qed.

Section loaders.
Context {F : Type} `{PyRandom} `{TorchRandom} `{PyRandint}.

(** What [MelLoader.__getitem__] hands out, whatever the index and the
    generator: the mel of one of the listed files, with at most
    [max_length] frames. *)
Lemma mel_getitem_inv (np_load : string → Tensor2 F) (self : MelLoader.t)
    (index : Z) (g : Rng) (row : Tensor2 F * unit) :
  0 ≤ MelLoader.max_length self →
  (MelLoaderItem.__getitem__ np_load self index g).1 = Ok row →
  ∃ path, path ∈ MelLoader.npys self
          ∧ size0 row.1 = size0 (np_load path)
          ∧ Z.of_nat (size1 row.1) ≤ MelLoader.max_length self.
Proof.
  intros Hmax. unfold MelLoaderItem.__getitem__, rand_bind, rand_lift, rand_ret.
  destruct (Py.getitem (MelLoader.npys self) index) as [path|] eqn:Hpath; [|done].
  assert (path ∈ MelLoader.npys self) as Hin.
  { unfold Py.getitem in Hpath. case_bool_decide; [|done].
    destruct (_ !! _) eqn:Hl; [|done]. injection Hpath as ->.
    by eapply list_elem_of_lookup_2. }
  case_bool_decide as Hlong.
  - destruct (randint_range 0 (Z.of_nat (size1 (np_load path)) - MelLoader.max_length self)
                g) as (n & Hn & Hrange); [lia|].
    destruct (randint 0 _ g) as [[n'|] g']; simpl in Hn; [|done].
    injection Hn as ->. simpl. intros [= <-]. exists path. split; [done|].
    rewrite slice_cols_window by lia. simpl. split; [done|lia].
  - simpl. intros [= <-]. exists path. simpl. split; [done|]. split; [done|lia].
Qed.

(** Inside the list, [MelLoader.__getitem__] does not raise. *)
Lemma mel_getitem_Ok (np_load : string → Tensor2 F) (self : MelLoader.t)
    (index : Z) (g : Rng) :
  0 ≤ index < MelLoader.__len__ self →
  is_Ok (MelLoaderItem.__getitem__ np_load self index g).1.
Proof.
  intros Hindex. unfold MelLoaderItem.__getitem__, rand_bind, rand_lift, rand_ret.
  destruct (getitem_in_range (MelLoader.npys self) index Hindex) as (path & -> & _).
  case_bool_decide as Hlong; [|by eexists].
  destruct (randint_range 0 (Z.of_nat (size1 (np_load path)) - MelLoader.max_length self)
              g) as (n & Hn & Hrange); [lia|].
  destruct (randint 0 _ g) as [[n'|] g']; simpl in Hn; [|done]. by eexists.
Qed.

(** X9: the sampler and the loader agree on the indices.  For a sampler
    built over the length list of a [MelLoader], every index of every batch
    [__iter__] returns is a position of the loader's file list, and
    [__getitem__] answers it without raising, whatever the state of the
    random generator.  The file list itself is a reordering of the paths of
    the manifest, and the length list has one entry per file. *)
Theorem sampled_indices_load (lines : list ManifestLine) (hps : HParams)
    (return_name : bool) (boundaries : list Z) (B R rank e : Z) (shuffle : bool)
    (s : Sampler.t) (batches : list (list Z)) (np_load : string → Tensor2 F) :
  0 < B → 0 < R → 0 ≤ rank < R →
  __init__ (MelLoader.lengths (MelLoader.__init__ lines hps return_name)) B boundaries
    R rank shuffle = Ok s →
  (__iter__ (set_epoch s e)).2 = Ok batches →
  let dataset := MelLoader.__init__ lines hps return_name in
  MelLoader.npys dataset ≡ₚ line_path <$> lines
  ∧ Py.len (MelLoader.lengths dataset) = MelLoader.__len__ dataset
  ∧ Forall (λ batch,
              Forall (λ index,
                        0 ≤ index < MelLoader.__len__ dataset
                        ∧ ∀ g, is_Ok (MelLoaderItem.__getitem__ np_load dataset index g).1)
                     batch)
           batches.
Proof.
  intros HB HR Hrank Hinit Hiter dataset.
  assert (Py.len (MelLoader.lengths dataset) = MelLoader.__len__ dataset) as Hlen.
  { unfold MelLoader.__len__, dataset, Py.len. simpl.
    by rewrite length_seeded_shuffle, !length_fmap. }
  split; [apply seeded_shuffle_perm|]. split; [done|].
  pose proof (iter_Ok_nonempty _ _ _ _ _ _ _ _ _ Hinit Hiter) as Hne.
  pose proof (init_ready _ _ _ _ _ e _ _ HB HR Hrank Hinit Hne) as Hready.
  pose proof Hinit as (_ & HsR & _ & _ & _ & _ & Hnum & Hbuckets)%init_inv.
  destruct (iter_ready _ Hready) as (batches' & Hit & _ & _ & _ & Hfull).
  { destruct s. simpl in *. by subst. }
  rewrite Hit in Hiter. injection Hiter as ->.
  eapply Forall_impl; [exact Hfull|]. intros batch [_ Hitems]. simpl.
  eapply Forall_impl; [exact Hitems|]. intros index Hindex. simpl in Hindex.
  assert (0 ≤ index < MelLoader.__len__ dataset) as Hrange.
  { rewrite <- Hlen. fold dataset in Hbuckets.
    replace (Sampler.buckets (set_epoch s e)) with (Sampler.buckets s) in Hindex
      by by destruct s.
    rewrite Hbuckets, join_kept_buckets in Hindex.
    by apply elem_of_found_buckets in Hindex as [? _]. }
  split; [done|]. intros g. by apply mel_getitem_Ok.
Qed.

(** X10: [MelLoader.__getitem__] crops to a window.  For a position of the
    file list and a non-negative [max_length] the call returns: a mel with
    the rows of the file's, [min(length, max_length)] frames, and those
    frames are the consecutive frames of the file's mel from some start on;
    a mel shorter than [max_length] comes back as it is, and then the random
    generator is not touched. *)
Theorem mel_getitem_crops (np_load : string → Tensor2 F) (self : MelLoader.t)
    (index : Z) (g : Rng) (path : string) :
  0 ≤ MelLoader.max_length self →
  Py.getitem (MelLoader.npys self) index = Ok path →
  ∃ (mel : Tensor2 F) (start : nat) (g' : Rng),
    MelLoaderItem.__getitem__ np_load self index g = (Ok (mel, ()), g')
    ∧ size0 mel = size0 (np_load path)
    ∧ Z.of_nat (size1 mel)
      = Z.min (Z.of_nat (size1 (np_load path))) (MelLoader.max_length self)
    ∧ (start + size1 mel ≤ size1 (np_load path))%nat
    ∧ (∀ c k, (k < size1 mel)%nat → at2 mel c k = at2 (np_load path) c (start + k))
    ∧ (Z.of_nat (size1 (np_load path)) < MelLoader.max_length self →
       mel = np_load path ∧ g' = g).
Proof.
  intros Hmax Hpath. unfold MelLoaderItem.__getitem__, rand_bind, rand_lift, rand_ret.
  rewrite Hpath. case_bool_decide as Hlong.
  - destruct (randint_range 0 (Z.of_nat (size1 (np_load path)) - MelLoader.max_length self)
                g) as (n & Hn & Hrange); [lia|].
    destruct (randint 0 _ g) as [[n'|] g']; simpl in Hn; [|done].
    injection Hn as ->.
    exists (slice_cols (np_load path) n (n + MelLoader.max_length self)), (Z.to_nat n), g'.
    split; [done|]. rewrite slice_cols_window by lia. simpl.
    split; [done|]. split; [lia|]. split; [lia|]. split; [done|]. lia.
  - exists (np_load path), 0%nat, g. split; [done|]. split; [done|].
    split; [lia|]. split; [lia|]. split; [done|]. done.
Qed.

End loaders.

Lemma sampled_indices_load_witness :
  ∃ s batches,
    __init__ (MelLoader.lengths (MelLoader.__init__ example_manifest example_hps false))
      1 [0; 10; 20; 30] 1 0 true = Ok s
    ∧ (__iter__ (set_epoch s 2)).2 = Ok batches
    ∧ let dataset := MelLoader.__init__ example_manifest example_hps false in
      MelLoader.npys dataset ≡ₚ line_path <$> example_manifest
      ∧ Py.len (MelLoader.lengths dataset) = MelLoader.__len__ dataset
      ∧ Forall (λ batch,
                  Forall (λ index,
                            0 ≤ index < MelLoader.__len__ dataset
                            ∧ ∀ g, is_Ok (MelLoaderItem.__getitem__ example_load dataset
                                            index g).1)
                         batch)
               batches.
Proof.
  eexists _, _. split; [vm_compute; reflexivity|]. split; [vm_compute; reflexivity|].
  eapply (sampled_indices_load example_manifest example_hps false [0; 10; 20; 30]
            1 1 0 2 true).
  - lia.
  - lia.
  - lia.
  - vm_compute. reflexivity.
  - vm_compute. reflexivity.
Defined.

Lemma mel_getitem_crops_witness :
  ∃ (mel : Tensor2 Z) (start : nat) (g' : @Rng cycling_randint),
    MelLoaderItem.__getitem__ example_load
      (MelLoader.mk false 8 0 256 ["a.npy"; "bb.npy"] [8; 8]) 1 (5 : @Rng cycling_randint)
    = (Ok (mel, ()), g')
    ∧ size0 mel = size0 (example_load "bb.npy")
    ∧ Z.of_nat (size1 mel) = Z.min (Z.of_nat (size1 (example_load "bb.npy"))) 8
    ∧ (start + size1 mel ≤ size1 (example_load "bb.npy"))%nat
    ∧ (∀ c k, (k < size1 mel)%nat → at2 mel c k = at2 (example_load "bb.npy") c (start + k))
    ∧ (Z.of_nat (size1 (example_load "bb.npy")) < 8 →
       mel = example_load "bb.npy" ∧ g' = (5 : @Rng cycling_randint)).
Proof.
  apply (mel_getitem_crops example_load
           (MelLoader.mk false 8 0 256 ["a.npy"; "bb.npy"] [8; 8]) 1
           (5 : @Rng cycling_randint) "bb.npy").
  - simpl. lia.
  - reflexivity.
Defined.

(** ** MelCollate: what it accepts *)

Section collate_errors.
Context {F : Type} (zero : F) `{TorchSort}.

(** The row assignment succeeds exactly on a mel that fits, and keeps the
    shape. *)
Lemma assign_row_fits (t : Tensor3 F) (i n f m : nat) (mel : Tensor2 F) :
  shape3 t = (n, f, m) → (i < n)%nat →
  if decide (fits f m mel)
  then ∃ t', assign_row t (Z.of_nat i) mel = Ok t' ∧ shape3 t' = (n, f, m)
  else assign_row t (Z.of_nat i) mel = Raise RuntimeError.
Proof.
  intros Hshape Hi. unfold assign_row. rewrite Hshape. cbv beta iota zeta.
  rewrite !(bool_decide_false (Z.of_nat i < 0)) by lia.
  rewrite (bool_decide_true (0 ≤ Z.of_nat i < Z.of_nat n)) by lia.
  destruct (decide (fits f m mel)) as [Hfits|Hfits]; unfold fits in Hfits.
  - rewrite bool_decide_true by done. eexists. split; [done|]. done.
  - by rewrite bool_decide_false by done.
Qed.

(** The rows in the order the loop visits them. *)
Lemma picked_rows {A} (batch : list A) (ids : list Z) :
  ids ≡ₚ Py.range (Py.len batch) →
  omap (λ id, batch !! Z.to_nat id) ids ≡ₚ batch
  ∧ ∀ i : nat, (i < length batch)%nat →
      ∃ id row, ids !! i = Some id ∧ 0 ≤ id < Py.len batch
                ∧ batch !! Z.to_nat id = Some row
                ∧ omap (λ id, batch !! Z.to_nat id) ids !! i = Some row.
Proof.
  intros Hperm. split; [by rewrite Hperm, omap_lookup_range|].
  assert (length ids = length batch) as Hlen.
  { rewrite Hperm, length_range. unfold Py.len. lia. }
  destruct (omap_all_Some (λ id, batch !! Z.to_nat id) ids) as [_ Hlookup].
  { apply Forall_forall. intros id Hid. rewrite Hperm in Hid.
    apply elem_of_range in Hid. apply lookup_lt_is_Some_2. unfold Py.len in Hid. lia. }
  intros i Hi.
  destruct (lookup_lt_is_Some_2 ids i) as [id Hid]; [lia|].
  assert (0 ≤ id < Py.len batch) as Hrange.
  { apply elem_of_range. rewrite <- Hperm. by eapply list_elem_of_lookup_2. }
  destruct (lookup_lt_is_Some_2 batch (Z.to_nat id)) as [row Hrow];
    [unfold Py.len in Hrange; lia|].
  exists id, row. split; [done|]. split; [done|]. split; [done|].
  rewrite Hlookup, Hid. done.
Qed.

(** The loop of [MelCollate.__call__], from turn [i] on: it runs through
    when all the rows still to come fit, and stops with a RuntimeError at
    the first that does not. *)
Lemma collate_loop_fits (batch : list (Tensor2 F * unit)) (ids : list Z) (f m : nat)
    (k i : nat) (st : Tensor3 F * list (option Z)) :
  ids ≡ₚ Py.range (Py.len batch) →
  (i + k = length batch)%nat →
  shape3 st.1 = (length batch, f, m) → length st.2 = length batch →
  if decide (Forall (λ row, fits f m row.1)
               (drop i (omap (λ id, batch !! Z.to_nat id) ids)))
  then ∃ st', for_each (collate_step batch ids) (seqZ (Z.of_nat i) (Z.of_nat k)) st = Ok st'
              ∧ shape3 st'.1 = (length batch, f, m) ∧ length st'.2 = length batch
  else for_each (collate_step batch ids) (seqZ (Z.of_nat i) (Z.of_nat k)) st
       = Raise RuntimeError.
Proof.
  intros Hperm. revert i st. induction k as [|k IH]; intros i st Hik Hshape Hlen.
  - destruct (picked_rows batch ids Hperm) as [Hpick _].
    rewrite drop_ge by (rewrite (Permutation_length Hpick); lia).
    rewrite decide_True by constructor. by exists st.
  - destruct (picked_rows batch ids Hperm) as [_ Hrows].
    destruct (Hrows i) as (id & row & Hid & Hrange & Hrow & Hpicked); [lia|].
    rewrite (drop_S _ row i) by done.
    rewrite Nat2Z.inj_succ, seqZ_cons by lia. cbn [for_each].
    replace (Z.succ (Z.of_nat i)) with (Z.of_nat (S i)) by lia.
    replace (Z.pred (Z.succ (Z.of_nat k))) with (Z.of_nat k) by lia.
    specialize (IH (S i)).
    destruct st as [t ls]. simpl in Hshape, Hlen.
    assert (collate_step batch ids (t, ls) (Z.of_nat i)
            = (t' ← assign_row t (Z.of_nat i) row.1;
               Ok (t', alter (λ _, Some (Z.of_nat (size1 row.1))) i ls))) as ->.
    { unfold collate_step.
      assert (Py.getitem ids (Z.of_nat i) = Ok id) as ->.
      { apply getitem_Ok; [lia|]. by rewrite Nat2Z.id. }
      cbn [mbind result_bind].
      assert (Py.getitem batch id = Ok row) as -> by (by apply getitem_Ok; [lia|]).
      cbn [mbind result_bind].
      destruct (assign_row t (Z.of_nat i) row.1) as [t'|]; [|done].
      cbn [mbind result_bind].
      unfold setitem, Py.alter_at.
      rewrite (bool_decide_false (Z.of_nat i < 0)) by lia.
      rewrite (bool_decide_true (0 ≤ Z.of_nat i < Py.len ls)) by (unfold Py.len; lia).
      simpl. by rewrite Nat2Z.id. }
    pose proof (assign_row_fits t i (length batch) f m row.1 Hshape ltac:(lia)) as Hassign.
    destruct (decide (fits f m row.1)) as [Hfits|Hfits].
    + destruct Hassign as (t' & -> & Hshape'). simpl.
      specialize (IH (t', alter (λ _, Some (Z.of_nat (size1 row.1))) i ls)
                    ltac:(lia) Hshape' ltac:(simpl; by rewrite length_alter)).
      destruct (decide (Forall _ (drop (S i) _))) as [Hrest|Hrest].
      * rewrite decide_True by by constructor. done.
      * rewrite decide_False; [done|]. by intros [_ ?]%Forall_cons.
    + rewrite Hassign. simpl. rewrite decide_False; [done|].
      by intros [? _]%Forall_cons.
Qed.

(** X11: what [MelCollate.__call__] accepts.  An empty batch is an
    IndexError.  Otherwise the call returns exactly when every mel of the
    batch fits the padded tensor: as many rows as the first mel of the batch
    or a single row, and at most [max_len] frames or a single frame; any
    other batch is a RuntimeError, and nothing else is ever raised. *)
Theorem collate_accepts_iff_fits (max_len : nat) (batch : list (Tensor2 F * unit)) :
  match batch with
  | [] => MelCollate.__call__ zero max_len batch = Raise IndexError
  | first :: _ =>
      if decide (Forall (λ row, fits (size0 first.1) max_len row.1) batch)
      then ∃ mel_padded mel_lengths,
             MelCollate.__call__ zero max_len batch = Ok (mel_padded, mel_lengths)
             ∧ shape3 mel_padded = (length batch, size0 first.1, max_len)
             ∧ length mel_lengths = length batch
      else MelCollate.__call__ zero max_len batch = Raise RuntimeError
  end.
Proof.
  destruct batch as [|first batch'] eqn:Hb; [done|]. rewrite <- Hb.
  unfold MelCollate.__call__.
  set (ids := argsort_descending ((λ x : Tensor2 F * unit, Z.of_nat (size1 x.1)) <$> batch)).
  assert (ids ≡ₚ Py.range (Py.len batch)) as Hperm.
  { unfold ids. rewrite argsort_perm. unfold Py.len. by rewrite length_fmap. }
  assert (Py.len ids = Z.of_nat (length batch)) as ->.
  { unfold Py.len. rewrite Hperm, length_range. unfold Py.len. lia. }
  assert (Py.getitem batch 0 = Ok first) as -> by (by rewrite Hb).
  cbn [mbind result_bind].
  pose proof (collate_loop_fits batch ids (size0 first.1) max_len (length batch) 0
                (zeros3 zero (length batch) (size0 first.1) max_len,
                 replicate (length batch) None)
                Hperm ltac:(lia) ltac:(done) ltac:(simpl; by rewrite length_replicate)) as Hloop.
  rewrite drop_0 in Hloop. change (Z.of_nat 0) with 0 in Hloop. unfold Py.range.
  destruct (picked_rows batch ids Hperm) as [Hpick _].
  destruct (decide (Forall (λ row, fits (size0 first.1) max_len row.1) batch))
    as [Hall|Hsome].
  - rewrite decide_True in Hloop by by rewrite Hpick.
    destruct Hloop as ([t ls] & -> & ? & ?). by exists t, ls.
  - rewrite decide_False in Hloop; [done|]. by rewrite Hpick.
Qed.

End collate_errors.

Section loaded.
Context {F : Type} (zero : F) `{TorchSort} `{PyRandint}.

(** X12: what [MelLoader.__getitem__] hands out, [MelCollate] takes.  For
    a loader and a collate of the same [max_length], files whose mels have
    the same number of rows, and a non-empty batch of items of the loader,
    whatever the indices and the states of the random generator they were
    fetched with, the collate returns; the padded tensor has the shape
    [(len(batch), rows, max_length)] and every recorded length is at most
    [max_length]. *)
Theorem loaded_batch_collates (np_load : string → Tensor2 F) (self : MelLoader.t)
    (max_len feature_dim : nat) (batch : list (Tensor2 F * unit)) :
  MelLoader.max_length self = Z.of_nat max_len →
  (∀ path, path ∈ MelLoader.npys self → size0 (np_load path) = feature_dim) →
  batch ≠ [] →
  Forall (λ row, ∃ index g,
            (MelLoaderItem.__getitem__ np_load self index g).1 = Ok row) batch →
  ∃ mel_padded mel_lengths,
    MelCollate.__call__ zero max_len batch = Ok (mel_padded, mel_lengths)
    ∧ shape3 mel_padded = (length batch, feature_dim, max_len)
    ∧ length mel_lengths = length batch
    ∧ Forall (λ l, ∃ n, l = Some n ∧ 0 ≤ n ≤ Z.of_nat max_len) mel_lengths.
Proof.
  intros Hmax Hrows Hne Hitems.
  assert (Forall (λ x : Tensor2 F * unit,
                    size0 x.1 = feature_dim ∧ (size1 x.1 ≤ max_len)%nat) batch) as Hfit.
  { eapply Forall_impl; [exact Hitems|]. intros row (index & g & Hrow). simpl.
    destruct (mel_getitem_inv np_load self index g row) as (path & Hin & Hsize & Hframes);
      [lia|done|].
    split; [|lia]. rewrite Hsize. by apply Hrows. }
  unfold MelCollate.__call__.
  destruct batch as [|first batch'] eqn:Hb; [done|]. rewrite <- Hb in *.
  set (ids := argsort_descending ((λ x : Tensor2 F * unit, Z.of_nat (size1 x.1)) <$> batch)).
  assert (ids ≡ₚ Py.range (Py.len batch)) as Hperm.
  { unfold ids. rewrite argsort_perm. unfold Py.len. by rewrite length_fmap. }
  assert (length ids = length batch) as Hidslen.
  { rewrite Hperm, length_range. unfold Py.len. lia. }
  assert (Py.getitem batch 0 = Ok first) as -> by (by rewrite Hb).
  simpl. assert (size0 first.1 = feature_dim) as ->.
  { rewrite Forall_forall in Hfit. apply (Hfit first). rewrite Hb. by left. }
  destruct (collate_loop_spec zero batch ids feature_dim max_len (length batch) Hperm Hfit)
    as ([t ls] & Hloop & Hshape & Hlen & Hfilled); [done|].
  unfold Py.len at 1. rewrite Hidslen, Hloop. simpl in *.
  exists t, ls. split; [done|]. split; [done|]. split; [done|].
  apply Forall_forall. intros l Hl. apply list_elem_of_lookup_1 in Hl as [i Hi].
  pose proof (lookup_lt_Some _ _ _ Hi) as Hilt.
  specialize (Hfilled i ltac:(lia)). rewrite decide_True in Hfilled by lia.
  destruct Hfilled as (id & mel & _ & Hmel & Hls & _).
  rewrite Hi in Hls. injection Hls as ->. eexists. split; [done|].
  rewrite Forall_forall in Hfit.
  destruct (Hfit (mel, ())) as [_ ?]; [by eapply list_elem_of_lookup_2|]. simpl in *. lia.
Qed.

End loaded.

Lemma loaded_batch_collates_witness :
  let batch := [(slice_cols (example_load "a.npy") 3 11, ());
                (slice_cols (example_load "bb.npy") 4 12, ())] in
  ∃ mel_padded mel_lengths,
    MelCollate.__call__ 0 8 batch = Ok (mel_padded, mel_lengths)
    ∧ shape3 mel_padded = (length batch, 2%nat, 8%nat)
    ∧ length mel_lengths = length batch
    ∧ Forall (λ l, ∃ n, l = Some n ∧ 0 ≤ n ≤ Z.of_nat 8) mel_lengths.
Proof.
  apply (loaded_batch_collates 0 example_load
           (MelLoader.mk false 8 0 256 ["a.npy"; "bb.npy"] [8; 8]) 8 2).
  - reflexivity.
  - intros path _. reflexivity.
  - done.
  - constructor; [|constructor; [|constructor]].
    + exists 0, (3 : @Rng cycling_randint). reflexivity.
    + exists 1, (4 : @Rng cycling_randint). reflexivity.
Defined.

(** ** AudioMelMixedMaskRandomLoader.__getitem__ *)

Lemma mask_rows_spec {F} (t : Tensor2 F) (r : Z) (v : F) :
  0 ≤ r →
  size0 (mask_rows t r v) = size0 t ∧ size1 (mask_rows t r v) = size1 t
  ∧ ∀ c k, (c < size0 t)%nat →
      at2 (mask_rows t r v) c k = if decide (r ≤ Z.of_nat c) then v else at2 t c k.
Proof.
  intros Hr. split; [done|]. split; [done|]. intros c k Hc.
  unfold mask_rows, clamp_bound. simpl. rewrite (bool_decide_false (r < 0)) by lia.
  destruct (decide (r ≤ Z.of_nat c)).
  - by rewrite bool_decide_true by lia.
  - by rewrite bool_decide_false by lia.
Qed.

(** The audio that goes with a mel window of [w] frames from frame [s]. *)
Lemma audio_window {F} (a : Tensor1 F) (s w hop : Z) :
  0 ≤ s → 0 ≤ w → 0 ≤ hop →
  let audio := slice_cols (unsqueeze0 a) (s * hop) ((s + w) * hop) in
  size0 audio = 1%nat
  ∧ Z.of_nat (size1 audio) ≤ w * hop
  ∧ ((s + w) * hop ≤ Z.of_nat (numel a) → Z.of_nat (size1 audio) = w * hop)
  ∧ ∀ k, (k < size1 audio)%nat →
      at2 audio 0 k = at1 a (Z.to_nat s * Z.to_nat hop + k).
Proof.
  intros Hs Hw Hhop. unfold slice_cols, clamp_bound, unsqueeze0. simpl.
  rewrite (bool_decide_false (s * hop < 0)), (bool_decide_false ((s + w) * hop < 0))
    by nia.
  split; [done|]. split; [nia|]. split; [nia|].
  intros k Hk. f_equal.
  rewrite Z.min_l by nia. rewrite Z2Nat.inj_mul by lia. done.
Qed.

Section audio_mel.
Context {F : Type} `{PyRandint}.

(** The crop: a window of the mel and the samples that go with it. *)
Lemma crop_spec (self : AudioMelMixedMaskRandomLoader.t) (source : Tensor2 F)
    (wav : Tensor1 F) (g : Rng) :
  0 ≤ AudioMelMixedMaskRandomLoader.max_length self →
  0 ≤ AudioMelMixedMaskRandomLoader.hop_length self →
  let max_length := AudioMelMixedMaskRandomLoader.max_length self in
  let hop_length := AudioMelMixedMaskRandomLoader.hop_length self in
  ∃ (mel audio : Tensor2 F) (start : nat) (g1 : Rng),
    AudioMelItem.crop self source (unsqueeze0 wav) g = (Ok (mel, audio), g1)
    ∧ size0 mel = size0 source
    ∧ Z.of_nat (size1 mel) = Z.min (Z.of_nat (size1 source)) max_length
    ∧ (start + size1 mel ≤ size1 source)%nat
    ∧ (∀ c k, (k < size1 mel)%nat → at2 mel c k = at2 source c (start + k))
    ∧ size0 audio = 1%nat
    ∧ (max_length ≤ Z.of_nat (size1 source) →
       Z.of_nat (size1 audio) ≤ max_length * hop_length
       ∧ (Z.of_nat (size1 source) * hop_length ≤ Z.of_nat (numel wav) →
          Z.of_nat (size1 audio) = max_length * hop_length)
       ∧ ∀ k, (k < size1 audio)%nat →
           at2 audio 0 k = at1 wav (start * Z.to_nat hop_length + k))
    ∧ (Z.of_nat (size1 source) < max_length → audio = unsqueeze0 wav ∧ mel = source).
Proof.
  intros Hmax Hhop max_length hop_length.
  unfold AudioMelItem.crop, rand_bind, rand_ret. fold max_length hop_length.
  case_bool_decide as Hlong.
  - destruct (randint_range 0 (Z.of_nat (size1 source) - max_length) g)
      as (n & Hn & Hrange); [lia|].
    destruct (randint 0 _ g) as [[n'|] g1]; simpl in Hn; [|done].
    injection Hn as ->.
    destruct (audio_window wav n max_length hop_length)
      as (Hs0 & Hle & Hfull & Hat); [lia..|].
    eexists _, _, (Z.to_nat n), g1. split; [done|].
    rewrite slice_cols_window by lia. simpl.
    split; [done|]. split; [lia|]. split; [lia|]. split; [done|].
    split; [done|]. split; [|lia]. intros _. split; [done|]. split; [|done].
    intros Hlen. apply Hfull. nia.
  - eexists _, _, 0%nat, g. split; [done|]. split; [done|]. split; [lia|].
    split; [lia|]. split; [done|]. split; [done|]. split; [lia|]. done.
Qed.

(** X13: what [AudioMelMixedMaskRandomLoader.__getitem__] returns for a
    position of the file list (non-negative [max_length] and [hop_length]).
    The mel is the file's, cropped to a window of [max_length] consecutive
    frames when it has that many; the audio is then cut to the samples
    [start * hop_length] to [(start + max_length) * hop_length] of the same
    window, and is the whole file's otherwise.  The masked mel differs from
    the mel in the rows from a random row between 32 and 128 on only, which
    hold [mask_value]: rows below 32 are never masked.  With [return_name]
    the tuple is the mel, the audio and the file's base name with [.npz]
    replaced by [.wav], and the masked mel is dropped. *)
Theorem audio_mel_getitem_aligned (np_load : string → Npz F) (mask_value : F)
    (self : AudioMelMixedMaskRandomLoader.t) (index : Z) (g : Rng) (path : string) :
  0 ≤ AudioMelMixedMaskRandomLoader.max_length self →
  0 ≤ AudioMelMixedMaskRandomLoader.hop_length self →
  Py.getitem (AudioMelMixedMaskRandomLoader.npzs self) index = Ok path →
  let max_length := AudioMelMixedMaskRandomLoader.max_length self in
  let hop_length := AudioMelMixedMaskRandomLoader.hop_length self in
  let x := np_load path in
  ∃ (first audio mel : Tensor2 F) (third : Tensor2 F + string) (start : nat)
    (rannum : Z) (g' : Rng),
    AudioMelItem.__getitem__ np_load mask_value self index g
    = (Ok (first, audio, third), g')
    ∧ 32 ≤ rannum ≤ 128
    ∧ size0 mel = size0 (npz_mel x)
    ∧ Z.of_nat (size1 mel) = Z.min (Z.of_nat (size1 (npz_mel x))) max_length
    ∧ (start + size1 mel ≤ size1 (npz_mel x))%nat
    ∧ (∀ c k, (k < size1 mel)%nat → at2 mel c k = at2 (npz_mel x) c (start + k))
    ∧ size0 audio = 1%nat
    ∧ (max_length ≤ Z.of_nat (size1 (npz_mel x)) →
       Z.of_nat (size1 audio) ≤ max_length * hop_length
       ∧ (Z.of_nat (size1 (npz_mel x)) * hop_length ≤ Z.of_nat (numel (npz_audio x)) →
          Z.of_nat (size1 audio) = max_length * hop_length)
       ∧ ∀ k, (k < size1 audio)%nat →
           at2 audio 0 k = at1 (npz_audio x) (start * Z.to_nat hop_length + k))
    ∧ (Z.of_nat (size1 (npz_mel x)) < max_length →
       audio = unsqueeze0 (npz_audio x) ∧ mel = npz_mel x)
    ∧ if AudioMelMixedMaskRandomLoader.return_name self
      then first = mel ∧ third = inr (replace_npz_wav (basename path))
      else third = inl mel ∧ size0 first = size0 mel ∧ size1 first = size1 mel
           ∧ ∀ c k, (c < size0 mel)%nat →
               at2 first c k
               = if decide (rannum ≤ Z.of_nat c) then mask_value else at2 mel c k.
Proof.
  intros Hmax Hhop Hpath max_length hop_length x.
  unfold AudioMelItem.__getitem__. unfold rand_bind at 1. unfold rand_lift.
  rewrite Hpath. fold x. unfold rand_bind at 1.
  destruct (crop_spec self (npz_mel x) (npz_audio x) g Hmax Hhop)
    as (mel & audio & start & g1 & -> & Hm0 & Hm1 & Hstart & Hwin & Ha0 & Hcrop & Hwhole).
  unfold rand_bind, rand_ret.
  destruct (randint_range 32 128 g1) as (rannum & Hr & Hrange); [lia|].
  destruct (randint 32 128 g1) as [[r'|] g2]; simpl in Hr; [|done].
  injection Hr as ->.
  destruct (mask_rows_spec mel rannum mask_value) as (Hk0 & Hk1 & Hmask); [lia|].
  destruct (AudioMelMixedMaskRandomLoader.return_name self) eqn:Hname.
  - exists mel, audio, mel, (inr (replace_npz_wav (basename path))), start, rannum, g2.
    by repeat (split; [done|]).
  - exists (mask_rows mel rannum mask_value), audio, mel, (inl mel), start, rannum, g2.
    by repeat (split; [done|]).
Qed.

(** With [return_name] every item carries a name where the default item
    carries the mel. *)
Lemma audio_mel_getitem_third (np_load : string → Npz F) (mask_value : F)
    (self : AudioMelMixedMaskRandomLoader.t) (index : Z) (g : Rng)
    (row : Tensor2 F * Tensor2 F * (Tensor2 F + string)) :
  (AudioMelItem.__getitem__ np_load mask_value self index g).1 = Ok row →
  if AudioMelMixedMaskRandomLoader.return_name self
  then ∃ name, row.2 = inr name
  else ∃ mel, row.2 = inl mel.
Proof.
  unfold AudioMelItem.__getitem__, rand_bind, rand_lift, rand_ret.
  destruct (Py.getitem _ index) as [path|]; [|done].
  destruct (AudioMelItem.crop self _ _ g) as [[[mel audio]|] g1]; [|done].
  destruct (randint 32 128 g1) as [[r|] g2]; [|done].
  destruct (AudioMelMixedMaskRandomLoader.return_name self);
    simpl; intros [= <-]; by eexists.
Qed.

End audio_mel.

Lemma audio_mel_getitem_aligned_witness :
  let x := example_npz "bb.npz" in
  ∃ (first audio mel : Tensor2 Z) (third : Tensor2 Z + string) (start : nat)
    (rannum : Z) (g' : @Rng cycling_randint),
    AudioMelItem.__getitem__ example_npz (-1) example_audio_mel 1
      (2 : @Rng cycling_randint)
    = (Ok (first, audio, third), g')
    ∧ 32 ≤ rannum ≤ 128
    ∧ size0 mel = size0 (npz_mel x)
    ∧ Z.of_nat (size1 mel) = Z.min (Z.of_nat (size1 (npz_mel x))) 8
    ∧ (start + size1 mel ≤ size1 (npz_mel x))%nat
    ∧ (∀ c k, (k < size1 mel)%nat → at2 mel c k = at2 (npz_mel x) c (start + k))
    ∧ size0 audio = 1%nat
    ∧ (8 ≤ Z.of_nat (size1 (npz_mel x)) →
       Z.of_nat (size1 audio) ≤ 8 * 3
       ∧ (Z.of_nat (size1 (npz_mel x)) * 3 ≤ Z.of_nat (numel (npz_audio x)) →
          Z.of_nat (size1 audio) = 8 * 3)
       ∧ ∀ k, (k < size1 audio)%nat →
           at2 audio 0 k = at1 (npz_audio x) (start * Z.to_nat 3 + k))
    ∧ (Z.of_nat (size1 (npz_mel x)) < 8 →
       audio = unsqueeze0 (npz_audio x) ∧ mel = npz_mel x)
    ∧ third = inl mel ∧ size0 first = size0 mel ∧ size1 first = size1 mel
      ∧ ∀ c k, (c < size0 mel)%nat →
          at2 first c k = if decide (rannum ≤ Z.of_nat c) then -1 else at2 mel c k.
Proof.
  apply (audio_mel_getitem_aligned example_npz (-1) example_audio_mel 1
           (2 : @Rng cycling_randint) "bb.npz").
  - simpl. lia.
  - simpl. lia.
  - reflexivity.
Defined.

(** ** AudioMelMaskCollate *)

Lemma for_each_outcome_app {A S} (body : S → A → outcome S) (xs ys : list A) (s : S) :
  for_each_outcome body (xs ++ ys) s
  = s' ← for_each_outcome body xs s; for_each_outcome body ys s'.
Proof.
  revert s. induction xs as [|x xs IH]; intros s; [done|].
  simpl. destruct (body s x) as [s'|]; [|done]. simpl. apply IH.
Qed.

Section padding.
Context {F A : Type} (zero : F) (get : A → option (Tensor2 F)).

(** One row assignment of a collate loop. *)
Lemma assign_row_padded (batch : list A) (ids : list Z) (f m k : nat) (t : Tensor3 F)
    (id : Z) (row : A) (mel : Tensor2 F) :
  padded_rows zero get batch ids f m k t →
  (k < length batch)%nat →
  ids !! k = Some id → batch !! Z.to_nat id = Some row → get row = Some mel →
  size0 mel = f → (size1 mel ≤ m)%nat →
  ∃ t', assign_row t (Z.of_nat k) mel = Ok t'
        ∧ padded_rows zero get batch ids f m (S k) t'.
Proof.
  intros [Hshape Hrows] Hk Hid Hrow Hget Hf Hm.
  unfold assign_row. rewrite Hshape. cbv beta iota zeta.
  rewrite !(bool_decide_false (Z.of_nat k < 0)) by lia.
  rewrite (bool_decide_true (0 ≤ Z.of_nat k < Z.of_nat (length batch))) by lia.
  rewrite Nat.min_l by done.
  rewrite bool_decide_true by (split; by left).
  eexists. split; [done|]. split; [done|]. simpl.
  intros i Hi. specialize (Hrows i Hi).
  destruct (decide (i = k)) as [->|Hne].
  - rewrite decide_True by lia. exists id, row, mel.
    split; [done|]. split; [done|]. split; [done|].
    intros c j Hc Hj. rewrite Nat2Z.id.
    rewrite decide_False in Hrows by lia.
    destruct (decide (j < size1 mel)%nat).
    + rewrite bool_decide_true by done. by rewrite !bool_decide_true by done.
    + rewrite bool_decide_false by lia. apply Hrows.
  - assert (∀ c j, (if bool_decide (i = Z.to_nat (Z.of_nat k) ∧ (c < f)%nat
                                    ∧ (j < size1 mel)%nat)
                    then at2 mel (if bool_decide (size0 mel = f) then c else 0%nat)
                           (if bool_decide (size1 mel = size1 mel) then j else 0%nat)
                    else at3 t i c j) = at3 t i c j) as Hsame.
    { intros c j. by rewrite bool_decide_false by lia. }
    destruct (decide (i < k)%nat).
    + rewrite decide_True by lia.
      destruct Hrows as (id' & row' & mel' & ? & ? & ? & Hdata).
      exists id', row', mel'. repeat split; try done.
      intros c j Hc Hj. rewrite Hsame. by apply Hdata.
    + rewrite decide_False by lia. intros c j. rewrite Hsame. apply Hrows.
Qed.

(** One entry of a length vector. *)
Lemma setitem_measured (batch : list A) (ids : list Z) (k : nat) (ls : list (option Z))
    (id : Z) (row : A) (mel : Tensor2 F) :
  measured get batch ids k ls →
  (k < length batch)%nat →
  ids !! k = Some id → batch !! Z.to_nat id = Some row → get row = Some mel →
  ∃ ls', setitem ls (Z.of_nat k) (Some (Z.of_nat (size1 mel))) = Ok ls'
         ∧ measured get batch ids (S k) ls'.
Proof.
  intros [Hlen Hrows] Hk Hid Hrow Hget.
  unfold setitem, Py.alter_at.
  rewrite (bool_decide_false (Z.of_nat k < 0)) by lia.
  rewrite (bool_decide_true (0 ≤ Z.of_nat k < Py.len ls)) by (unfold Py.len; lia).
  rewrite Nat2Z.id. eexists. split; [done|]. split; [by rewrite length_alter|].
  intros i Hi. specialize (Hrows i Hi).
  destruct (decide (i = k)) as [->|Hne].
  - rewrite decide_True by lia. exists id, row, mel.
    split; [done|]. split; [done|]. split; [done|].
    rewrite decide_False in Hrows by lia. by rewrite list_lookup_alter_eq, Hrows.
  - rewrite list_lookup_alter_ne by done.
    destruct (decide (i < k)%nat).
    + by rewrite decide_True by lia.
    + by rewrite decide_False by lia.
Qed.

Lemma padded_rows_zeros (batch : list A) (ids : list Z) (f m : nat) :
  padded_rows zero get batch ids f m 0 (zeros3 zero (length batch) f m).
Proof. split; [done|]. intros i Hi. by rewrite decide_False by lia. Qed.

Lemma measured_none (batch : list A) (ids : list Z) :
  measured get batch ids 0 (replicate (length batch) None).
Proof.
  split; [by rewrite length_replicate|]. intros i Hi.
  rewrite decide_False by lia. by apply lookup_replicate_2.
Qed.

End padding.

Section audio_collate.
Context {F : Type} (zero : F) `{TorchSort}.

Lemma audio_step_spec (batch : list (Tensor2 F * Tensor2 F * (Tensor2 F + string)))
    (ids : list Z) (f max_len hop_len k : nat) (st : AudioMelMaskCollate.padded F) :
  ids ≡ₚ Py.range (Py.len batch) →
  Forall (collatable f max_len hop_len) batch →
  (k < length batch)%nat →
  audio_collated zero batch ids f max_len hop_len k st →
  ∃ st', AudioMelMaskCollate.step batch ids st (Z.of_nat k) = Done st'
         ∧ audio_collated zero batch ids f max_len hop_len (S k) st'.
Proof.
  intros Hperm Hbatch Hk (Hmp & Hml & Hwp & Hwl & Hrp).
  destruct st as [mp ml wp wl rp]. simpl in *.
  destruct (picked_rows batch ids Hperm) as [_ Hrows].
  destruct (Hrows k Hk) as (id & row & Hid & Hrange & Hrow & _).
  rewrite Forall_forall in Hbatch.
  destruct (Hbatch row) as (raw & Hraw & Hm0 & Hm1 & Hw0 & Hw1 & Hr0 & Hr1);
    [by eapply list_elem_of_lookup_2|].
  unfold AudioMelMaskCollate.step, AudioMelMaskCollate.row.
  assert (Py.getitem ids (Z.of_nat k) = Ok id) as ->.
  { apply getitem_Ok; [lia|]. by rewrite Nat2Z.id. }
  cbn [builtin mbind outcome_bind].
  assert (Py.getitem batch id = Ok row) as -> by (by apply getitem_Ok; [lia|]).
  cbn [builtin mbind outcome_bind].
  destruct (assign_row_padded zero row_masked_mel batch ids f max_len k mp id row row.1.1)
    as (mp' & -> & Hmp'); [done..|].
  cbn [builtin mbind outcome_bind].
  destruct (setitem_measured row_masked_mel batch ids k ml id row row.1.1)
    as (ml' & -> & Hml'); [done..|].
  cbn [builtin mbind outcome_bind].
  destruct (assign_row_padded zero row_wav batch ids 1 (max_len * hop_len) k wp id row
              row.1.2) as (wp' & -> & Hwp'); [done..|].
  cbn [builtin mbind outcome_bind].
  destruct (setitem_measured row_wav batch ids k wl id row row.1.2)
    as (wl' & -> & Hwl'); [done..|].
  cbn [builtin mbind outcome_bind].
  rewrite Hraw. cbn [tensor_of mbind outcome_bind].
  destruct (assign_row_padded zero row_raw batch ids f max_len k rp id row raw)
    as (rp' & -> & Hrp'); [done| done | done | done | by unfold row_raw; rewrite Hraw
                           | done | done |].
  cbn [builtin mbind outcome_bind].
  eexists. split; [done|]. unfold audio_collated. simpl. by split_and!.
Qed.

Lemma audio_loop_spec (batch : list (Tensor2 F * Tensor2 F * (Tensor2 F + string)))
    (ids : list Z) (f max_len hop_len m : nat) :
  ids ≡ₚ Py.range (Py.len batch) →
  Forall (collatable f max_len hop_len) batch →
  (m ≤ length batch)%nat →
  ∃ st, for_each_outcome (AudioMelMaskCollate.step batch ids) (Py.range (Z.of_nat m))
          (AudioMelMaskCollate.mk
             (zeros3 zero (length batch) f max_len) (replicate (length batch) None)
             (zeros3 zero (length batch) 1 (max_len * hop_len))
             (replicate (length batch) None)
             (zeros3 zero (length batch) f max_len)) = Done st
        ∧ audio_collated zero batch ids f max_len hop_len m st.
Proof.
  intros Hperm Hbatch. induction m as [|m IH]; intros Hm.
  - eexists. split; [done|]. unfold audio_collated. simpl.
    split_and!; (apply padded_rows_zeros || apply measured_none).
  - destruct IH as (st & Hloop & Hinv); [lia|].
    destruct (audio_step_spec batch ids f max_len hop_len m st) as (st' & Hstep & Hinv');
      [done|done|lia|done|].
    exists st'. rewrite range_snoc, for_each_outcome_app, Hloop by lia.
    simpl. by rewrite Hstep.
Qed.

(** The second loop: the last entries of the rows, in the order of [ids]. *)
Lemma name_loop_spec (batch : list (Tensor2 F * Tensor2 F * (Tensor2 F + string)))
    (ids : list Z) (m : nat) :
  ids ≡ₚ Py.range (Py.len batch) →
  (m ≤ length batch)%nat →
  for_each_outcome (AudioMelMaskCollate.name_step batch ids) (Py.range (Z.of_nat m)) []
  = Done (omap (λ id, snd <$> batch !! Z.to_nat id) (take m ids)).
Proof.
  intros Hperm. induction m as [|m IH]; intros Hm; [done|].
  destruct (picked_rows batch ids Hperm) as [_ Hrows].
  destruct (Hrows m) as (id & row & Hid & Hrange & Hrow & _); [lia|].
  rewrite range_snoc, for_each_outcome_app, IH by lia. simpl.
  unfold AudioMelMaskCollate.name_step, AudioMelMaskCollate.row.
  assert (Py.getitem ids (Z.of_nat m) = Ok id) as ->.
  { apply getitem_Ok; [lia|]. by rewrite Nat2Z.id. }
  cbn [builtin mbind outcome_bind].
  assert (Py.getitem batch id = Ok row) as -> by (by apply getitem_Ok; [lia|]).
  cbn [builtin mbind outcome_bind].
  rewrite (take_S_r _ _ id) by done. rewrite omap_app. simpl. by rewrite Hrow.
Qed.

(** X14: for a non-empty batch of rows of three tensors that need no
    broadcasting, [AudioMelMaskCollate] returns.  The rows are visited in
    the descending order of the masked mels' frame counts; row [i] of each
    padded tensor holds the masked mel, the audio and the raw mel of the
    [i]-th visited item, with zeros after their lengths, and the two length
    vectors hold the frame and sample counts in that order.  With
    [return_name] the last result is not the padded raw mels but the list of
    the rows' last entries, which are the raw mels themselves. *)
Theorem audio_collate_pads (return_name : bool) (hop_len max_len f : nat)
    (batch : list (Tensor2 F * Tensor2 F * (Tensor2 F + string))) :
  batch ≠ [] →
  Forall (collatable f max_len hop_len) batch →
  ∃ mp ml wp wl last ids,
    AudioMelMaskCollate.__call__ zero return_name hop_len max_len batch
    = Done (mp, ml, wp, wl, last)
    ∧ ids ≡ₚ Py.range (Py.len batch)
    ∧ Sorted Z.ge
        (omap (λ id, (λ row, Z.of_nat (size1 row.1.1)) <$> batch !! Z.to_nat id) ids)
    ∧ padded_rows zero row_masked_mel batch ids f max_len (length batch) mp
    ∧ measured row_masked_mel batch ids (length batch) ml
    ∧ padded_rows zero row_wav batch ids 1 (max_len * hop_len) (length batch) wp
    ∧ measured row_wav batch ids (length batch) wl
    ∧ if return_name
      then last = inl (omap (λ id, snd <$> batch !! Z.to_nat id) ids)
      else ∃ rp, last = inr rp
                 ∧ padded_rows zero row_raw batch ids f max_len (length batch) rp.
Proof.
  intros Hne Hbatch. unfold AudioMelMaskCollate.__call__, AudioMelMaskCollate.row.
  destruct batch as [|first batch'] eqn:Hb; [done|]. rewrite <- Hb in *.
  set (lens := (λ x : Tensor2 F * Tensor2 F * (Tensor2 F + string),
                  Z.of_nat (size1 x.1.1)) <$> batch).
  set (ids := argsort_descending lens).
  assert (ids ≡ₚ Py.range (Py.len batch)) as Hperm.
  { unfold ids. rewrite argsort_perm. unfold lens, Py.len. by rewrite length_fmap. }
  assert (length ids = length batch) as Hidslen.
  { rewrite Hperm, length_range. unfold Py.len. lia. }
  assert (Py.getitem batch 0 = Ok first) as -> by (by rewrite Hb).
  cbn [builtin mbind outcome_bind].
  assert (size0 first.1.1 = f) as ->.
  { rewrite Forall_forall in Hbatch.
    destruct (Hbatch first) as (_ & _ & ? & _); [rewrite Hb; by left|done]. }
  destruct (audio_loop_spec batch ids f max_len hop_len (length batch) Hperm Hbatch)
    as ([mp ml wp wl rp] & Hloop & Hmp & Hml & Hwp & Hwl & Hrp); [done|].
  unfold Py.len at 1 2. rewrite Hidslen, Hloop. cbn [mbind outcome_bind].
  simpl in Hmp, Hml, Hwp, Hwl, Hrp.
  assert (Sorted Z.ge (omap (λ id, (λ row, Z.of_nat (size1 row.1.1))
                               <$> batch !! Z.to_nat id) ids)) as Hsorted.
  { pose proof (argsort_sorted lens) as Hs. fold ids in Hs.
    erewrite list_omap_ext; [exact Hs|]. apply Forall2_same_length_lookup_2; [done|].
    intros i x y Hx Hy. rewrite Hx in Hy. injection Hy as <-.
    unfold lens. by rewrite list_lookup_fmap. }
  destruct return_name.
  - rewrite (name_loop_spec batch ids (length batch) Hperm) by done.
    cbn [mbind outcome_bind]. rewrite take_ge by lia.
    eexists mp, ml, wp, wl, _, ids. by repeat (split; [done|]).
  - eexists mp, ml, wp, wl, _, ids. repeat (split; [done|]). by exists rp.
Qed.

End audio_collate.

Lemma audio_collate_pads_witness :
  ∃ mp ml wp wl last ids,
    AudioMelMaskCollate.__call__ 0 false 3 8 example_rows = Done (mp, ml, wp, wl, last)
    ∧ ids ≡ₚ Py.range (Py.len example_rows)
    ∧ Sorted Z.ge
        (omap (λ id, (λ row, Z.of_nat (size1 row.1.1)) <$> example_rows !! Z.to_nat id)
           ids)
    ∧ padded_rows 0 row_masked_mel example_rows ids 2 8 (length example_rows) mp
    ∧ measured row_masked_mel example_rows ids (length example_rows) ml
    ∧ padded_rows 0 row_wav example_rows ids 1 (8 * 3) (length example_rows) wp
    ∧ measured row_wav example_rows ids (length example_rows) wl
    ∧ ∃ rp, last = inr rp
            ∧ padded_rows 0 row_raw example_rows ids 2 8 (length example_rows) rp.
Proof.
  apply (audio_collate_pads 0 false 3 8 2 example_rows).
  - done.
  - apply Forall_cons_2; [|apply Forall_cons_2; [|apply Forall_nil_2]];
      (eexists; split_and!; [reflexivity|simpl; lia..]).
Defined.

Example audio_collate_scenario :
  (λ r, (shape3 r.1.1.1.1, r.1.1.1.2, shape3 r.1.1.2, r.1.2,
         at3 r.1.1.1.1 0 1 4, at3 r.1.1.1.1 1 1 2, at3 r.1.1.1.1 1 1 3,
         at3 r.1.1.2 0 0 14, at3 r.1.1.2 1 0 9))
    <$> match AudioMelMaskCollate.__call__ 0 false 3 8 example_rows with
        | Done r => Some r
        | Fail _ => None
        end
  = Some ((2%nat, 2%nat, 8%nat), [Some 5; Some 3], (2%nat, 1%nat, 24%nat),
          [Some 15; Some 9], -1, -1, 0, 14, 0).
Proof. vm_compute. reflexivity. Qed.

(** ** From the loader to the collate *)

Section audio_pipeline.
Context {F : Type} (zero : F) `{TorchSort} `{PyRandint}.

(** The default item of the loader is a row the collate pads without
    broadcasting, when no file holds more audio than [hop_length] samples
    for each frame of its mel. *)
Lemma audio_mel_getitem_collatable (np_load : string → Npz F) (mask_value : F)
    (self : AudioMelMixedMaskRandomLoader.t) (max_len hop_len f : nat)
    (index : Z) (g : Rng) (row : Tensor2 F * Tensor2 F * (Tensor2 F + string)) :
  AudioMelMixedMaskRandomLoader.return_name self = false →
  AudioMelMixedMaskRandomLoader.max_length self = Z.of_nat max_len →
  AudioMelMixedMaskRandomLoader.hop_length self = Z.of_nat hop_len →
  (∀ path, path ∈ AudioMelMixedMaskRandomLoader.npzs self →
     size0 (npz_mel (np_load path)) = f
     ∧ (numel (npz_audio (np_load path)) ≤ size1 (npz_mel (np_load path)) * hop_len)%nat) →
  (AudioMelItem.__getitem__ np_load mask_value self index g).1 = Ok row →
  collatable f max_len hop_len row.
Proof.
  intros Hname Hmax Hhop Hfiles.
  unfold AudioMelItem.__getitem__. unfold rand_bind at 1. unfold rand_lift.
  destruct (Py.getitem _ index) as [path|] eqn:Hpath; [|done].
  assert (path ∈ AudioMelMixedMaskRandomLoader.npzs self) as Hin.
  { unfold Py.getitem in Hpath. case_bool_decide; [|done].
    destruct (_ !! _) eqn:Hl; [|done]. injection Hpath as ->.
    by eapply list_elem_of_lookup_2. }
  destruct (Hfiles path Hin) as [Hf Hlen].
  unfold rand_bind at 1.
  destruct (crop_spec self (npz_mel (np_load path)) (npz_audio (np_load path)) g)
    as (mel & audio & start & g1 & -> & Hm0 & Hm1 & _ & _ & Ha0 & Hcrop & Hwhole);
    [lia..|].
  unfold rand_bind, rand_ret.
  destruct (randint 32 128 g1) as [[r|] g2]; [|done].
  rewrite Hname. simpl. intros [= <-].
  exists mel. simpl. rewrite Hmax, Hhop in *.
  split; [done|]. split; [congruence|]. split; [lia|]. split; [done|].
  split; [|split; [congruence|lia]].
  destruct (decide (Z.of_nat max_len ≤ Z.of_nat (size1 (npz_mel (np_load path)))))
    as [Hlong|Hshort].
  - destruct (Hcrop Hlong) as [? _]. nia.
  - destruct Hwhole as [-> ->]; [lia|]. simpl. nia.
Qed.

(** A turn of the first loop on a row that ends in a name. *)
Lemma named_step_fails (batch : list (Tensor2 F * Tensor2 F * (Tensor2 F + string)))
    (ids : list Z) (st : AudioMelMaskCollate.padded F) (n f m f' m' i : nat) (id : Z)
    (row : Tensor2 F * Tensor2 F * (Tensor2 F + string)) (name : string) :
  shape3 (AudioMelMaskCollate.masked_mel_padded st) = (n, f, m) →
  shape3 (AudioMelMaskCollate.wav_padded st) = (n, f', m') →
  length (AudioMelMaskCollate.masked_mel_lengths st) = n →
  length (AudioMelMaskCollate.wav_lengths st) = n →
  (i < n)%nat →
  ids !! i = Some id → 0 ≤ id → batch !! Z.to_nat id = Some row → row.2 = inr name →
  ∃ e, AudioMelMaskCollate.step batch ids st (Z.of_nat i) = Fail e
       ∧ (e = AttributeError ∨ e = Builtin RuntimeError).
Proof.
  intros Hmp Hwp Hml Hwl Hi Hid Hid0 Hrow Hname.
  destruct st as [mp ml wp wl rp]. simpl in *.
  unfold AudioMelMaskCollate.step, AudioMelMaskCollate.row.
  assert (Py.getitem ids (Z.of_nat i) = Ok id) as ->.
  { apply getitem_Ok; [lia|]. by rewrite Nat2Z.id. }
  cbn [builtin mbind outcome_bind].
  assert (Py.getitem batch id = Ok row) as -> by (by apply getitem_Ok; [lia|]).
  cbn [builtin mbind outcome_bind].
  pose proof (assign_row_fits mp i n f m row.1.1 Hmp Hi) as Hassign.
  destruct (decide (fits f m row.1.1)); [|rewrite Hassign; eauto].
  destruct Hassign as (mp' & -> & _). cbn [builtin mbind outcome_bind].
  unfold setitem, Py.alter_at.
  rewrite !(bool_decide_false (Z.of_nat i < 0)) by lia.
  rewrite (bool_decide_true (0 ≤ Z.of_nat i < Py.len ml)) by (unfold Py.len; lia).
  cbn [builtin mbind outcome_bind].
  pose proof (assign_row_fits wp i n f' m' row.1.2 Hwp Hi) as Hassign.
  destruct (decide (fits f' m' row.1.2)); [|rewrite Hassign; eauto].
  destruct Hassign as (wp' & -> & _). cbn [builtin mbind outcome_bind].
  rewrite (bool_decide_true (0 ≤ Z.of_nat i < Py.len wl)) by (unfold Py.len; lia).
  cbn [builtin mbind outcome_bind].
  rewrite Hname. cbn [tensor_of mbind outcome_bind]. eauto.
Qed.

(** X15: [AudioMelMaskCollate] never returns on the items of a loader built
    with [return_name].  Their third entry is a file name, which the first
    loop asks for its [size]: whatever the batch (not empty), the indices
    and the generator, the call ends in an AttributeError, or in the
    RuntimeError of a tensor that does not fit before that. *)
Theorem named_items_never_collate (np_load : string → Npz F) (mask_value : F)
    (self : AudioMelMixedMaskRandomLoader.t) (return_name : bool)
    (hop_len max_len : nat) (batch : list (Tensor2 F * Tensor2 F * (Tensor2 F + string))) :
  AudioMelMixedMaskRandomLoader.return_name self = true →
  batch ≠ [] →
  Forall (λ row, ∃ index g,
            (AudioMelItem.__getitem__ np_load mask_value self index g).1 = Ok row)
         batch →
  ∃ e, AudioMelMaskCollate.__call__ zero return_name hop_len max_len batch = Fail e
       ∧ (e = AttributeError ∨ e = Builtin RuntimeError).
Proof.
  intros Hname Hne Hitems.
  assert (Forall (λ row : Tensor2 F * Tensor2 F * (Tensor2 F + string),
                    ∃ name, row.2 = inr name) batch) as Hnamed.
  { eapply Forall_impl; [exact Hitems|]. intros row (index & g & Hrow).
    apply audio_mel_getitem_third in Hrow. by rewrite Hname in Hrow. }
  unfold AudioMelMaskCollate.__call__, AudioMelMaskCollate.row.
  destruct batch as [|first batch'] eqn:Hb; [done|]. rewrite <- Hb in *.
  set (ids := argsort_descending _).
  assert (ids ≡ₚ Py.range (Py.len batch)) as Hperm.
  { unfold ids. rewrite argsort_perm. unfold Py.len. by rewrite length_fmap. }
  assert (length batch = S (length batch')) as Hlen by (by rewrite Hb).
  assert (Py.len ids = Z.of_nat (S (length batch'))) as ->.
  { unfold Py.len. rewrite Hperm, length_range. unfold Py.len. lia. }
  assert (Py.getitem batch 0 = Ok first) as -> by (by rewrite Hb).
  cbn [builtin mbind outcome_bind].
  rewrite range_cons. cbn [for_each_outcome].
  destruct (picked_rows batch ids Hperm) as [_ Hrows].
  destruct (Hrows 0%nat) as (id & row & Hid & Hrange & Hrow & _); [lia|].
  rewrite Forall_forall in Hnamed.
  destruct (Hnamed row) as [name Hrowname]; [by eapply list_elem_of_lookup_2|].
  edestruct (named_step_fails batch ids) as (e & Hstep & He);
    [ | | | | | exact Hid | lia | exact Hrow | exact Hrowname | ].
  6: { change 0 with (Z.of_nat 0) at 1. rewrite Hstep. cbn [mbind outcome_bind].
       exists e. split; [done|exact He]. }
  - simpl. reflexivity.
  - simpl. reflexivity.
  - simpl. by rewrite length_replicate.
  - simpl. by rewrite length_replicate.
  - lia.
Qed.

(** X16: the default items of the loader do collate.  For a loader without
    [return_name] and a collate with its [max_length] and [hop_length],
    files whose mels have the same number of rows and whose audio holds at
    most [hop_length] samples for each frame, every non-empty batch of items
    of the loader is padded without an exception: the three padded tensors
    have the shapes [(n, rows, max_length)], [(n, 1, max_length *
    hop_length)] and [(n, rows, max_length)]. *)
Theorem loaded_audio_batch_collates (np_load : string → Npz F) (mask_value : F)
    (self : AudioMelMixedMaskRandomLoader.t) (hop_len max_len f : nat)
    (batch : list (Tensor2 F * Tensor2 F * (Tensor2 F + string))) :
  AudioMelMixedMaskRandomLoader.return_name self = false →
  AudioMelMixedMaskRandomLoader.max_length self = Z.of_nat max_len →
  AudioMelMixedMaskRandomLoader.hop_length self = Z.of_nat hop_len →
  (∀ path, path ∈ AudioMelMixedMaskRandomLoader.npzs self →
     size0 (npz_mel (np_load path)) = f
     ∧ (numel (npz_audio (np_load path)) ≤ size1 (npz_mel (np_load path)) * hop_len)%nat) →
  batch ≠ [] →
  Forall (λ row, ∃ index g,
            (AudioMelItem.__getitem__ np_load mask_value self index g).1 = Ok row)
         batch →
  ∃ mp ml wp wl rp,
    AudioMelMaskCollate.__call__ zero false hop_len max_len batch
    = Done (mp, ml, wp, wl, inr rp)
    ∧ shape3 mp = (length batch, f, max_len)
    ∧ shape3 wp = (length batch, 1%nat, (max_len * hop_len)%nat)
    ∧ shape3 rp = (length batch, f, max_len)
    ∧ length ml = length batch ∧ length wl = length batch.
Proof.
  intros Hname Hmax Hhop Hfiles Hne Hitems.
  assert (Forall (collatable f max_len hop_len) batch) as Hbatch.
  { eapply Forall_impl; [exact Hitems|]. intros row (index & g & Hrow).
    by eapply audio_mel_getitem_collatable. }
  unfold AudioMelMaskCollate.__call__, AudioMelMaskCollate.row.
  destruct batch as [|first batch'] eqn:Hb; [done|]. rewrite <- Hb in *.
  set (ids := argsort_descending _).
  assert (ids ≡ₚ Py.range (Py.len batch)) as Hperm.
  { unfold ids. rewrite argsort_perm. unfold Py.len. by rewrite length_fmap. }
  assert (length ids = length batch) as Hidslen.
  { rewrite Hperm, length_range. unfold Py.len. lia. }
  assert (Py.getitem batch 0 = Ok first) as -> by (by rewrite Hb).
  cbn [builtin mbind outcome_bind].
  assert (size0 first.1.1 = f) as ->.
  { rewrite Forall_forall in Hbatch.
    destruct (Hbatch first) as (_ & _ & ? & _); [rewrite Hb; by left|done]. }
  destruct (audio_loop_spec zero batch ids f max_len hop_len (length batch) Hperm Hbatch)
    as ([mp ml wp wl rp] & Hloop & [Hmp _] & [Hml _] & [Hwp _] & [Hwl _] & [Hrp _]);
    [done|].
  unfold Py.len at 1. rewrite Hidslen, Hloop. cbn [mbind outcome_bind].
  by exists mp, ml, wp, wl, rp.
Qed.

End audio_pipeline.

Lemma named_items_never_collate_witness :
  ∃ e, AudioMelMaskCollate.__call__ 0 true 3 8
         [example_item example_named_audio_mel 0 2;
          example_item example_named_audio_mel 1 4] = Fail e
       ∧ (e = AttributeError ∨ e = Builtin RuntimeError).
Proof.
  apply (named_items_never_collate 0 example_npz (-1) example_named_audio_mel true 3 8).
  - reflexivity.
  - done.
  - apply Forall_cons_2; [|apply Forall_cons_2; [|apply Forall_nil_2]].
    + exists 0, (2 : @Rng cycling_randint). reflexivity.
    + exists 1, (4 : @Rng cycling_randint). reflexivity.
Defined.

Example named_items_attribute_error :
  AudioMelMaskCollate.__call__ 0 true 3 8
    [example_item example_named_audio_mel 0 2; example_item example_named_audio_mel 1 4]
  = Fail AttributeError.
Proof. vm_compute. reflexivity. Qed.

Lemma loaded_audio_batch_collates_witness :
  let batch := [example_item example_audio_mel 0 2; example_item example_audio_mel 1 4] in
  ∃ mp ml wp wl rp,
    AudioMelMaskCollate.__call__ 0 false 3 8 batch = Done (mp, ml, wp, wl, inr rp)
    ∧ shape3 mp = (length batch, 2%nat, 8%nat)
    ∧ shape3 wp = (length batch, 1%nat, (8 * 3)%nat)
    ∧ shape3 rp = (length batch, 2%nat, 8%nat)
    ∧ length ml = length batch ∧ length wl = length batch.
Proof.
  apply (loaded_audio_batch_collates 0 example_npz (-1) example_audio_mel 3 8 2).
  - reflexivity.
  - reflexivity.
  - reflexivity.
  - intros path _. split; [reflexivity|]. simpl. lia.
  - done.
  - apply Forall_cons_2; [|apply Forall_cons_2; [|apply Forall_nil_2]].
    + exists 0, (2 : @Rng cycling_randint). reflexivity.
    + exists 1, (4 : @Rng cycling_randint). reflexivity.
Defined.

(** ** InpaintAudioCollate *)

Lemma num_splits_bounds {F} (t : Tensor1 F) (c n : nat) :
  get_num_splits t c = Ok n →
  (1 ≤ n ∧ numel t ≤ c * n ∧ c * (n - 1) ≤ numel t
   ∧ (2 ≤ n → c * (n - 1) < numel t) ∧ (c = 0 → numel t = 0 ∧ n = 1))%nat.
Proof.
  unfold get_num_splits. case_bool_decide as H0; [done|].
  case_bool_decide as Hc; intros [= <-].
  - subst c. assert (numel t = 0)%nat by (destruct (decide (numel t = 0)%nat); tauto).
    lia.
  - pose proof (Nat.div_mod_eq (numel t + c - 1) c) as Hdiv.
    pose proof (Nat.mod_upper_bound (numel t + c - 1) c Hc) as Hmod.
    set (q := ((numel t + c - 1) `div` c)%nat) in *.
    set (r := ((numel t + c - 1) `mod` c)%nat) in *. clearbody q r.
    destruct (Nat.max_spec q 1) as [[? ->]|[? ->]]; nia.
Qed.

Lemma sum_const (c : Z) (l : list Z) :
  Forall (λ x, x = c) l → Py.sum l = c * Z.of_nat (length l).
Proof.
  induction 1 as [|x l -> _ IH]; [unfold Py.sum; simpl; lia|].
  unfold Py.sum in *. cbn [foldr length]. rewrite IH. lia.
Qed.

Lemma sum_app (l1 l2 : list Z) : Py.sum (l1 ++ l2) = Py.sum l1 + Py.sum l2.
Proof.
  induction l1 as [|x l1 IH]; [unfold Py.sum; simpl; lia|].
  unfold Py.sum in *. simpl. rewrite IH. lia.
Qed.

Section inpaint.
Context {F : Type} (zero : F).

(** The copy loop of [InpaintAudioCollate.__call__] after [m] turns. *)
Lemma assign_loop_spec (audio : Tensor1 F) (c n m : nat) :
  get_num_splits audio c = Ok n →
  (m ≤ n)%nat →
  ∃ t, for_each (λ audio_padded '(i, seg), assign_seg audio_padded i seg)
         (take m (zip (Py.range (Z.of_nat n)) (piece audio c n <$> seq 0 n)))
         (zeros2 zero n c) = Ok t
       ∧ size0 t = n ∧ size1 t = c
       ∧ ∀ i k, at2 t i k
                = if decide (i < m ∧ k < numel (piece audio c n i))%nat
                  then at1 audio (i * c + k) else zero.
Proof.
  intros Hn. pose proof (num_splits_bounds audio c n Hn) as (Hn1 & Hle & Hge & _ & _).
  induction m as [|m IH]; intros Hm.
  - eexists. split; [done|]. split; [done|]. split; [done|].
    intros i k. by rewrite decide_False by lia.
  - destruct IH as (t & Hloop & Hs0 & Hs1 & Hat); [lia|].
    assert (zip (Py.range (Z.of_nat n)) (piece audio c n <$> seq 0 n) !! m
            = Some (Z.of_nat m, piece audio c n m)) as Hm'.
    { apply lookup_zip_Some. rewrite lookup_range, list_lookup_fmap.
      rewrite bool_decide_true by lia. by rewrite lookup_seq_lt by lia. }
    rewrite (take_S_r _ _ _ Hm'), for_each_app, Hloop. simpl.
    assert (numel (piece audio c n m) ≤ c)%nat as Hfit.
    { unfold piece. simpl. case_bool_decide; lia. }
    unfold assign_seg. rewrite Hs0, Hs1.
    rewrite !(bool_decide_false (Z.of_nat m < 0)) by lia.
    rewrite (bool_decide_true (0 ≤ Z.of_nat m < Z.of_nat n)) by lia.
    rewrite Nat.min_l by done. rewrite bool_decide_true by by left.
    eexists. split; [done|]. split; [done|]. split; [done|].
    intros i k. cbn [at2]. rewrite Nat2Z.id, Hat.
    destruct (decide (i = m)) as [->|Hne].
    + destruct (decide (k < numel (piece audio c n m))%nat).
      * rewrite bool_decide_true by done. rewrite bool_decide_true by done.
        by rewrite decide_True by (split; [lia|done]).
      * rewrite bool_decide_false by (intros [_ ?]; done).
        rewrite decide_False by lia. by rewrite decide_False by (intros [_ ?]; done).
    + rewrite bool_decide_false by (intros [? _]; done).
      destruct (decide (i < m ∧ k < numel (piece audio c n i))%nat) as [[? ?]|Hnot].
      * by rewrite decide_True by (split; [lia|done]).
      * rewrite decide_False; [done|]. intros [? ?]. apply Hnot. split; [lia|done].
Qed.

(** X17: [InpaintAudioCollate.__call__] cuts the audio of the first item
    of the batch into rows of [hop_len * max_len] samples and reads nothing
    else of the batch.  An empty batch is an IndexError, and a row length of
    0 with a non-empty audio is the RuntimeError of [split].  Otherwise the
    call returns the name of the first item, at least one row, and lengths
    that add up to the length of the audio; sample [j] of the audio is at
    column [j % row_length] of row [j // row_length], and every entry of
    the padded tensor beyond the audio is zero. *)
Theorem inpaint_collate_round_trip (hop_len max_len : nat)
    (batch : list (Tensor1 F * string)) :
  match batch with
  | [] => InpaintAudioCollate.__call__ zero hop_len max_len batch = Raise IndexError
  | (audio, names) :: _ =>
      match get_num_splits audio (hop_len * max_len) with
      | Raise e =>
          InpaintAudioCollate.__call__ zero hop_len max_len batch = Raise RuntimeError
          ∧ (hop_len * max_len = 0)%nat ∧ numel audio ≠ 0%nat
      | Ok n =>
          ∃ audio_padded audio_lengths,
            InpaintAudioCollate.__call__ zero hop_len max_len batch
            = Ok (audio_padded, audio_lengths, names)
            ∧ (1 ≤ n)%nat
            ∧ size0 audio_padded = n ∧ size1 audio_padded = (hop_len * max_len)%nat
            ∧ length audio_lengths = n
            ∧ Forall (λ l, 0 ≤ l ≤ Z.of_nat (hop_len * max_len)) audio_lengths
            ∧ Py.sum audio_lengths = Z.of_nat (numel audio)
            ∧ (∀ j, (j < numel audio)%nat →
                 at2 audio_padded (j `div` (hop_len * max_len))
                   (j `mod` (hop_len * max_len)) = at1 audio j)
            ∧ (∀ i k, (i < n)%nat → (k < hop_len * max_len)%nat →
                 (numel audio ≤ i * (hop_len * max_len) + k)%nat →
                 at2 audio_padded i k = zero)
      end
  end.
Proof.
  destruct batch as [|[audio names] rest]; [done|].
  unfold InpaintAudioCollate.__call__.
  change (Py.getitem ((audio, names) :: rest) 0) with (Ok (audio, names)).
  cbn [mbind result_bind]. unfold torch_split.
  set (c := (hop_len * max_len)%nat).
  destruct (get_num_splits audio c) as [n|e] eqn:Hn.
  2: { cbn [mbind result_bind]. unfold get_num_splits in Hn.
       case_bool_decide as H0; [|by case_bool_decide].
       injection Hn as <-. done. }
  cbn [mbind result_bind].
  pose proof (num_splits_bounds audio c n Hn) as (Hn1 & Hle & Hge & Hlt & Hzero).
  destruct (assign_loop_spec audio c n n Hn) as (t & Hloop & Hs0 & Hs1 & Hat); [done|].
  rewrite take_ge in Hloop.
  2: { rewrite length_zip_with, length_range, length_fmap, length_seq. lia. }
  unfold Py.len. rewrite !length_fmap, !length_seq, Hloop. cbn [mbind result_bind].
  eexists _, _. split; [done|]. split; [done|]. split; [done|]. split; [done|].
  split; [by rewrite !length_fmap, length_seq|].
  assert (∀ i, (i < n - 1)%nat → numel (piece audio c n i) = c) as Hfull.
  { intros i Hi. unfold piece. simpl. by rewrite bool_decide_true by done. }
  assert (numel (piece audio c n (n - 1)) = numel audio - c * (n - 1))%nat as Hlast.
  { unfold piece. simpl. rewrite bool_decide_false by lia. nia. }
  split; [|split; [|split]].
  - apply Forall_forall. intros l (seg & -> & (i & -> & Hi%elem_of_seq)%list_elem_of_fmap)
      %list_elem_of_fmap.
    destruct (decide (i < n - 1)%nat); [rewrite Hfull by done; lia|].
    replace i with (n - 1)%nat by lia. rewrite Hlast. nia.
  - replace n with (n - 1 + 1)%nat at 2 by lia.
    rewrite seq_app, !fmap_app, sum_app.
    change (seq (0 + (n - 1)) 1) with [(n - 1)%nat]. rewrite !list_fmap_singleton.
    rewrite (sum_const (Z.of_nat c)).
    + rewrite !length_fmap, length_seq. unfold Py.sum. cbn [foldr]. rewrite Hlast. nia.
    + apply Forall_forall.
      intros l (seg & -> & (i & -> & Hi%elem_of_seq)%list_elem_of_fmap)%list_elem_of_fmap.
      rewrite Hfull by lia. done.
  - intros j Hj. rewrite Hat.
    assert (c ≠ 0)%nat as Hc by (intros ?; destruct Hzero; [done|lia]).
    pose proof (Nat.div_mod_eq j c) as Hdiv.
    pose proof (Nat.mod_upper_bound j c Hc) as Hmod.
    set (q := (j `div` c)%nat) in *. set (r := (j `mod` c)%nat) in *. clearbody q r.
    assert (q < n)%nat as Hq by nia.
    rewrite decide_True; [f_equal; lia|]. split; [done|].
    destruct (decide (q < n - 1)%nat); [rewrite Hfull by done; lia|].
    replace q with (n - 1)%nat by lia. rewrite Hlast. nia.
  - intros i k Hi Hk Hbeyond. rewrite Hat. rewrite decide_False; [done|].
    intros [_ Hin].
    destruct (decide (i < n - 1)%nat) as [Hearly|Hlate].
    + specialize (Hlt ltac:(lia)). nia.
    + replace i with (n - 1)%nat in * by lia. rewrite Hlast in Hin. nia.
Qed.

End inpaint.

Example inpaint_collate_scenario :
  (λ r, (size0 r.1.1, size1 r.1.1, r.1.2, at2 r.1.1 0 5, at2 r.1.1 1 0, at2 r.1.1 1 1, r.2))
    <$> InpaintAudioCollate.__call__ 0 3 2
          [(mkTensor1 7 (λ k, 10 + Z.of_nat k), "out/a.wav");
           (mkTensor1 50 (λ k, Z.of_nat k), "out/b.wav")]
  = Ok (2%nat, 6%nat, [6; 1], 15, 16, 0, "out/a.wav").
Proof. vm_compute. reflexivity. Qed.

(** ** InpaintMelAudioCollate *)

Section segs.
Context {F A : Type} (zero : F) (get : A → Tensor1 F).

(** One row assignment into the padded 2-D tensor. *)
Lemma assign_seg_padded (batch : list A) (ids : list Z) (m k : nat) (t : Tensor2 F)
    (id : Z) (row : A) :
  padded_segs zero get batch ids m k t →
  (k < length batch)%nat →
  ids !! k = Some id → batch !! Z.to_nat id = Some row →
  (numel (get row) ≤ m)%nat →
  ∃ t', assign_seg t (Z.of_nat k) (get row) = Ok t'
        ∧ padded_segs zero get batch ids m (S k) t'.
Proof.
  intros (Hs0 & Hs1 & Hrows) Hk Hid Hrow Hm.
  unfold assign_seg. rewrite Hs0, Hs1.
  rewrite !(bool_decide_false (Z.of_nat k < 0)) by lia.
  rewrite (bool_decide_true (0 ≤ Z.of_nat k < Z.of_nat (length batch))) by lia.
  rewrite Nat.min_l by done. rewrite bool_decide_true by by left.
  eexists. split; [done|]. split; [done|]. split; [done|]. cbn [at2].
  intros i Hi. specialize (Hrows i Hi). rewrite Nat2Z.id.
  destruct (decide (i = k)) as [->|Hne].
  - rewrite decide_True by lia. exists id, row. split; [done|]. split; [done|].
    intros j Hj. rewrite decide_False in Hrows by lia.
    destruct (decide (j < numel (get row))%nat).
    + rewrite bool_decide_true by done. by rewrite bool_decide_true by done.
    + rewrite bool_decide_false by (intros [_ ?]; done). apply Hrows.
  - assert (∀ j, (if bool_decide (i = k ∧ (j < numel (get row))%nat)
                  then at1 (get row)
                         (if bool_decide (numel (get row) = numel (get row)) then j
                          else 0%nat)
                  else at2 t i j) = at2 t i j) as Hsame.
    { intros j. by rewrite bool_decide_false by (intros [? _]; done). }
    destruct (decide (i < k)%nat).
    + rewrite decide_True by lia. destruct Hrows as (id' & row' & ? & ? & Hdata).
      exists id', row'. split; [done|]. split; [done|].
      intros j Hj. rewrite Hsame. by apply Hdata.
    + rewrite decide_False by lia. intros j. rewrite Hsame. apply Hrows.
Qed.

Lemma padded_segs_zeros (batch : list A) (ids : list Z) (m : nat) :
  padded_segs zero get batch ids m 0 (zeros2 zero (length batch) m).
Proof.
  split; [done|]. split; [done|]. intros i Hi. by rewrite decide_False by lia.
Qed.

End segs.

Section inpaint_collate.
Context {F : Type} (zero : F) `{TorchSort}.

Lemma inpaint_step_spec (batch : list (Tensor2 F * Tensor2 F * Tensor1 F * string))
    (ids : list Z) (f max_len hop_len k : nat) (st : InpaintMelAudioCollate.padded F) :
  ids ≡ₚ Py.range (Py.len batch) →
  Forall (inpaintable f max_len hop_len) batch →
  (k < length batch)%nat →
  inpaint_collated zero batch ids f max_len hop_len k st →
  ∃ st', InpaintMelAudioCollate.step batch ids st (Z.of_nat k) = Ok st'
         ∧ inpaint_collated zero batch ids f max_len hop_len (S k) st'.
Proof.
  intros Hperm Hbatch Hk (Hmp & Hml & Hop & Hol & Hgp & Hgl & Hnames).
  destruct st as [mp ml op ol gp gl names]. simpl in *.
  destruct (picked_rows batch ids Hperm) as [_ Hrows].
  destruct (Hrows k Hk) as (id & row & Hid & Hrange & Hrow & _).
  rewrite Forall_forall in Hbatch.
  destruct (Hbatch row) as (Hm0 & Hm1 & Ho0 & Ho1 & Hg);
    [by eapply list_elem_of_lookup_2|].
  unfold InpaintMelAudioCollate.step, InpaintMelAudioCollate.row.
  assert (Py.getitem ids (Z.of_nat k) = Ok id) as ->.
  { apply getitem_Ok; [lia|]. by rewrite Nat2Z.id. }
  cbn [mbind result_bind].
  assert (Py.getitem batch id = Ok row) as -> by (by apply getitem_Ok; [lia|]).
  cbn [mbind result_bind].
  destruct (assign_row_padded zero row_mel batch ids f max_len k mp id row row.1.1.1)
    as (mp' & -> & Hmp'); [done..|].
  cbn [mbind result_bind].
  destruct (setitem_measured row_mel batch ids k ml id row row.1.1.1)
    as (ml' & -> & Hml'); [done..|].
  cbn [mbind result_bind].
  destruct (assign_row_padded zero row_orig batch ids f max_len k op id row row.1.1.2)
    as (op' & -> & Hop'); [done..|].
  cbn [mbind result_bind].
  destruct (setitem_measured row_orig batch ids k ol id row row.1.1.2)
    as (ol' & -> & Hol'); [done..|].
  cbn [mbind result_bind].
  destruct (assign_seg_padded zero row_gt batch ids (max_len * hop_len) k gp id row)
    as (gp' & Hgp_eq & Hgp'); [done..|].
  unfold row_gt in Hgp_eq at 1. rewrite Hgp_eq. cbn [mbind result_bind].
  destruct (setitem_measured row_gt_length batch ids k gl id row (unsqueeze0 row.1.2))
    as (gl' & Hgl_eq & Hgl'); [done..|].
  cbn [unsqueeze0 size1] in Hgl_eq. rewrite Hgl_eq. cbn [mbind result_bind].
  eexists. split; [done|]. unfold inpaint_collated. simpl. split_and!; try done.
  rewrite (take_S_r _ _ id) by done. rewrite omap_app, Hnames. simpl. by rewrite Hrow.
Qed.

Lemma inpaint_loop_spec (batch : list (Tensor2 F * Tensor2 F * Tensor1 F * string))
    (ids : list Z) (f max_len hop_len m : nat) :
  ids ≡ₚ Py.range (Py.len batch) →
  Forall (inpaintable f max_len hop_len) batch →
  (m ≤ length batch)%nat →
  ∃ st, for_each (InpaintMelAudioCollate.step batch ids) (Py.range (Z.of_nat m))
          (InpaintMelAudioCollate.mk
             (zeros3 zero (length batch) f max_len) (replicate (length batch) None)
             (zeros3 zero (length batch) f max_len) (replicate (length batch) None)
             (zeros2 zero (length batch) (max_len * hop_len))
             (replicate (length batch) None) []) = Ok st
        ∧ inpaint_collated zero batch ids f max_len hop_len m st.
Proof.
  intros Hperm Hbatch. induction m as [|m IH]; intros Hm.
  - eexists. split; [done|]. unfold inpaint_collated. simpl.
    split_and!;
      (apply padded_rows_zeros || apply measured_none || apply padded_segs_zeros || done).
  - destruct IH as (st & Hloop & Hinv); [lia|].
    destruct (inpaint_step_spec batch ids f max_len hop_len m st) as (st' & Hstep & Hinv');
      [done|done|lia|done|].
    exists st'. rewrite range_snoc, for_each_app, Hloop. simpl. by rewrite Hstep.
Qed.

(** X18: for a non-empty batch of rows [(mel, mel_orig, gt, name)] that need
    no broadcasting, [InpaintMelAudioCollate] returns.  The rows are visited
    in the descending order of the frame counts of the first mels; row [i]
    of the three padded tensors holds the mel, the original mel and the
    audio of the [i]-th visited item with zeros after their lengths, the
    three length vectors hold their lengths and [names] the names, all in
    that order. *)
Theorem inpaint_mel_collate_pads (hop_len max_len f : nat)
    (batch : list (Tensor2 F * Tensor2 F * Tensor1 F * string)) :
  batch ≠ [] →
  Forall (inpaintable f max_len hop_len) batch →
  ∃ st ids,
    InpaintMelAudioCollate.__call__ zero hop_len max_len batch = Ok st
    ∧ ids ≡ₚ Py.range (Py.len batch)
    ∧ Sorted Z.ge
        (omap (λ id, (λ row, Z.of_nat (size1 row.1.1.1)) <$> batch !! Z.to_nat id) ids)
    ∧ padded_rows zero row_mel batch ids f max_len (length batch)
        (InpaintMelAudioCollate.mel_padded st)
    ∧ measured row_mel batch ids (length batch) (InpaintMelAudioCollate.mel_lengths st)
    ∧ padded_rows zero row_orig batch ids f max_len (length batch)
        (InpaintMelAudioCollate.orig_padded st)
    ∧ measured row_orig batch ids (length batch) (InpaintMelAudioCollate.orig_lengths st)
    ∧ padded_segs zero row_gt batch ids (max_len * hop_len) (length batch)
        (InpaintMelAudioCollate.gt_padded st)
    ∧ measured row_gt_length batch ids (length batch)
        (InpaintMelAudioCollate.gt_lengths st)
    ∧ InpaintMelAudioCollate.names st = omap (λ id, snd <$> batch !! Z.to_nat id) ids.
Proof.
  intros Hne Hbatch. unfold InpaintMelAudioCollate.__call__, InpaintMelAudioCollate.row.
  destruct batch as [|first batch'] eqn:Hb; [done|]. rewrite <- Hb in *.
  set (lens := (λ x : Tensor2 F * Tensor2 F * Tensor1 F * string,
                  Z.of_nat (size1 x.1.1.1)) <$> batch).
  set (ids := argsort_descending lens).
  assert (ids ≡ₚ Py.range (Py.len batch)) as Hperm.
  { unfold ids. rewrite argsort_perm. unfold lens, Py.len. by rewrite length_fmap. }
  assert (length ids = length batch) as Hidslen.
  { rewrite Hperm, length_range. unfold Py.len. lia. }
  assert (Py.getitem batch 0 = Ok first) as -> by (by rewrite Hb).
  cbn [mbind result_bind].
  assert (size0 first.1.1.1 = f) as ->.
  { rewrite Forall_forall in Hbatch.
    destruct (Hbatch first) as (? & _); [rewrite Hb; by left|done]. }
  destruct (inpaint_loop_spec batch ids f max_len hop_len (length batch) Hperm Hbatch)
    as (st & Hloop & Hmp & Hml & Hop & Hol & Hgp & Hgl & Hnames); [done|].
  unfold Py.len at 1. rewrite Hidslen, Hloop.
  exists st, ids. rewrite take_ge in Hnames by lia. split_and!; try done.
  pose proof (argsort_sorted lens) as Hs. fold ids in Hs.
  erewrite list_omap_ext; [exact Hs|]. apply Forall2_same_length_lookup_2; [done|].
  intros i x y Hx Hy. rewrite Hx in Hy. injection Hy as <-.
  unfold lens. by rewrite list_lookup_fmap.
Qed.

End inpaint_collate.

Lemma inpaint_mel_collate_pads_witness :
  ∃ st ids,
    InpaintMelAudioCollate.__call__ 0 3 8 example_inpaint_rows = Ok st
    ∧ ids ≡ₚ Py.range (Py.len example_inpaint_rows)
    ∧ Sorted Z.ge
        (omap (λ id, (λ row, Z.of_nat (size1 row.1.1.1))
                       <$> example_inpaint_rows !! Z.to_nat id) ids)
    ∧ padded_rows 0 row_mel example_inpaint_rows ids 2 8 (length example_inpaint_rows)
        (InpaintMelAudioCollate.mel_padded st)
    ∧ measured row_mel example_inpaint_rows ids (length example_inpaint_rows)
        (InpaintMelAudioCollate.mel_lengths st)
    ∧ padded_rows 0 row_orig example_inpaint_rows ids 2 8 (length example_inpaint_rows)
        (InpaintMelAudioCollate.orig_padded st)
    ∧ measured row_orig example_inpaint_rows ids (length example_inpaint_rows)
        (InpaintMelAudioCollate.orig_lengths st)
    ∧ padded_segs 0 row_gt example_inpaint_rows ids (8 * 3)
        (length example_inpaint_rows) (InpaintMelAudioCollate.gt_padded st)
    ∧ measured row_gt_length example_inpaint_rows ids (length example_inpaint_rows)
        (InpaintMelAudioCollate.gt_lengths st)
    ∧ InpaintMelAudioCollate.names st
      = omap (λ id, snd <$> example_inpaint_rows !! Z.to_nat id) ids.
Proof.
  apply (inpaint_mel_collate_pads 0 3 8 2 example_inpaint_rows).
  - done.
  - apply Forall_cons_2; [|apply Forall_cons_2; [|apply Forall_nil_2]];
      (unfold inpaintable; simpl; lia).
Defined.

Example inpaint_mel_collate_scenario :
  (λ st, (shape3 (InpaintMelAudioCollate.mel_padded st),
          InpaintMelAudioCollate.mel_lengths st,
          InpaintMelAudioCollate.orig_lengths st,
          InpaintMelAudioCollate.gt_lengths st,
          InpaintMelAudioCollate.names st,
          at2 (InpaintMelAudioCollate.gt_padded st) 0 14,
          at2 (InpaintMelAudioCollate.gt_padded st) 0 15))
    <$> InpaintMelAudioCollate.__call__ 0 3 8 example_inpaint_rows
  = Ok ((2%nat, 2%nat, 8%nat), [Some 5; Some 3], [Some 6; Some 4], [Some 15; Some 9],
        ["y/b.wav"; "x/a.wav"], 19, 0).
Proof. vm_compute. reflexivity. Qed.
